(** * Gaza Care Hub: the patient store, its audit trail and the export path

  A shallow embedding of [src/services/storage.ts] and
  [src/services/export.ts] (with the data model of [src/types/index.ts]),
  and the properties of the storage and export core proved over it.

  Conventions of the embedding:
  - a JavaScript string is a sequence of UTF-16 code units; the strings of
    the embedding are those whose code units are below 256 (Basic Latin
    and Latin-1 Supplement), a [string] whose characters are the code
    units, by number.  On these [toLowerCase], [trim] and [parseInt] are
    the built-ins exactly: the capital letters are A-Z and U+00C0-U+00DE
    without U+00D7, the white space is U+0009-U+000D, U+0020 and U+00A0,
    and the length of a string counts its characters;
  - a JavaScript number holding an integer (a millisecond timestamp, an
    age) is a [Z];
  - the Dexie table [patients] is a finite map from the primary key [id]
    to the stored object;
  - [Date.now()] and [crypto.randomUUID()] read two oracles carried by the
    state, so that every run is a function of the readings it is given;
  - a thrown [Error] is the [Throw] result carrying its message; the
    storage engine itself is assumed available (it raises nothing but the
    constraint error of a duplicate key). *)

From Stdlib Require Import ZArith List String Ascii Bool Lia Permutation.
From Stdlib Require Import Sorting.Sorted.
From Stdlib Require OrderedTypeEx.
From stdpp Require Import base option list gmap strings sorting.

Local Open Scope string_scope.
Local Open Scope Z_scope.

(** ** The JavaScript built-ins the services call *)

Module JS.

(** The characters the sources name, by code. *)
Definition dquote : ascii := ascii_of_nat 34.
Definition LF : ascii := ascii_of_nat 10.
Definition CR : ascii := ascii_of_nat 13.

Definition str (c : ascii) : string := String c EmptyString.

(** [String.prototype.toLowerCase] on one code unit: the capital letters
    below 256 are A-Z (65-90) and U+00C0-U+00DE (192-222) without the
    multiplication sign U+00D7 (215); the small letter of each is 32 above.
    No other code unit below 256 changes, and none of the mappings looks at
    the neighbours. *)
Definition lower_char (c : ascii) : ascii :=
  let n := nat_of_ascii c in
  if ((Nat.leb 65 n && Nat.leb n 90)
      || (Nat.leb 192 n && Nat.leb n 222 && negb (Nat.eqb n 215)))%bool
  then ascii_of_nat (n + 32) else c.

Fixpoint toLowerCase (s : string) : string :=
  match s with
  | EmptyString => EmptyString
  | String c s' => String (lower_char c) (toLowerCase s')
  end.

(** [s.startsWith(t)]. *)
Fixpoint startsWith (s t : string) {struct t} : bool :=
  match t, s with
  | EmptyString, _ => true
  | String _ _, EmptyString => false
  | String b t', String a s' => if Ascii.eqb a b then startsWith s' t' else false
  end.

(** [s.includes(t)]: [t] occurs in [s] at some position. *)
Fixpoint includes (s t : string) : bool :=
  startsWith s t ||
  match s with
  | EmptyString => false
  | String _ s' => includes s' t
  end.

(** [s.includes(c)] for a one-character needle. *)
Definition includes_char (s : string) (c : ascii) : bool := includes s (str c).

(** [s.replace(/c/g, r)]: every occurrence of the character [c] becomes [r]. *)
Fixpoint replace_all (c : ascii) (r : string) (s : string) : string :=
  match s with
  | EmptyString => EmptyString
  | String a s' =>
      if Ascii.eqb a c then r +:+ replace_all c r s'
      else String a (replace_all c r s')
  end.

(** [s.slice(0, n)]. *)
Fixpoint slice0 (n : nat) (s : string) : string :=
  match n, s with
  | O, _ => EmptyString
  | S _, EmptyString => EmptyString
  | S n', String a s' => String a (slice0 n' s')
  end.

(** [xs.join(sep)]. *)
Fixpoint join (sep : string) (xs : list string) : string :=
  match xs with
  | [] => EmptyString
  | [x] => x
  | x :: xs' => x +:+ sep +:+ join sep xs'
  end.

(** Decimal digits of a natural number, most significant first. *)
Definition digit (d : Z) : ascii := ascii_of_nat (48 + Z.to_nat d).

Fixpoint digits_fuel (fuel : nat) (n : Z) (acc : string) : string :=
  match fuel with
  | O => acc
  | S fuel' =>
      let acc' := String (digit (n mod 10)) acc in
      if n / 10 =? 0 then acc' else digits_fuel fuel' (n / 10) acc'
  end.

Definition digits (n : Z) : string :=
  digits_fuel (S (Z.to_nat (Z.log2 n))) n EmptyString.

(** [n.toString()] for an integral number. *)
Definition Number_toString (n : Z) : string :=
  if n <? 0 then "-" +:+ digits (- n) else digits n.

(** [String(n).padStart(w, "0")] for [0 <= n]. *)
Fixpoint pad_fuel (w : nat) (n : Z) (acc : string) : string :=
  match w with
  | O => acc
  | S w' => pad_fuel w' (n / 10) (String (digit (n mod 10)) acc)
  end.

Definition pad (w : nat) (n : Z) : string := pad_fuel w n EmptyString.

(** *** [Date]

    A time value is a count of milliseconds since the epoch; a [Date] is
    valid when the count is within 8.64e15 of it (ECMA-262, 21.4.1.1).
    The civil date of a day number follows the proleptic Gregorian
    calendar, as [YearFromTime], [MonthFromTime] and [DateFromTime] do. *)

Definition msPerDay : Z := 86400000.

Definition validTime (t : Z) : bool :=
  (-8640000000000000 <=? t) && (t <=? 8640000000000000).

Definition civil_from_days (days : Z) : Z * Z * Z :=
  let z := days + 719468 in
  let era := z / 146097 in
  let doe := z - era * 146097 in
  let yoe := (doe - doe / 1460 + doe / 36524 - doe / 146096) / 365 in
  let doy := doe - (365 * yoe + yoe / 4 - yoe / 100) in
  let mp := (5 * doy + 2) / 153 in
  let d := doy - (153 * mp + 2) / 5 + 1 in
  let m := if mp <? 10 then mp + 3 else mp - 9 in
  let y := yoe + era * 400 + (if m <=? 2 then 1 else 0) in
  (y, m, d).

(** The year of an ISO string: four digits from 0 to 9999, else a sign and
    six digits. *)
Definition iso_year (y : Z) : string :=
  if (0 <=? y) && (y <=? 9999) then pad 4 y
  else if y <? 0 then "-" +:+ pad 6 (- y)
  else "+" +:+ pad 6 y.

(** [new Date(t).toISOString()] for a valid time value [t]:
    [YYYY-MM-DDTHH:mm:ss.sssZ]. *)
Definition toISOString (t : Z) : string :=
  let '(y, m, d) := civil_from_days (t / msPerDay) in
  let ms := t mod msPerDay in
  iso_year y +:+ "-" +:+ pad 2 m +:+ "-" +:+ pad 2 d +:+ "T" +:+
  pad 2 (ms / 3600000) +:+ ":" +:+ pad 2 ((ms / 60000) mod 60) +:+ ":" +:+
  pad 2 ((ms / 1000) mod 60) +:+ "." +:+ pad 3 (ms mod 1000) +:+ "Z".

(** *** Arrays

    [xs.sort(cmp)] is a stable sort (ECMAScript 2019): [a] is placed before
    [b] when [cmp a b] is negative, and elements the comparator does not
    separate keep their order.  Insertion from the right is such a sort. *)

Section Array.
Context {A : Type}.
Variable cmp : A -> A -> Z.

Fixpoint sort_insert (x : A) (l : list A) : list A :=
  match l with
  | [] => [x]
  | y :: l' => if cmp y x <? 0 then y :: sort_insert x l' else x :: y :: l'
  end.

Definition Array_sort (l : list A) : list A := foldr sort_insert [] l.

End Array.

(** [xs.slice(0, n)]. *)
Definition Array_slice0 {A : Type} (n : nat) (l : list A) : list A := take n l.

(** A value in a boolean position: the empty string is falsy, every other
    string is truthy. *)
Definition truthy (s : string) : bool := negb (String.eqb s EmptyString).

(** [a || d] on strings. *)
Definition or_else (a d : string) : string := if truthy a then a else d.

End JS.

(** ** The data model ([src/types/index.ts]) *)

(** The string-literal unions; each value is the string [_str] gives. *)

Inductive TriageLevel : Type := Critical | Urgent | Stable.

Inductive PatientStatus : Type :=
  Waiting | InTreatment | Treated | Discharged | Transferred.

Inductive ShiftType : Type := outgoing | incoming.

Inductive Priority : Type := high | medium | low.

Inductive ChangeType : Type :=
  change_status | change_triage | change_treatment | change_notes | change_vitals.

Definition TriageLevel_str (l : TriageLevel) : string :=
  match l with
  | Critical => "Critical"
  | Urgent => "Urgent"
  | Stable => "Stable"
  end.

Definition PatientStatus_str (s : PatientStatus) : string :=
  match s with
  | Waiting => "Waiting"
  | InTreatment => "In Treatment"
  | Treated => "Treated"
  | Discharged => "Discharged"
  | Transferred => "Transferred"
  end.

Definition ChangeType_str (c : ChangeType) : string :=
  match c with
  | change_status => "status"
  | change_triage => "triage"
  | change_treatment => "treatment"
  | change_notes => "notes"
  | change_vitals => "vitals"
  end.

#[global] Instance TriageLevel_eq_dec : EqDecision TriageLevel.
Proof. solve_decision. Defined.

#[global] Instance PatientStatus_eq_dec : EqDecision PatientStatus.
Proof. solve_decision. Defined.

#[global] Instance ChangeType_eq_dec : EqDecision ChangeType.
Proof. solve_decision. Defined.

(** [interface HandoverNote]. *)
Module HandoverNote.
Record t : Type := mk {
  id : string;
  patientId : string;
  timestamp : Z;
  staffName : string;
  shiftType : ShiftType;
  summary : string;
  criticalUpdates : list string;
  keyObservations : string;
  actionItems : list string;
  priority : Priority
}.
End HandoverNote.

(** [Omit<HandoverNote, 'id' | 'timestamp' | 'patientId'>]. *)
Module HandoverNoteInput.
Record t : Type := mk {
  staffName : string;
  shiftType : ShiftType;
  summary : string;
  criticalUpdates : list string;
  keyObservations : string;
  actionItems : list string;
  priority : Priority
}.
End HandoverNoteInput.

(** [interface StatusChange]. *)
Module StatusChange.
Record t : Type := mk {
  id : string;
  patientId : string;
  timestamp : Z;
  changeType : ChangeType;
  previousValue : string;
  newValue : string;
  staffName : option string;
  isHighlighted : bool
}.
End StatusChange.

(** [interface Patient]: a field declared with [?] is an [option]. *)
Module Patient.
Record t : Type := mk {
  id : string;
  name : string;
  age : Z;
  symptoms : list string;
  condition : string;
  triageLevel : TriageLevel;
  timestamp : Z;
  status : PatientStatus;
  notes : string;
  lastUpdated : Z;
  patientId : option string;
  mainComplaint : option string;
  medicalHistory : option string;
  examinationFindings : option string;
  provisionalDiagnosis : option string;
  treatmentPlan : option string;
  handoverNotes : option (list HandoverNote.t);
  statusChanges : option (list StatusChange.t)
}.
End Patient.

(** [Omit<Patient, "id" | "timestamp">], the argument of [addPatient]. *)
Module NewPatient.
Record t : Type := mk {
  name : string;
  age : Z;
  symptoms : list string;
  condition : string;
  triageLevel : TriageLevel;
  status : PatientStatus;
  notes : string;
  lastUpdated : Z;
  patientId : option string;
  mainComplaint : option string;
  medicalHistory : option string;
  examinationFindings : option string;
  provisionalDiagnosis : option string;
  treatmentPlan : option string;
  handoverNotes : option (list HandoverNote.t);
  statusChanges : option (list StatusChange.t)
}.
End NewPatient.

(** An object of changes without the keys [id] and [timestamp]: what the
    rest pattern of [updatePatient] binds to [allowedUpdates], and what the
    service hands to Dexie's [update].  [None] is a key the object lacks. *)
Module Changes.
Record t : Type := mk {
  name : option string;
  age : option Z;
  symptoms : option (list string);
  condition : option string;
  triageLevel : option TriageLevel;
  status : option PatientStatus;
  notes : option string;
  lastUpdated : option Z;
  patientId : option string;
  mainComplaint : option string;
  medicalHistory : option string;
  examinationFindings : option string;
  provisionalDiagnosis : option string;
  treatmentPlan : option string;
  handoverNotes : option (list HandoverNote.t);
  statusChanges : option (list StatusChange.t)
}.

Definition empty : t :=
  mk None None None None None None None None
     None None None None None None None None.
End Changes.

(** [Partial<Patient>], the argument of [updatePatient]: the keys [id] and
    [timestamp], and the rest. *)
Module PatientUpdate.
Record t : Type := mk {
  id : option string;
  timestamp : option Z;
  rest : Changes.t
}.
End PatientUpdate.

(** ** The state the services run in *)

(** The outcome of awaiting a promise: its value, or the message of the
    [Error] it rejected with. *)
Inductive Result (A : Type) : Type :=
| Ok (a : A)
| Throw (message : string).

Arguments Ok {A} a.
Arguments Throw {A} message.

(** The table [db.patients], the readings [Date.now()] will return and the
    identifiers [crypto.randomUUID()] will return, next one first; and the
    message the IndexedDB engine of the host gives the [ConstraintError] it
    raises for a key that is taken (the text is the engine's own, the
    sources fix none). *)
Record World : Type := mkWorld {
  patients : gmap string Patient.t;
  clock : nat -> Z;
  entropy : nat -> string;
  constraintError : string
}.

Definition M (A : Type) : Type := World -> Result A * World.

Definition ret {A : Type} (a : A) : M A := fun w => (Ok a, w).

Definition bind {A B : Type} (m : M A) (k : A -> M B) : M B :=
  fun w =>
    match m w with
    | (Ok a, w') => k a w'
    | (Throw e, w') => (Throw e, w')
    end.

Definition throw {A : Type} (message : string) : M A :=
  fun w => (Throw message, w).

(** [try { m } catch (error) { h error.message }]. *)
Definition try_catch {A : Type} (m : M A) (h : string -> M A) : M A :=
  fun w =>
    match m w with
    | (Ok a, w') => (Ok a, w')
    | (Throw e, w') => h e w'
    end.

Notation "'do' x <- m ; k" := (bind m (fun x => k))
  (at level 10, x name, m at level 100, k at level 200).

(** The catch block every service method ends with: the error is logged and
    rethrown as [new Error(`${context}${error.message}`)]. *)
Definition rethrow {A : Type} (context : string) (m : M A) : M A :=
  try_catch m (fun e => throw (context +:+ e)).

(** [for (const x of xs) ys.push(await f(x))]; also [xs.map(f)] for an [f]
    that may throw. *)
Fixpoint mapM {A B : Type} (f : A -> M B) (xs : list A) : M (list B) :=
  match xs with
  | [] => ret []
  | x :: xs' => do y <- f x; do ys <- mapM f xs'; ret (y :: ys)
  end.

Definition Date_now : M Z :=
  fun w =>
    (Ok (clock w 0%nat),
     mkWorld (patients w) (fun n => clock w (S n)) (entropy w)
       (constraintError w)).

Definition randomUUID : M string :=
  fun w =>
    (Ok (entropy w 0%nat),
     mkWorld (patients w) (clock w) (fun n => entropy w (S n))
       (constraintError w)).

(** *** The Dexie table *)

Module Table.

(** [db.patients.get(key)]. *)
Definition get (key : string) : M (option Patient.t) :=
  fun w => (Ok (patients w !! key), w).

(** [db.patients.add(obj)]: rejects with the [ConstraintError] of the engine
    when the primary key is taken. *)
Definition add (obj : Patient.t) : M string :=
  fun w =>
    match patients w !! Patient.id obj with
    | Some _ => (Throw (constraintError w), w)
    | None =>
        (Ok (Patient.id obj),
         mkWorld (<[Patient.id obj := obj]> (patients w)) (clock w) (entropy w)
           (constraintError w))
    end.

Definition over {A : Type} (new old : option A) : option A :=
  match new with
  | Some v => Some v
  | None => old
  end.

(** The object after the changes: every key the changes have is set. *)
Definition modify (c : Changes.t) (p : Patient.t) : Patient.t :=
  {| Patient.id := Patient.id p;
     Patient.name := default (Patient.name p) (Changes.name c);
     Patient.age := default (Patient.age p) (Changes.age c);
     Patient.symptoms := default (Patient.symptoms p) (Changes.symptoms c);
     Patient.condition := default (Patient.condition p) (Changes.condition c);
     Patient.triageLevel :=
       default (Patient.triageLevel p) (Changes.triageLevel c);
     Patient.timestamp := Patient.timestamp p;
     Patient.status := default (Patient.status p) (Changes.status c);
     Patient.notes := default (Patient.notes p) (Changes.notes c);
     Patient.lastUpdated :=
       default (Patient.lastUpdated p) (Changes.lastUpdated c);
     Patient.patientId := over (Changes.patientId c) (Patient.patientId p);
     Patient.mainComplaint :=
       over (Changes.mainComplaint c) (Patient.mainComplaint p);
     Patient.medicalHistory :=
       over (Changes.medicalHistory c) (Patient.medicalHistory p);
     Patient.examinationFindings :=
       over (Changes.examinationFindings c) (Patient.examinationFindings p);
     Patient.provisionalDiagnosis :=
       over (Changes.provisionalDiagnosis c) (Patient.provisionalDiagnosis p);
     Patient.treatmentPlan :=
       over (Changes.treatmentPlan c) (Patient.treatmentPlan p);
     Patient.handoverNotes :=
       over (Changes.handoverNotes c) (Patient.handoverNotes p);
     Patient.statusChanges :=
       over (Changes.statusChanges c) (Patient.statusChanges p) |}.

(** [db.patients.update(key, changes)]: resolves to the number of objects
    changed, 0 when the key is absent. *)
Definition update (key : string) (c : Changes.t) : M Z :=
  fun w =>
    match patients w !! key with
    | Some p =>
        (Ok 1,
         mkWorld (<[key := modify c p]> (patients w)) (clock w) (entropy w)
           (constraintError w))
    | None => (Ok 0, w)
    end.

(** [db.patients.delete(key)]: resolves whether or not the key was there. *)
Definition delete (key : string) : M unit :=
  fun w =>
    (Ok tt,
     mkWorld (base.delete key (patients w)) (clock w) (entropy w)
       (constraintError w)).

(** The order of the index on [timestamp]: by timestamp, then by primary
    key. *)
Definition index_cmp (p q : Patient.t) : Z :=
  if Patient.timestamp p <? Patient.timestamp q then -1
  else if Patient.timestamp q <? Patient.timestamp p then 1
  else match String.compare (Patient.id p) (Patient.id q) with
       | Lt => -1
       | Eq => 0
       | Gt => 1
       end.

(** [db.patients.orderBy("timestamp").reverse().toArray()]. *)
Definition orderBy_timestamp_reverse : M (list Patient.t) :=
  fun w =>
    (Ok (reverse (JS.Array_sort index_cmp (snd <$> map_to_list (patients w)))), w).

End Table.

(** ** The storage service ([src/services/storage.ts]) *)

(** [addPatient]. *)
Definition addPatient (patient : NewPatient.t) : M string :=
  rethrow "Failed to add patient: "
    (do id <- randomUUID;
     do timestamp <- Date_now;
     let fullPatient :=
       {| Patient.id := id;
          Patient.name := NewPatient.name patient;
          Patient.age := NewPatient.age patient;
          Patient.symptoms := NewPatient.symptoms patient;
          Patient.condition := NewPatient.condition patient;
          Patient.triageLevel := NewPatient.triageLevel patient;
          Patient.timestamp := timestamp;
          Patient.status := Waiting;
          Patient.notes := EmptyString;
          Patient.lastUpdated := timestamp;
          Patient.patientId := NewPatient.patientId patient;
          Patient.mainComplaint := NewPatient.mainComplaint patient;
          Patient.medicalHistory := NewPatient.medicalHistory patient;
          Patient.examinationFindings := NewPatient.examinationFindings patient;
          Patient.provisionalDiagnosis := NewPatient.provisionalDiagnosis patient;
          Patient.treatmentPlan := NewPatient.treatmentPlan patient;
          Patient.handoverNotes := NewPatient.handoverNotes patient;
          Patient.statusChanges := NewPatient.statusChanges patient |} in
     do _ <- Table.add fullPatient;
     ret id).

(** [getPatients]. *)
Definition getPatients : M (list Patient.t) :=
  rethrow "Failed to retrieve patients: " Table.orderBy_timestamp_reverse.

(** The four guarded pushes of [trackStatusChanges] (lines 137-187), one
    definition each; [timestamp] is the reading the method took first. *)

Definition trackStatus (existingPatient : Patient.t) (updates : Changes.t)
    (timestamp : Z) : M (list StatusChange.t) :=
  match Changes.status updates with
  | Some status =>
      if JS.truthy (PatientStatus_str status)
         && negb (bool_decide (status = Patient.status existingPatient))
      then
        do id <- randomUUID;
        ret [ {| StatusChange.id := id;
                 StatusChange.patientId := Patient.id existingPatient;
                 StatusChange.timestamp := timestamp;
                 StatusChange.changeType := change_status;
                 StatusChange.previousValue :=
                   JS.or_else (PatientStatus_str (Patient.status existingPatient))
                     "Unknown";
                 StatusChange.newValue := PatientStatus_str status;
                 StatusChange.staffName := None;
                 StatusChange.isHighlighted := true |} ]
      else ret []
  | None => ret []
  end.

Definition trackTriage (existingPatient : Patient.t) (updates : Changes.t)
    (timestamp : Z) : M (list StatusChange.t) :=
  match Changes.triageLevel updates with
  | Some triageLevel =>
      if JS.truthy (TriageLevel_str triageLevel)
         && negb (bool_decide (triageLevel = Patient.triageLevel existingPatient))
      then
        do id <- randomUUID;
        ret [ {| StatusChange.id := id;
                 StatusChange.patientId := Patient.id existingPatient;
                 StatusChange.timestamp := timestamp;
                 StatusChange.changeType := change_triage;
                 StatusChange.previousValue :=
                   TriageLevel_str (Patient.triageLevel existingPatient);
                 StatusChange.newValue := TriageLevel_str triageLevel;
                 StatusChange.staffName := None;
                 StatusChange.isHighlighted := true |} ]
      else ret []
  | None => ret []
  end.

Definition trackNotes (existingPatient : Patient.t) (updates : Changes.t)
    (timestamp : Z) : M (list StatusChange.t) :=
  match Changes.notes updates with
  | Some notes =>
      if JS.truthy notes
         && negb (String.eqb notes (Patient.notes existingPatient))
      then
        do id <- randomUUID;
        ret [ {| StatusChange.id := id;
                 StatusChange.patientId := Patient.id existingPatient;
                 StatusChange.timestamp := timestamp;
                 StatusChange.changeType := change_notes;
                 StatusChange.previousValue :=
                   JS.or_else (Patient.notes existingPatient) "No notes";
                 StatusChange.newValue := notes;
                 StatusChange.staffName := None;
                 StatusChange.isHighlighted := false |} ]
      else ret []
  | None => ret []
  end.

Definition trackTreatment (existingPatient : Patient.t) (updates : Changes.t)
    (timestamp : Z) : M (list StatusChange.t) :=
  match Changes.treatmentPlan updates with
  | Some treatmentPlan =>
      if JS.truthy treatmentPlan
         && negb (bool_decide
                    (Some treatmentPlan = Patient.treatmentPlan existingPatient))
      then
        do id <- randomUUID;
        ret [ {| StatusChange.id := id;
                 StatusChange.patientId := Patient.id existingPatient;
                 StatusChange.timestamp := timestamp;
                 StatusChange.changeType := change_treatment;
                 StatusChange.previousValue :=
                   match Patient.treatmentPlan existingPatient with
                   | Some previous => JS.or_else previous "No treatment plan"
                   | None => "No treatment plan"
                   end;
                 StatusChange.newValue := treatmentPlan;
                 StatusChange.staffName := None;
                 StatusChange.isHighlighted := true |} ]
      else ret []
  | None => ret []
  end.

(** The array [newChanges] once the four guards have run. *)
Definition newChanges (existingPatient : Patient.t) (updates : Changes.t)
    (timestamp : Z) : M (list StatusChange.t) :=
  do c1 <- trackStatus existingPatient updates timestamp;
  do c2 <- trackTriage existingPatient updates timestamp;
  do c3 <- trackNotes existingPatient updates timestamp;
  do c4 <- trackTreatment existingPatient updates timestamp;
  ret (c1 ++ c2 ++ c3 ++ c4)%list.

(** The comparator [(a, b) => b.timestamp - a.timestamp]. *)
Definition newest_first (a b : StatusChange.t) : Z :=
  StatusChange.timestamp b - StatusChange.timestamp a.

(** Lines 189-192: existing and new changes, sorted, the first 50 kept. *)
Definition retain (existingChanges newChanges : list StatusChange.t)
    : list StatusChange.t :=
  JS.Array_slice0 50
    (JS.Array_sort newest_first (existingChanges ++ newChanges)%list).

(** [trackStatusChanges]. *)
Definition trackStatusChanges (existingPatient : Patient.t)
    (updates : Changes.t) : M (list StatusChange.t) :=
  let existingChanges := default [] (Patient.statusChanges existingPatient) in
  do timestamp <- Date_now;
  do new <- newChanges existingPatient updates timestamp;
  ret (retain existingChanges new).

(** The object [updatesWithTimestamp]. *)
Definition updatesWithTimestamp (allowedUpdates : Changes.t) (now : Z)
    (statusChanges : list StatusChange.t) : Changes.t :=
  {| Changes.name := Changes.name allowedUpdates;
     Changes.age := Changes.age allowedUpdates;
     Changes.symptoms := Changes.symptoms allowedUpdates;
     Changes.condition := Changes.condition allowedUpdates;
     Changes.triageLevel := Changes.triageLevel allowedUpdates;
     Changes.status := Changes.status allowedUpdates;
     Changes.notes := Changes.notes allowedUpdates;
     Changes.lastUpdated := Some now;
     Changes.patientId := Changes.patientId allowedUpdates;
     Changes.mainComplaint := Changes.mainComplaint allowedUpdates;
     Changes.medicalHistory := Changes.medicalHistory allowedUpdates;
     Changes.examinationFindings := Changes.examinationFindings allowedUpdates;
     Changes.provisionalDiagnosis := Changes.provisionalDiagnosis allowedUpdates;
     Changes.treatmentPlan := Changes.treatmentPlan allowedUpdates;
     Changes.handoverNotes := Changes.handoverNotes allowedUpdates;
     Changes.statusChanges := Some statusChanges |}.

(** [updatePatient]. *)
Definition updatePatient (id : string) (updates : PatientUpdate.t) : M unit :=
  rethrow "Failed to update patient: "
    (do existing <- Table.get id;
     match existing with
     | None => throw ("Patient with ID " +:+ id +:+ " not found")
     | Some existingPatient =>
         let allowedUpdates := PatientUpdate.rest updates in
         do statusChanges <- trackStatusChanges existingPatient allowedUpdates;
         do now <- Date_now;
         do _ <- Table.update id (updatesWithTimestamp allowedUpdates now statusChanges);
         ret tt
     end).

(** [addHandoverNote]. *)
Definition addHandoverNote (patientId : string)
    (handoverNote : HandoverNoteInput.t) : M unit :=
  rethrow "Failed to add handover note: "
    (do existing <- Table.get patientId;
     match existing with
     | None => throw ("Patient with ID " +:+ patientId +:+ " not found")
     | Some existingPatient =>
         do id <- randomUUID;
         do timestamp <- Date_now;
         let newHandoverNote :=
           {| HandoverNote.id := id;
              HandoverNote.patientId := patientId;
              HandoverNote.timestamp := timestamp;
              HandoverNote.staffName := HandoverNoteInput.staffName handoverNote;
              HandoverNote.shiftType := HandoverNoteInput.shiftType handoverNote;
              HandoverNote.summary := HandoverNoteInput.summary handoverNote;
              HandoverNote.criticalUpdates :=
                HandoverNoteInput.criticalUpdates handoverNote;
              HandoverNote.keyObservations :=
                HandoverNoteInput.keyObservations handoverNote;
              HandoverNote.actionItems := HandoverNoteInput.actionItems handoverNote;
              HandoverNote.priority := HandoverNoteInput.priority handoverNote |} in
         let existingNotes := default [] (Patient.handoverNotes existingPatient) in
         let updatedNotes := JS.Array_slice0 20 (newHandoverNote :: existingNotes) in
         do now <- Date_now;
         do _ <- Table.update patientId
                   {| Changes.name := None; Changes.age := None;
                      Changes.symptoms := None; Changes.condition := None;
                      Changes.triageLevel := None; Changes.status := None;
                      Changes.notes := None; Changes.lastUpdated := Some now;
                      Changes.patientId := None; Changes.mainComplaint := None;
                      Changes.medicalHistory := None;
                      Changes.examinationFindings := None;
                      Changes.provisionalDiagnosis := None;
                      Changes.treatmentPlan := None;
                      Changes.handoverNotes := Some updatedNotes;
                      Changes.statusChanges := None |};
         ret tt
     end).

(** [deletePatient]. *)
Definition deletePatient (id : string) : M unit :=
  rethrow "Failed to delete patient: "
    (do _ <- Table.delete id;
     do existingPatient <- Table.get id;
     match existingPatient with
     | Some _ => throw ("Patient with ID " +:+ id +:+ " could not be deleted")
     | None => ret tt
     end).

(** The test of the filter in [searchPatients]. *)
Definition matchesSearch (searchLower : string) (patient : Patient.t) : bool :=
  JS.includes (JS.toLowerCase (Patient.name patient)) searchLower
  || JS.includes (JS.toLowerCase (Patient.condition patient)) searchLower
  || JS.includes (JS.toLowerCase (Patient.notes patient)) searchLower.

(** [searchPatients]. *)
Definition searchPatients (searchTerm : string) : M (list Patient.t) :=
  rethrow "Failed to search patients: "
    (do allPatients <- getPatients;
     let searchLower := JS.toLowerCase searchTerm in
     ret (List.filter (matchesSearch searchLower) allPatients)).

(** ** The export service ([src/services/export.ts]) *)

(** [formatTimestamp]: [toISOString] throws a [RangeError] on an invalid
    date. *)
Definition formatTimestamp (timestamp : Z) : M string :=
  if JS.validTime timestamp then ret (JS.toISOString timestamp)
  else throw "Invalid time value".

(** [escapeCSVValue]. *)
Definition escapeCSVValue (value : string) : string :=
  if JS.includes value ","
     || JS.includes_char value JS.dquote
     || JS.includes_char value JS.LF
     || JS.includes_char value JS.CR
  then
    JS.str JS.dquote
    +:+ JS.replace_all JS.dquote (JS.str JS.dquote +:+ JS.str JS.dquote) value
    +:+ JS.str JS.dquote
  else value.

(** [patientToCSVRow]. *)
Definition patientToCSVRow (patient : Patient.t) : M string :=
  let symptomsFormatted := JS.join ";" (Patient.symptoms patient) in
  do timestampFormatted <- formatTimestamp (Patient.timestamp patient);
  let csvValues :=
    [ escapeCSVValue (Patient.id patient);
      escapeCSVValue (Patient.name patient);
      JS.Number_toString (Patient.age patient);
      escapeCSVValue symptomsFormatted;
      escapeCSVValue (Patient.condition patient);
      escapeCSVValue (TriageLevel_str (Patient.triageLevel patient));
      escapeCSVValue timestampFormatted ] in
  ret (JS.join "," csvValues).

Definition noDataMessage : string := "No patient data available for export".

Definition headers : list string :=
  [ "Patient ID"; "Name"; "Age"; "Symptoms"; "Condition"; "Triage Level";
    "Timestamp" ].

(** [exportToCSV]. *)
Definition exportToCSV : M string :=
  rethrow "Failed to export CSV: "
    (do patients <- getPatients;
     if (length patients =? 0)%nat then ret noDataMessage
     else
       do rows <- mapM patientToCSVRow patients;
       let csvRows := JS.join "," headers :: rows in
       ret (JS.join (JS.str JS.LF) csvRows)).

(** [generateTimestampedFilename]; [new Date()] reads the clock. *)
Definition generateTimestampedFilename (prefix extension : string) : M string :=
  do now <- Date_now;
  let timestamp :=
    JS.slice0 19
      (JS.replace_all "." "-" (JS.replace_all ":" "-" (JS.toISOString now))) in
  ret (prefix +:+ "_" +:+ timestamp +:+ "." +:+ extension).

(** ** Sequences of calls *)

(** [for (const u of updates) await updatePatient(id, u)]. *)
Fixpoint updateEach (id : string) (updates : list PatientUpdate.t) : M unit :=
  match updates with
  | [] => ret tt
  | u :: rest => do _ <- updatePatient id u; updateEach id rest
  end.

(** [for (const n of notes) await addHandoverNote(patientId, n)]. *)
Fixpoint addEach (patientId : string) (notes : list HandoverNoteInput.t) : M unit :=
  match notes with
  | [] => ret tt
  | n :: rest => do _ <- addHandoverNote patientId n; addEach patientId rest
  end.

(** ** Vocabulary of the statements *)

Definition changeTime (c : StatusChange.t) : Z := StatusChange.timestamp c.

(** Newest first, for status changes and for patients. *)
Definition newer_change (a b : StatusChange.t) : Prop :=
  changeTime b <= changeTime a.

Definition newer_patient (p q : Patient.t) : Prop :=
  Patient.timestamp q <= Patient.timestamp p.

(** What [retain] leaves out: the entries after the first 50. *)
Definition discarded (existingChanges newChanges : list StatusChange.t)
    : list StatusChange.t :=
  drop 50 (JS.Array_sort newest_first (existingChanges ++ newChanges)%list).

(** The four tracked fields. *)
Inductive Tracked : Type :=
  tracked_status | tracked_triageLevel | tracked_notes | tracked_treatmentPlan.

Definition tag (f : Tracked) : ChangeType :=
  match f with
  | tracked_status => change_status
  | tracked_triageLevel => change_triage
  | tracked_notes => change_notes
  | tracked_treatmentPlan => change_treatment
  end.

(** The value an update proposes for a field, and the value stored. *)
Definition proposed (f : Tracked) (u : Changes.t) : option string :=
  match f with
  | tracked_status => PatientStatus_str <$> Changes.status u
  | tracked_triageLevel => TriageLevel_str <$> Changes.triageLevel u
  | tracked_notes => Changes.notes u
  | tracked_treatmentPlan => Changes.treatmentPlan u
  end.

Definition stored (f : Tracked) (p : Patient.t) : option string :=
  match f with
  | tracked_status => Some (PatientStatus_str (Patient.status p))
  | tracked_triageLevel => Some (TriageLevel_str (Patient.triageLevel p))
  | tracked_notes => Some (Patient.notes p)
  | tracked_treatmentPlan => Patient.treatmentPlan p
  end.

Definition placeholder (f : Tracked) : string :=
  match f with
  | tracked_status => "Unknown"
  | tracked_triageLevel => EmptyString
  | tracked_notes => "No notes"
  | tracked_treatmentPlan => "No treatment plan"
  end.

(** The prior value as an audit entry shows it: the placeholder stands for
    a value that is absent or empty. *)
Definition shown_previous (f : Tracked) (p : Patient.t) : string :=
  match stored f p with
  | Some v => if String.eqb v EmptyString then placeholder f else v
  | None => placeholder f
  end.

Definition highlighted (f : Tracked) : bool :=
  match f with
  | tracked_notes => false
  | _ => true
  end.

(** The entries of a list of changes that carry the tag of a field. *)
Definition tagged (f : Tracked) (cs : list StatusChange.t) : list StatusChange.t :=
  filter (fun c => StatusChange.changeType c = tag f) cs.

(** The update proposes the non-empty value [v] for the field, and [v] is
    not the value stored. *)
Definition changed (f : Tracked) (p : Patient.t) (u : Changes.t) (v : string)
    : Prop :=
  proposed f u = Some v /\ v <> EmptyString /\ stored f p <> Some v.

(** The audit entry of a change of the field to [v], made at [time]. *)
Definition entry_for (f : Tracked) (p : Patient.t) (time : Z) (v : string)
    (c : StatusChange.t) : Prop :=
  StatusChange.changeType c = tag f
  /\ StatusChange.previousValue c = shown_previous f p
  /\ StatusChange.newValue c = v
  /\ StatusChange.isHighlighted c = highlighted f
  /\ StatusChange.timestamp c = time
  /\ StatusChange.patientId c = Patient.id p.

(** What one field contributes to the new changes: one entry when it
    changed, none otherwise. *)
Definition contributes (f : Tracked) (p : Patient.t) (u : Changes.t) (time : Z)
    (cs : list StatusChange.t) : Prop :=
  (forall v, changed f p u v -> exists c, cs = [c] /\ entry_for f p time v c)
  /\ ((~ exists v, changed f p u v) -> cs = [])
  /\ Forall (fun c => StatusChange.changeType c = tag f) cs.

(** What a call of [updatePatient] synthesizes in the world it starts in:
    the array [newChanges] of its [trackStatusChanges]. *)
Definition synthesized (id : string) (u : PatientUpdate.t) (w : World)
    : list StatusChange.t :=
  match patients w !! id with
  | Some p =>
      match newChanges p (PatientUpdate.rest u) (clock w 0%nat) (snd (Date_now w)) with
      | (Ok cs, _) => cs
      | (Throw _, _) => []
      end
  | None => []
  end.

Fixpoint synthesizedEach (id : string) (updates : list PatientUpdate.t)
    (w : World) : list (list StatusChange.t) :=
  match updates with
  | [] => []
  | u :: rest =>
      synthesized id u w :: synthesizedEach id rest (snd (updatePatient id u w))
  end.

(** The note a call of [addHandoverNote] creates in the world it starts in. *)
Definition createdNote (patientId : string) (n : HandoverNoteInput.t)
    (w : World) : HandoverNote.t :=
  {| HandoverNote.id := entropy w 0%nat;
     HandoverNote.patientId := patientId;
     HandoverNote.timestamp := clock w 0%nat;
     HandoverNote.staffName := HandoverNoteInput.staffName n;
     HandoverNote.shiftType := HandoverNoteInput.shiftType n;
     HandoverNote.summary := HandoverNoteInput.summary n;
     HandoverNote.criticalUpdates := HandoverNoteInput.criticalUpdates n;
     HandoverNote.keyObservations := HandoverNoteInput.keyObservations n;
     HandoverNote.actionItems := HandoverNoteInput.actionItems n;
     HandoverNote.priority := HandoverNoteInput.priority n |}.

Fixpoint createdEach (patientId : string) (notes : list HandoverNoteInput.t)
    (w : World) : list HandoverNote.t :=
  match notes with
  | [] => []
  | n :: rest =>
      createdNote patientId n w
      :: createdEach patientId rest (snd (addHandoverNote patientId n w))
  end.

(** A record with its handover notes and [lastUpdated] replaced. *)
Definition with_handoverNotes (notes : list HandoverNote.t) (now : Z)
    (p : Patient.t) : Patient.t :=
  {| Patient.id := Patient.id p;
     Patient.name := Patient.name p;
     Patient.age := Patient.age p;
     Patient.symptoms := Patient.symptoms p;
     Patient.condition := Patient.condition p;
     Patient.triageLevel := Patient.triageLevel p;
     Patient.timestamp := Patient.timestamp p;
     Patient.status := Patient.status p;
     Patient.notes := Patient.notes p;
     Patient.lastUpdated := now;
     Patient.patientId := Patient.patientId p;
     Patient.mainComplaint := Patient.mainComplaint p;
     Patient.medicalHistory := Patient.medicalHistory p;
     Patient.examinationFindings := Patient.examinationFindings p;
     Patient.provisionalDiagnosis := Patient.provisionalDiagnosis p;
     Patient.treatmentPlan := Patient.treatmentPlan p;
     Patient.handoverNotes := Some notes;
     Patient.statusChanges := Patient.statusChanges p |}.

(** A record with its name, [lastUpdated] and status changes replaced. *)
Definition with_name (name : string) (now : Z) (changes : list StatusChange.t)
    (p : Patient.t) : Patient.t :=
  {| Patient.id := Patient.id p;
     Patient.name := name;
     Patient.age := Patient.age p;
     Patient.symptoms := Patient.symptoms p;
     Patient.condition := Patient.condition p;
     Patient.triageLevel := Patient.triageLevel p;
     Patient.timestamp := Patient.timestamp p;
     Patient.status := Patient.status p;
     Patient.notes := Patient.notes p;
     Patient.lastUpdated := now;
     Patient.patientId := Patient.patientId p;
     Patient.mainComplaint := Patient.mainComplaint p;
     Patient.medicalHistory := Patient.medicalHistory p;
     Patient.examinationFindings := Patient.examinationFindings p;
     Patient.provisionalDiagnosis := Patient.provisionalDiagnosis p;
     Patient.treatmentPlan := Patient.treatmentPlan p;
     Patient.handoverNotes := Patient.handoverNotes p;
     Patient.statusChanges := Some changes |}.

(** The payload [{ name }]. *)
Definition only_name (name : string) : Changes.t :=
  Changes.mk (Some name) None None None None None None None
             None None None None None None None None.

(** [t] occurs in [s]. *)
Definition substring_of (t s : string) : Prop :=
  exists pre post, s = pre +:+ t +:+ post.

(** *** Letters and white space, by their codes

    What "case set aside" and "white space" mean is said here by the codes
    of the characters, without the built-ins the services call. *)

(** A capital letter: A-Z, or U+00C0-U+00DE without the multiplication
    sign. *)
Definition capital (c : ascii) : Prop :=
  let n := nat_of_ascii c in
  (65 <= n <= 90 \/ 192 <= n <= 214 \/ 216 <= n <= 222)%nat.

(** [d] is the small letter of the capital [c]: it stands 32 above. *)
Definition small_of (c d : ascii) : Prop :=
  capital c /\ nat_of_ascii d = (nat_of_ascii c + 32)%nat.

(** The same character, or the same letter in the other case. *)
Definition same_letter (a b : ascii) : Prop :=
  a = b \/ small_of a b \/ small_of b a.

(** The same text, letter by letter, case set aside. *)
Inductive ci_equal : string -> string -> Prop :=
| ci_equal_empty : ci_equal EmptyString EmptyString
| ci_equal_letter (a b : ascii) (s t : string) :
    same_letter a b -> ci_equal s t -> ci_equal (String a s) (String b t).

(** A part of [s] is the term, case set aside. *)
Definition ci_contains (s term : string) : Prop :=
  exists pre part post, s = pre +:+ part +:+ post /\ ci_equal part term.

(** White space: tab, line feed, vertical tab, form feed, carriage return,
    space, no-break space. *)
Definition white (c : ascii) : Prop :=
  In (nat_of_ascii c) [9; 10; 11; 12; 13; 32; 160]%nat.

(** Nothing but white space (the empty string too). *)
Definition blank (s : string) : Prop :=
  forall c, In c (list_ascii_of_string s) -> white c.

(** [t] is [s] without the white space around it: [s] is [t] between two
    blank strings, and [t] neither starts nor ends with white space. *)
Definition stripped (s t : string) : Prop :=
  exists pre post,
    s = pre +:+ t +:+ post
    /\ blank pre /\ blank post
    /\ (forall c r, t = String c r -> ~ white c)
    /\ (forall r c, t = r +:+ String c EmptyString -> ~ white c).

Definition Matches (term : string) (p : Patient.t) : Prop :=
  ci_contains (Patient.name p) term
  \/ ci_contains (Patient.condition p) term
  \/ ci_contains (Patient.notes p) term.

(** A comma, a double quote or a line break occurs in the value. *)
Definition needs_quoting (v : string) : Prop :=
  exists c, (c = ","%char \/ c = JS.dquote \/ c = JS.LF \/ c = JS.CR)
            /\ In c (list_ascii_of_string v).

(** Every double quote written twice. *)
Fixpoint doubled (v : string) : string :=
  match v with
  | EmptyString => EmptyString
  | String c v' =>
      if Ascii.eqb c JS.dquote then String c (String c (doubled v'))
      else String c (doubled v')
  end.

Definition quoted (v : string) : string :=
  String JS.dquote (doubled v +:+ JS.str JS.dquote).

(** The cell of a value in the delimited text. *)
Definition Cell (v cell : string) : Prop :=
  (needs_quoting v /\ cell = quoted v) \/ (~ needs_quoting v /\ cell = v).

(** The row of a record whose timestamp is a valid time value. *)
Definition csv_row (p : Patient.t) : string :=
  JS.join ","
    [ escapeCSVValue (Patient.id p);
      escapeCSVValue (Patient.name p);
      JS.Number_toString (Patient.age p);
      escapeCSVValue (JS.join ";" (Patient.symptoms p));
      escapeCSVValue (Patient.condition p);
      escapeCSVValue (TriageLevel_str (Patient.triageLevel p));
      escapeCSVValue (JS.toISOString (Patient.timestamp p)) ].

Definition valid_timestamps (w : World) : Prop :=
  forall k p, patients w !! k = Some p -> JS.validTime (Patient.timestamp p) = true.

(** *** Auxiliary notions of the proofs *)

(** [a] may stand before [b] in a sorted array: the comparator does not put
    [b] first. *)
Definition may_precede {A : Type} (cmp : A -> A -> Z) (a b : A) : Prop :=
  ~ cmp b a < 0.

(** A computation that cannot throw and leaves the table and the clock as
    they are (it may draw identifiers). *)
Definition quiet {A : Type} (m : M A) (post : A -> Prop) : Prop :=
  forall w, exists a w',
    m w = (Ok a, w') /\ patients w' = patients w /\ clock w' = clock w /\ post a.

(** The changes a record holds ([existingPatient.statusChanges || []]). *)
Definition held (p : Patient.t) : list StatusChange.t :=
  default [] (Patient.statusChanges p).

(** The entries left out so far are no newer than those held, and nothing
    was left out before 50 were held. *)
Definition holds_back (kept dropped : list StatusChange.t) : Prop :=
  (forall k d, k ∈ kept -> d ∈ dropped -> changeTime d <= changeTime k)
  /\ (dropped <> [] -> (50 <= length kept)%nat).

(** The history is stored, newest first, and within the bound. *)
Definition tidy (p : Patient.t) : Prop :=
  Patient.statusChanges p = Some (held p)
  /\ Sorted newer_change (held p)
  /\ (length (held p) <= 50)%nat.

(** The notes a record holds ([existingPatient.handoverNotes || []]). *)
Definition notes_held (p : Patient.t) : list HandoverNote.t :=
  default [] (Patient.handoverNotes p).

(** ** Sample data *)

Module Sample.

(** A clock that advances one second per reading from 2024-01-15T14:30:45Z,
    and identifiers numbered from 0. *)
Definition start : World :=
  mkWorld ∅
    (fun n => 1705329045000 + 1000 * Z.of_nat n)
    (fun n => "uuid-" +:+ JS.Number_toString (Z.of_nat n))
    "Key already exists in the object store.".

Definition obrien : string := "O" +:+ JS.str JS.dquote +:+ "Brien, J.".

Definition intake : NewPatient.t :=
  {| NewPatient.name := obrien;
     NewPatient.age := 34;
     NewPatient.symptoms := ["fever"; "rash"];
     NewPatient.condition := "High Fever since Monday";
     NewPatient.triageLevel := Urgent;
     NewPatient.status := Treated;
     NewPatient.notes := "ignored";
     NewPatient.lastUpdated := 7;
     NewPatient.patientId := Some "P-17";
     NewPatient.mainComplaint := None;
     NewPatient.medicalHistory := None;
     NewPatient.examinationFindings := None;
     NewPatient.provisionalDiagnosis := None;
     NewPatient.treatmentPlan := None;
     NewPatient.handoverNotes := None;
     NewPatient.statusChanges := None |}.

(** The store after one [addPatient]; the record has the key ["uuid-0"]. *)
Definition registered : World := snd (addPatient intake start).

Definition record : Patient.t :=
  {| Patient.id := "uuid-0";
     Patient.name := obrien;
     Patient.age := 34;
     Patient.symptoms := ["fever"; "rash"];
     Patient.condition := "High Fever since Monday";
     Patient.triageLevel := Urgent;
     Patient.timestamp := 1705329045000;
     Patient.status := Waiting;
     Patient.notes := EmptyString;
     Patient.lastUpdated := 1705329045000;
     Patient.patientId := Some "P-17";
     Patient.mainComplaint := None;
     Patient.medicalHistory := None;
     Patient.examinationFindings := None;
     Patient.provisionalDiagnosis := None;
     Patient.treatmentPlan := None;
     Patient.handoverNotes := None;
     Patient.statusChanges := None |}.

Definition setStatus (s : PatientStatus) : PatientUpdate.t :=
  PatientUpdate.mk None None
    (Changes.mk None None None None None (Some s) None None
                None None None None None None None None).

Definition setNotes (n : string) : PatientUpdate.t :=
  PatientUpdate.mk None None
    (Changes.mk None None None None None None (Some n) None
                None None None None None None None None).

(** The store after notes were written on the record. *)
Definition noted : World :=
  snd (updatePatient "uuid-0" (setNotes "seen by the triage nurse") registered).

(** [{ id: "other", timestamp: 0, name: "X" }]. *)
Definition rename : PatientUpdate.t :=
  PatientUpdate.mk (Some "other") (Some 0) (only_name "X").

(** Sixty updates, the status going back and forth. *)
Definition sixty : list PatientUpdate.t :=
  concat (replicate 30 [setStatus InTreatment; setStatus Waiting]).

Definition note (k : nat) : HandoverNoteInput.t :=
  {| HandoverNoteInput.staffName := "Nurse " +:+ JS.Number_toString (Z.of_nat k);
     HandoverNoteInput.shiftType := outgoing;
     HandoverNoteInput.summary := "stable overnight";
     HandoverNoteInput.criticalUpdates := [];
     HandoverNoteInput.keyObservations := EmptyString;
     HandoverNoteInput.actionItems := ["recheck temperature"];
     HandoverNoteInput.priority := medium |}.

Definition twentyfive : list HandoverNoteInput.t := note <$> seq 0 25.

End Sample.

(** * The rest of the services, and their callers *)

(** ** More of the Dexie table *)

Module Index.

(** The schema of version 1 ([storage.ts], line 15): the primary key [id]
    and the key paths that have an index. *)
Definition schema : list string :=
  ["id"; "name"; "age"; "symptoms"; "condition"; "triageLevel"; "timestamp"].

(** The order of the primary key. *)
Definition key_cmp (a b : string * Patient.t) : Z :=
  match String.compare (fst a) (fst b) with
  | Lt => -1
  | Eq => 0
  | Gt => 1
  end.

(** [db.patients.where(keyPath).equals(value).toArray()]: Dexie rejects the
    query when the schema has no index on the key path; the objects of an
    index that have equal keys come in the order of the primary key. *)
Definition where_equals (keyPath : string) (equal : Patient.t -> bool)
    : M (list Patient.t) :=
  fun w =>
    if bool_decide (keyPath ∈ schema) then
      (Ok (List.filter equal
             (snd <$> JS.Array_sort key_cmp (map_to_list (patients w)))), w)
    else
      (Throw ("KeyPath " +:+ keyPath
              +:+ " on object store patients is not indexed"), w).

(** The sorter of [Collection.sortBy("timestamp")]. *)
Definition by_timestamp (a b : Patient.t) : Z :=
  if Patient.timestamp a <? Patient.timestamp b then -1
  else if Patient.timestamp b <? Patient.timestamp a then 1
  else 0.

(** [collection.sortBy("timestamp")]: the array of the collection, sorted. *)
Definition sortBy_timestamp (collection : M (list Patient.t))
    : M (list Patient.t) :=
  do a <- collection; ret (JS.Array_sort by_timestamp a).

(** [db.patients.count()]. *)
Definition count : M Z := fun w => (Ok (Z.of_nat (size (patients w))), w).

(** [db.patients.clear()]. *)
Definition clear : M unit :=
  fun w => (Ok tt, mkWorld ∅ (clock w) (entropy w) (constraintError w)).

End Index.

(** ** The rest of the storage service *)

(** [getPatientsByTriageLevel]. *)
Definition getPatientsByTriageLevel (triageLevel : TriageLevel)
    : M (list Patient.t) :=
  rethrow "Failed to retrieve patients by triage level: "
    (do patients <-
       Index.sortBy_timestamp
         (Index.where_equals "triageLevel"
            (fun p => bool_decide (Patient.triageLevel p = triageLevel)));
     ret (reverse patients)).

(** [getPatientsByStatus]. *)
Definition getPatientsByStatus (status : PatientStatus) : M (list Patient.t) :=
  rethrow "Failed to retrieve patients by status: "
    (do patients <-
       Index.sortBy_timestamp
         (Index.where_equals "status"
            (fun p => bool_decide (Patient.status p = status)));
     ret (reverse patients)).

(** [getPatientCount]. *)
Definition getPatientCount : M Z :=
  rethrow "Failed to get patient count: " Index.count.

(** [clearAllPatients]. *)
Definition clearAllPatients : M unit :=
  rethrow "Failed to clear patients: " Index.clear.

(** ** The rest of the export service *)

Module ExportStats.
Record t : Type := mk {
  totalPatients : Z;
  criticalCount : Z;
  urgentCount : Z;
  stableCount : Z
}.
End ExportStats.

(** [patients.filter(p => p.triageLevel === level).length]. *)
Definition countLevel (level : TriageLevel) (patients : list Patient.t) : Z :=
  Z.of_nat
    (length (List.filter
               (fun p => bool_decide (Patient.triageLevel p = level)) patients)).

(** [getExportStats]. *)
Definition getExportStats : M ExportStats.t :=
  rethrow "Failed to get export stats: "
    (do patients <- getPatients;
     ret {| ExportStats.totalPatients := Z.of_nat (length patients);
            ExportStats.criticalCount := countLevel Critical patients;
            ExportStats.urgentCount := countLevel Urgent patients;
            ExportStats.stableCount := countLevel Stable patients |}).

(** ** The triage classifier ([src/services/triage.ts]) *)

Module JSText.

(** [WhiteSpace] and [LineTerminator] among the code units below 256: tab,
    line feed, vertical tab, form feed, carriage return, space and the
    no-break space U+00A0. *)
Definition is_space (c : ascii) : bool :=
  let n := nat_of_ascii c in
  (Nat.leb 9 n && Nat.leb n 13) || Nat.eqb n 32 || Nat.eqb n 160.

(** [s.trimStart()]. *)
Fixpoint trimStart (s : string) : string :=
  match s with
  | EmptyString => EmptyString
  | String c s' => if is_space c then trimStart s' else s
  end.

(** [s.trimEnd()]. *)
Fixpoint trimEnd (s : string) : string :=
  match s with
  | EmptyString => EmptyString
  | String c s' =>
      match trimEnd s' with
      | EmptyString => if is_space c then EmptyString else String c EmptyString
      | r => String c r
      end
  end.

(** [s.trim()]. *)
Definition trim (s : string) : string := trimEnd (trimStart s).

(** The value of a code unit as a digit of the radix, if it is one. *)
Definition digit (R : Z) (c : ascii) : option Z :=
  let n := Z.of_nat (nat_of_ascii c) in
  let v :=
    if (48 <=? n) && (n <=? 57) then n - 48
    else if (97 <=? n) && (n <=? 122) then n - 87
    else if (65 <=? n) && (n <=? 90) then n - 55
    else R in
  if v <? R then Some v else None.

(** The integer the longest prefix of digits denotes; [None] when that
    prefix is empty. *)
Fixpoint digits (R : Z) (s : string) (acc : option Z) : option Z :=
  match s with
  | EmptyString => acc
  | String c s' =>
      match digit R c with
      | Some d => digits R s' (Some (R * default 0 acc + d))
      | None => acc
      end
  end.

(** [parseInt(string)], no radix given: leading white space is skipped, a
    sign is read, the prefix [0x] or [0X] selects radix 16, and the longest
    prefix of digits is the value; [None] is [NaN].  The value is the
    mathematical one: the Number is exact below 2^53, and beyond that its
    rounding keeps every comparison with a smaller integer. *)
Definition parseInt (input : string) : option Z :=
  let trimmed := trimStart input in
  let sign :=
    match trimmed with
    | String c _ => if Ascii.eqb c "-" then -1 else 1
    | EmptyString => 1
    end in
  let unsigned :=
    match trimmed with
    | String c r => if Ascii.eqb c "+" || Ascii.eqb c "-" then r else trimmed
    | EmptyString => trimmed
    end in
  let '(R, numeral) :=
    match unsigned with
    | String c (String x r) =>
        if Ascii.eqb c "0" && (Ascii.eqb x "x" || Ascii.eqb x "X")
        then (16, r) else (10, unsigned)
    | _ => (10, unsigned)
    end in
  match digits R numeral None with
  | Some mathInt => Some (sign * mathInt)
  | None => None
  end.

End JSText.

Module Triage.

Definition criticalSymptoms : list string :=
  [ "bleeding heavily"; "unconscious"; "fainting"; "severe pain";
    "difficulty breathing"; "chest pain"; "severe burns"; "head injury";
    "cardiac arrest"; "stroke symptoms"; "severe allergic reaction";
    "major trauma" ].

Definition urgentSymptoms : list string :=
  [ "fever"; "vomiting"; "moderate pain"; "persistent cough"; "diarrhea";
    "dizziness"; "rash"; "swelling"; "dehydration"; "infection signs";
    "breathing issues"; "abdominal pain" ].

Definition criticalConditionKeywords : list string :=
  [ "critical"; "emergency"; "life-threatening"; "severe";
    "urgent care needed"; "immediate attention"; "trauma"; "cardiac";
    "respiratory failure"; "shock"; "hemorrhage"; "fracture" ].

Definition urgentConditionKeywords : list string :=
  [ "urgent"; "priority"; "needs attention"; "concerning"; "worsening";
    "moderate"; "infection"; "pain management"; "follow-up needed";
    "monitoring required" ].

(** [assignTriageLevel]. *)
Definition assignTriageLevel (symptoms : list string) (condition : string)
    : TriageLevel :=
  let normalizedSymptoms :=
    List.map (fun s => JSText.trim (JS.toLowerCase s)) symptoms in
  let normalizedCondition := JSText.trim (JS.toLowerCase condition) in
  let hasCriticalSymptoms :=
    existsb
      (fun criticalSymptom =>
         existsb
           (fun symptom =>
              JS.includes symptom (JS.toLowerCase criticalSymptom)
              || JS.includes (JS.toLowerCase criticalSymptom) symptom)
           normalizedSymptoms)
      criticalSymptoms in
  let hasCriticalCondition :=
    existsb
      (fun keyword => JS.includes normalizedCondition (JS.toLowerCase keyword))
      criticalConditionKeywords in
  if hasCriticalSymptoms || hasCriticalCondition then Critical
  else
    let hasUrgentSymptoms :=
      existsb
        (fun urgentSymptom =>
           existsb
             (fun symptom =>
                JS.includes symptom (JS.toLowerCase urgentSymptom)
                || JS.includes (JS.toLowerCase urgentSymptom) symptom)
             normalizedSymptoms)
        urgentSymptoms in
    let hasUrgentCondition :=
      existsb
        (fun keyword => JS.includes normalizedCondition (JS.toLowerCase keyword))
        urgentConditionKeywords in
    if hasUrgentSymptoms || hasUrgentCondition then Urgent else Stable.

End Triage.

(** [SYMPTOM_OPTIONS] ([src/types/index.ts]), in the three groups its
    comments name. *)
Definition SYMPTOM_OPTIONS_critical : list string :=
  [ "bleeding heavily"; "unconscious"; "fainting"; "severe pain";
    "difficulty breathing"; "chest pain"; "severe burns"; "head injury" ].

Definition SYMPTOM_OPTIONS_urgent : list string :=
  [ "fever"; "vomiting"; "moderate pain"; "persistent cough"; "diarrhea";
    "dizziness"; "rash"; "swelling" ].

Definition SYMPTOM_OPTIONS_stable : list string :=
  [ "mild cough"; "minor cuts"; "bruising"; "mild headache"; "fatigue";
    "sore throat"; "runny nose"; "minor aches" ].

Definition SYMPTOM_OPTIONS : list string :=
  (SYMPTOM_OPTIONS_critical ++ SYMPTOM_OPTIONS_urgent
   ++ SYMPTOM_OPTIONS_stable)%list.

(** ** The callers in the components *)

(** The map [triagePriority] of the dashboard. *)
Definition triagePriority (level : TriageLevel) : Z :=
  match level with
  | Critical => 1
  | Urgent => 2
  | Stable => 3
  end.

(** The comparator of [sortPatientsByPriority]. *)
Definition byPriority (a b : Patient.t) : Z :=
  let priorityDiff :=
    triagePriority (Patient.triageLevel a)
    - triagePriority (Patient.triageLevel b) in
  if negb (priorityDiff =? 0) then priorityDiff
  else Patient.timestamp b - Patient.timestamp a.

(** [sortPatientsByPriority] (the triage dashboard). *)
Definition sortPatientsByPriority (patients : list Patient.t)
    : list Patient.t :=
  JS.Array_sort byPriority patients.

(** What the dashboard keeps of a load: the queue, the error shown and the
    time of the load. *)
Module Dashboard.
Record t : Type := mk {
  patients : list Patient.t;
  error : option string;
  lastUpdated : Z
}.
End Dashboard.

(** [loadPatients]: the listing is read and sorted into the queue; a failure
    sets the error and keeps the queue. *)
Definition loadPatients (state : Dashboard.t) : M Dashboard.t :=
  try_catch
    (do allPatients <- getPatients;
     let sortedPatients := sortPatientsByPriority allPatients in
     do now <- Date_now;
     ret (Dashboard.mk sortedPatients None now))
    (fun message =>
       ret (Dashboard.mk (Dashboard.patients state) (Some message)
              (Dashboard.lastUpdated state))).

(** [getTriageCount]. *)
Definition getTriageCount (patients : list Patient.t) (triageLevel : TriageLevel)
    : Z :=
  Z.of_nat
    (length (List.filter
               (fun patient =>
                  bool_decide (Patient.triageLevel patient = triageLevel))
               patients)).

(** A filter of the dashboard: ['All'] or one value. *)
Inductive Filter (A : Type) : Type :=
| All
| Only (a : A).

Arguments All {A}.
Arguments Only {A} a.

(** The search test of [filteredPatients]. *)
Definition matchesDashboard (searchLower : string) (patient : Patient.t)
    : bool :=
  JS.includes (JS.toLowerCase (Patient.name patient)) searchLower
  || JS.includes (JS.toLowerCase (Patient.condition patient)) searchLower
  || (JS.truthy (Patient.notes patient)
      && JS.includes (JS.toLowerCase (Patient.notes patient)) searchLower)
  || existsb
       (fun symptom => JS.includes (JS.toLowerCase symptom) searchLower)
       (Patient.symptoms patient).

(** [filteredPatients]. *)
Definition filteredPatients (patients : list Patient.t) (searchTerm : string)
    (statusFilter : Filter PatientStatus) (triageFilter : Filter TriageLevel)
    : list Patient.t :=
  let filtered := patients in
  let filtered :=
    if JS.truthy (JSText.trim searchTerm) then
      let searchLower := JS.toLowerCase searchTerm in
      List.filter (matchesDashboard searchLower) filtered
    else filtered in
  let filtered :=
    match statusFilter with
    | All => filtered
    | Only status =>
        List.filter
          (fun patient =>
             String.eqb
               (JS.or_else (PatientStatus_str (Patient.status patient))
                  "Waiting")
               (PatientStatus_str status))
          filtered
    end in
  let filtered :=
    match triageFilter with
    | All => filtered
    | Only level =>
        List.filter
          (fun patient => bool_decide (Patient.triageLevel patient = level))
          filtered
    end in
  filtered.

(** [getRecentStatusChanges] ([src/components/HandoverNotes.tsx]). *)
Definition getRecentStatusChanges (patient : Patient.t)
    : M (list StatusChange.t) :=
  match Patient.statusChanges patient with
  | None => ret []
  | Some statusChanges =>
      do now <- Date_now;
      let twentyFourHoursAgo := now - 24 * 60 * 60 * 1000 in
      ret (JS.Array_slice0 5
             (JS.Array_sort newest_first
                (List.filter
                   (fun change =>
                      twentyFourHoursAgo <? StatusChange.timestamp change)
                   statusChanges)))
  end.

(** The state of the edit modal that [handleAddHandoverNote] writes: the
    patient shown and the error shown. *)
Module Modal.
Record t : Type := mk {
  currentPatient : Patient.t;
  error : option string
}.
End Modal.

(** [handleAddHandoverNote] of the edit modal: the note is added, the
    listing is read again and the patient shown is replaced by the record
    found under its identifier; a failure sets the error. *)
Definition handleAddHandoverNote (state : Modal.t) (note : HandoverNoteInput.t)
    : M Modal.t :=
  let currentPatient := Modal.currentPatient state in
  try_catch
    (do _ <- addHandoverNote (Patient.id currentPatient) note;
     do updatedPatients <- getPatients;
     let updatedPatient :=
       List.find
         (fun p => String.eqb (Patient.id p) (Patient.id currentPatient))
         updatedPatients in
     match updatedPatient with
     | Some p => ret (Modal.mk p (Modal.error state))
     | None => ret state
     end)
    (fun message => ret (Modal.mk currentPatient (Some message))).

(** ** The admission form ([PatientForm]) *)

(** The validation errors; [None] is a key the object lacks. *)
Module FormErrors.
Record t : Type := mk {
  name : option string;
  age : option string;
  patientId : option string;
  mainComplaint : option string;
  symptoms : option string
}.

Definition empty : t := mk None None None None None.

Definition key {A : Type} (k : string) (v : option A) : list string :=
  match v with
  | Some _ => [k]
  | None => []
  end.

(** [Object.keys(errors)]. *)
Definition keys (errors : t) : list string :=
  (key "name" (name errors) ++ key "age" (age errors)
   ++ key "patientId" (patientId errors)
   ++ key "mainComplaint" (mainComplaint errors)
   ++ key "symptoms" (symptoms errors))%list.
End FormErrors.

(** The state of the form. *)
Module PatientForm.
Record t : Type := mk {
  name : string;
  age : string;
  patientId : string;
  mainComplaint : string;
  selectedSymptoms : list string;
  medicalHistory : string;
  examinationFindings : string;
  provisionalDiagnosis : string;
  treatmentPlan : string;
  condition : string;
  isSubmitting : bool;
  patientLookupResult : string;
  errors : FormErrors.t
}.

Definition setErrors (errors : FormErrors.t) (form : t) : t :=
  mk (name form) (age form) (patientId form) (mainComplaint form)
    (selectedSymptoms form) (medicalHistory form) (examinationFindings form)
    (provisionalDiagnosis form) (treatmentPlan form) (condition form)
    (isSubmitting form) (patientLookupResult form) errors.

Definition setIsSubmitting (isSubmitting : bool) (form : t) : t :=
  mk (name form) (age form) (patientId form) (mainComplaint form)
    (selectedSymptoms form) (medicalHistory form) (examinationFindings form)
    (provisionalDiagnosis form) (treatmentPlan form) (condition form)
    isSubmitting (patientLookupResult form) (errors form).
End PatientForm.

(** [validateForm]. *)
Definition validateForm (form : PatientForm.t) : FormErrors.t :=
  let name := PatientForm.name form in
  let age := PatientForm.age form in
  let patientId := PatientForm.patientId form in
  let mainComplaint := PatientForm.mainComplaint form in
  let ageNum := JSText.parseInt age in
  {| FormErrors.name :=
       if negb (JS.truthy (JSText.trim name))
       then Some "Patient name is required" else None;
     FormErrors.age :=
       if negb (JS.truthy (JSText.trim age))
       then Some "Patient age is required"
       else
         match ageNum with
         | None => Some "Please enter a valid age (0-150)"
         | Some n =>
             if (n <? 0) || (150 <? n)
             then Some "Please enter a valid age (0-150)" else None
         end;
     FormErrors.patientId :=
       if JS.truthy (JSText.trim patientId)
          && (String.length (JSText.trim patientId) <? 3)%nat
       then Some "Patient ID must be at least 3 characters" else None;
     FormErrors.mainComplaint :=
       if negb (JS.truthy (JSText.trim mainComplaint))
       then Some "Main complaint is required" else None;
     FormErrors.symptoms :=
       if (length (PatientForm.selectedSymptoms form) =? 0)%nat
       then Some "Please select at least one symptom" else None |}.

(** [clearForm]. *)
Definition clearForm (form : PatientForm.t) : PatientForm.t :=
  {| PatientForm.name := EmptyString;
     PatientForm.age := EmptyString;
     PatientForm.patientId := EmptyString;
     PatientForm.mainComplaint := EmptyString;
     PatientForm.selectedSymptoms := [];
     PatientForm.medicalHistory := EmptyString;
     PatientForm.examinationFindings := EmptyString;
     PatientForm.provisionalDiagnosis := EmptyString;
     PatientForm.treatmentPlan := EmptyString;
     PatientForm.condition := EmptyString;
     PatientForm.isSubmitting := PatientForm.isSubmitting form;
     PatientForm.patientLookupResult := EmptyString;
     PatientForm.errors := FormErrors.empty |}.

(** [s || undefined]. *)
Definition or_undefined (s : string) : option string :=
  if JS.truthy s then Some s else None.

(** [handleSubmit]: a form with validation errors shows them and nothing
    else happens; otherwise the level is assigned and the patient added,
    and the form is cleared; a failure of the service is logged and the
    form is kept.  [ageNum] is a number where it is used: validation has
    refused [NaN].  The callback of the parent is left out. *)
Definition handleSubmit (form : PatientForm.t) : M PatientForm.t :=
  let validationErrors := validateForm form in
  if (0 <? length (FormErrors.keys validationErrors))%nat then
    ret (PatientForm.setErrors validationErrors form)
  else
    try_catch
      (let triageLevel :=
         Triage.assignTriageLevel (PatientForm.selectedSymptoms form)
           (PatientForm.condition form) in
       do lastUpdated <- Date_now;
       do _ <- addPatient
         {| NewPatient.name := JSText.trim (PatientForm.name form);
            NewPatient.age := default 0 (JSText.parseInt (PatientForm.age form));
            NewPatient.symptoms := PatientForm.selectedSymptoms form;
            NewPatient.condition := JSText.trim (PatientForm.condition form);
            NewPatient.triageLevel := triageLevel;
            NewPatient.status := Waiting;
            NewPatient.notes := EmptyString;
            NewPatient.lastUpdated := lastUpdated;
            NewPatient.patientId :=
              or_undefined (JSText.trim (PatientForm.patientId form));
            NewPatient.mainComplaint :=
              Some (JSText.trim (PatientForm.mainComplaint form));
            NewPatient.medicalHistory :=
              or_undefined (JSText.trim (PatientForm.medicalHistory form));
            NewPatient.examinationFindings :=
              or_undefined (JSText.trim (PatientForm.examinationFindings form));
            NewPatient.provisionalDiagnosis :=
              or_undefined (JSText.trim (PatientForm.provisionalDiagnosis form));
            NewPatient.treatmentPlan :=
              or_undefined (JSText.trim (PatientForm.treatmentPlan form));
            NewPatient.handoverNotes := None;
            NewPatient.statusChanges := None |};
       ret (PatientForm.setIsSubmitting false (clearForm form)))
      (fun _ => ret (PatientForm.setIsSubmitting false form)).

(** ** Histories of calls *)

(** The calls of the storage service that write. *)
Inductive Call : Type :=
| call_addPatient (patient : NewPatient.t)
| call_updatePatient (id : string) (updates : PatientUpdate.t)
| call_addHandoverNote (patientId : string) (note : HandoverNoteInput.t)
| call_deletePatient (id : string)
| call_clearAllPatients.

Definition perform (c : Call) (w : World) : World :=
  match c with
  | call_addPatient patient => snd (addPatient patient w)
  | call_updatePatient id updates => snd (updatePatient id updates w)
  | call_addHandoverNote patientId note => snd (addHandoverNote patientId note w)
  | call_deletePatient id => snd (deletePatient id w)
  | call_clearAllPatients => snd (clearAllPatients w)
  end.

(** The state after a history of calls, failed calls included. *)
Definition replay (history : list Call) (w : World) : World :=
  foldl (fun w c => perform c w) w history.

(** Every object is stored under its own [id] (the table has an inbound
    primary key). *)
Definition keyed (w : World) : Prop :=
  forall k p, patients w !! k = Some p -> Patient.id p = k.

(** The order of strings as keys. *)
Definition key_le (a b : string) : Prop := String.compare a b <> Gt.

(** The order of the index on [timestamp], as a relation: older first, the
    smaller identifier first among records of one time. *)
Definition index_order (p q : Patient.t) : Prop :=
  Patient.timestamp p < Patient.timestamp q
  \/ (Patient.timestamp p = Patient.timestamp q
      /\ key_le (Patient.id p) (Patient.id q)).

(** Every reading the clock will give is a valid time value. *)
Definition valid_clock (w : World) : Prop :=
  forall n, JS.validTime (clock w n) = true.

(** ** Vocabulary of the classifier *)

(** A symptom as the classifier compares it: [s.toLowerCase().trim()]. *)
Definition normalized (s : string) : string := JSText.trim (JS.toLowerCase s).

(** The symptom entered, without the white space around it, and the known
    symptom name: one occurs in the other, case set aside. *)
Definition related (symptom known : string) : Prop :=
  exists entry,
    stripped symptom entry
    /\ (ci_contains entry known \/ ci_contains known entry).

(** An entered symptom is related to a known one, or the condition notes
    contain a keyword, case set aside. *)
Definition indicated (knownSymptoms keywords symptoms : list string)
    (condition : string) : Prop :=
  (exists s k, In s symptoms /\ In k knownSymptoms /\ related s k)
  \/ (exists k, In k keywords /\ ci_contains condition k).

(** The more urgent of two levels. *)
Definition most_urgent (a b : TriageLevel) : TriageLevel :=
  if triagePriority a <=? triagePriority b then a else b.

(** A keyword that starts and ends with a character that is no white
    space, in lower case. *)
Definition starts_solid (k : string) : bool :=
  match k with
  | EmptyString => false
  | String c _ => negb (JSText.is_space c)
  end.

Fixpoint ends_solid (k : string) : bool :=
  match k with
  | EmptyString => false
  | String c EmptyString => negb (JSText.is_space c)
  | String _ k' => ends_solid k'
  end.

Definition plain_keyword (k : string) : bool :=
  starts_solid k && ends_solid k && String.eqb (JS.toLowerCase k) k.

(** The order of the dashboard queue: by priority, then newest first. *)
Definition queue_order (a b : Patient.t) : Prop :=
  triagePriority (Patient.triageLevel a) < triagePriority (Patient.triageLevel b)
  \/ (Patient.triageLevel a = Patient.triageLevel b
      /\ Patient.timestamp b <= Patient.timestamp a).

(** What the form asks of its fields: a name and a main complaint that are
    not blank, an age that [parseInt] reads as an integer from 0 to 150, a
    patient number that is blank or has three characters or more between
    the white space around it, a symptom selected. *)
Definition acceptable (form : PatientForm.t) : Prop :=
  ~ blank (PatientForm.name form)
  /\ (exists n, JSText.parseInt (PatientForm.age form) = Some n
                /\ 0 <= n <= 150)
  /\ (blank (PatientForm.patientId form)
      \/ exists number,
           stripped (PatientForm.patientId form) number
           /\ (3 <= String.length number)%nat)
  /\ ~ blank (PatientForm.mainComplaint form)
  /\ PatientForm.selectedSymptoms form <> [].

(** The value passes the filter. *)
Definition passes {A : Type} (f : Filter A) (a : A) : Prop :=
  match f with
  | All => True
  | Only b => a = b
  end.

(** The term occurs in the name, the condition, the notes or a symptom,
    case set aside. *)
Definition MatchesDashboard (term : string) (p : Patient.t) : Prop :=
  Matches term p
  \/ exists symptom, In symptom (Patient.symptoms p) /\ ci_contains symptom term.

(** A computation keeps a property of the state, whatever it returns. *)
Definition preserves {A : Type} (I : World -> Prop) (m : M A) : Prop :=
  forall w r w', I w -> m w = (r, w') -> I w'.

(** The table is keyed by [id], its timestamps are valid time values, and
    so is every reading the clock has left to give. *)
Definition sound (w : World) : Prop :=
  keyed w /\ valid_timestamps w /\ valid_clock w.

(** The objects of the table in the order of the primary key. *)
Definition in_key_order (w : World) : list Patient.t :=
  snd <$> JS.Array_sort Index.key_cmp (map_to_list (patients w)).

(** The two payloads agree on every key but [lastUpdated] and
    [statusChanges]. *)
Definition same_allowed (a b : Changes.t) : Prop :=
  Changes.name a = Changes.name b
  /\ Changes.age a = Changes.age b
  /\ Changes.symptoms a = Changes.symptoms b
  /\ Changes.condition a = Changes.condition b
  /\ Changes.triageLevel a = Changes.triageLevel b
  /\ Changes.status a = Changes.status b
  /\ Changes.notes a = Changes.notes b
  /\ Changes.patientId a = Changes.patientId b
  /\ Changes.mainComplaint a = Changes.mainComplaint b
  /\ Changes.medicalHistory a = Changes.medicalHistory b
  /\ Changes.examinationFindings a = Changes.examinationFindings b
  /\ Changes.provisionalDiagnosis a = Changes.provisionalDiagnosis b
  /\ Changes.treatmentPlan a = Changes.treatmentPlan b
  /\ Changes.handoverNotes a = Changes.handoverNotes b.

(** The test of one pair of lists, as [assignTriageLevel] makes it twice. *)
Definition indicator (knownSymptoms keywords symptoms : list string)
    (condition : string) : bool :=
  existsb
    (fun known =>
       existsb
         (fun symptom =>
            JS.includes symptom (JS.toLowerCase known)
            || JS.includes (JS.toLowerCase known) symptom)
         (List.map normalized symptoms))
    knownSymptoms
  || existsb
       (fun keyword => JS.includes (normalized condition) (JS.toLowerCase keyword))
       keywords.

(** Membership in a list of option names, as a test. *)
Definition listed (l : list string) (x : string) : bool :=
  existsb (String.eqb x) l.

(** ** More sample data *)

Module Ward.

(** A store that is empty, with a clock that gives valid time values for
    ever: it advances a second per reading for a day, then stands. *)
Definition opening : World :=
  mkWorld ∅
    (fun n => 1705329045000 + Z.min (1000 * Z.of_nat n) 86400000)
    (fun n => "id-" +:+ JS.Number_toString (Z.of_nat n))
    "A mutation operation in the transaction failed because a constraint was not satisfied.".

Definition intake (name : string) (level : TriageLevel) : NewPatient.t :=
  {| NewPatient.name := name;
     NewPatient.age := 40;
     NewPatient.symptoms := ["fever"];
     NewPatient.condition := "stable on arrival";
     NewPatient.triageLevel := level;
     NewPatient.status := Waiting;
     NewPatient.notes := EmptyString;
     NewPatient.lastUpdated := 0;
     NewPatient.patientId := None;
     NewPatient.mainComplaint := None;
     NewPatient.medicalHistory := None;
     NewPatient.examinationFindings := None;
     NewPatient.provisionalDiagnosis := None;
     NewPatient.treatmentPlan := None;
     NewPatient.handoverNotes := None;
     NewPatient.statusChanges := None |}.

(** Three admissions, an update, a note, a deletion of an absent record. *)
Definition morning : list Call :=
  [ call_addPatient (intake "Amal" Stable);
    call_addPatient (intake "Basil" Critical);
    call_addPatient (intake "Dana" Urgent);
    call_updatePatient "id-1" (Sample.setStatus InTreatment);
    call_addHandoverNote "id-0" (Sample.note 1);
    call_deletePatient "id-9" ].

Definition noon : World := replay morning opening.

(** A store with a record whose timestamp is beyond the range of [Date]
    (such a record cannot come from [addPatient]). *)
Definition corrupt : World :=
  mkWorld
    {[ "uuid-0" :=
         Table.modify Changes.empty
           (Patient.mk "uuid-0" "X" 1 [] EmptyString Stable 8640000000000001
              Waiting EmptyString 0 None None None None None None None None) ]}
    (clock opening) (entropy opening) (constraintError opening).

(** A payload that sets the status, and the same payload with the reserved
    keys filled in. *)
Definition plain : PatientUpdate.t := Sample.setStatus InTreatment.

Definition forged : PatientUpdate.t :=
  PatientUpdate.mk (Some "id-0") (Some 1)
    (Changes.mk None None None None None (Some InTreatment) None (Some 2)
                None None None None None None None (Some [])).

(** A store in which the next identifier drawn is already a key. *)
Definition colliding : World :=
  mkWorld (patients noon) (clock noon) (fun _ => "id-1")
    (constraintError noon).

(** A space followed by a no-break space (U+00A0). *)
Definition nbsp_entry : string :=
  String " " (String (ascii_of_nat 160) EmptyString).

(** A form filled in for an arrival, and the same form with an age out of
    range. *)
Definition arrival : PatientForm.t :=
  {| PatientForm.name := " Amal Haddad ";
     PatientForm.age := "42";
     PatientForm.patientId := EmptyString;
     PatientForm.mainComplaint := "chest pain since the morning";
     PatientForm.selectedSymptoms := ["chest pain"; "dizziness"];
     PatientForm.medicalHistory := EmptyString;
     PatientForm.examinationFindings := EmptyString;
     PatientForm.provisionalDiagnosis := EmptyString;
     PatientForm.treatmentPlan := EmptyString;
     PatientForm.condition := " worsening ";
     PatientForm.isSubmitting := false;
     PatientForm.patientLookupResult := EmptyString;
     PatientForm.errors := FormErrors.empty |}.

Definition overage : PatientForm.t :=
  PatientForm.mk (PatientForm.name arrival) "200" EmptyString
    (PatientForm.mainComplaint arrival) (PatientForm.selectedSymptoms arrival)
    EmptyString EmptyString EmptyString EmptyString
    (PatientForm.condition arrival) false EmptyString FormErrors.empty.

(** The edit modal opened at noon on the first admission, no error shown. *)
Definition shown : Modal.t :=
  Modal.mk (default Sample.record (patients noon !! "id-0")) None.

End Ward.

(** * Properties *)

(** ** The built-ins *)

Example toISOString_2024 :
  JS.toISOString 1705329045123 = "2024-01-15T14:30:45.123Z".
Proof. vm_compute. reflexivity. Qed.

Example toISOString_epoch : JS.toISOString 0 = "1970-01-01T00:00:00.000Z".
Proof. vm_compute. reflexivity. Qed.

Example toISOString_before_epoch :
  JS.toISOString (-1) = "1969-12-31T23:59:59.999Z".
Proof. vm_compute. reflexivity. Qed.

Example toISOString_leap_day :
  JS.toISOString 951782400000 = "2000-02-29T00:00:00.000Z".
Proof. vm_compute. reflexivity. Qed.

Example Number_toString_150 : JS.Number_toString 150 = "150".
Proof. vm_compute. reflexivity. Qed.

Example toLowerCase_mixed : JS.toLowerCase "High FEVER" = "high fever".
Proof. vm_compute. reflexivity. Qed.

(** The capital E with acute accent (U+00C9) has its small letter (U+00E9);
    the multiplication sign (U+00D7) and the sharp s (U+00DF) stay. *)
Example toLowerCase_latin1 :
  JS.toLowerCase (String (ascii_of_nat 201) "MILE")
  = String (ascii_of_nat 233) "mile"
  /\ JS.toLowerCase (String (ascii_of_nat 215) (String (ascii_of_nat 223) "Z"))
     = String (ascii_of_nat 215) (String (ascii_of_nat 223) "z").
Proof. vm_compute. split; reflexivity. Qed.

(** The no-break space (U+00A0) is trimmed like the space; the next line
    character (U+0085) is not. *)
Example trim_no_break_space :
  JSText.trim (String (ascii_of_nat 160) (" a " +:+ String (ascii_of_nat 160) " "))
  = "a"
  /\ JSText.trim (String (ascii_of_nat 133) "a") = String (ascii_of_nat 133) "a".
Proof. vm_compute. split; reflexivity. Qed.

Example no_break_space_symptom :
  Triage.assignTriageLevel [String (ascii_of_nat 160) EmptyString] EmptyString
  = Critical.
Proof. vm_compute. reflexivity. Qed.

Lemma startsWith_spec (s t : string) :
  JS.startsWith s t = true <-> exists post, s = t +:+ post.
Proof.
  revert s. induction t as [|b t IH]; intros s; simpl.
  - split; [intros _; exists s; reflexivity | intros _; destruct s; reflexivity].
  - destruct s as [|a s].
    + split; [discriminate | intros [post H]; discriminate].
    + destruct (Ascii.eqb_spec a b) as [->|Hne].
      * rewrite IH. split; intros [post H]; exists post.
        -- simpl. now rewrite H.
        -- simpl in H. now injection H.
      * split; [discriminate | intros [post H]].
        simpl in H. injection H as H1 _. contradiction.
Qed.

Lemma includes_spec (s t : string) :
  JS.includes s t = true <-> substring_of t s.
Proof.
  unfold substring_of. induction s as [|a s IH]; simpl.
  - rewrite orb_false_r, startsWith_spec. split.
    + intros [post H]. exists EmptyString, post. exact H.
    + intros [pre [post H]]. destruct pre; [exists post; exact H | discriminate].
  - rewrite orb_true_iff, startsWith_spec, IH. split.
    + intros [[post H] | [pre [post H]]].
      * exists EmptyString, post. exact H.
      * exists (String a pre), post. simpl. now rewrite H.
    + intros [pre [post H]]. destruct pre as [|b pre].
      * left. exists post. exact H.
      * right. exists pre, post. simpl in H. now injection H.
Qed.

(** The empty string occurs in every string. *)
Lemma includes_empty (s : string) : JS.includes s EmptyString = true.
Proof. destruct s; reflexivity. Qed.

(** ** Letters and white space: the built-ins against their meaning *)

Lemma append_assoc (a b c : string) : (a +:+ b) +:+ c = a +:+ (b +:+ c).
Proof.
  induction a as [|x a IH]; [reflexivity|].
  change (String x ((a +:+ b) +:+ c) = String x (a +:+ (b +:+ c))).
  now f_equal.
Qed.

Lemma append_empty (a : string) : a +:+ EmptyString = a.
Proof.
  induction a as [|x a IH]; [reflexivity|].
  change (String x (a +:+ EmptyString) = String x a). now f_equal.
Qed.

Lemma empty_append (s : string) : EmptyString +:+ s = s.
Proof. reflexivity. Qed.

Lemma append_cons (c : ascii) (a b : string) :
  String c a +:+ b = String c (a +:+ b).
Proof. reflexivity. Qed.

Lemma append_is_empty (a b : string) :
  a +:+ b = EmptyString -> a = EmptyString /\ b = EmptyString.
Proof. destruct a; simpl; [now split | discriminate]. Qed.

Lemma code_inj (a b : ascii) : nat_of_ascii a = nat_of_ascii b -> a = b.
Proof.
  intros H. rewrite <- (ascii_nat_embedding a), <- (ascii_nat_embedding b).
  now rewrite H.
Qed.

Lemma lower_char_capital (c : ascii) :
  capital c -> nat_of_ascii (JS.lower_char c) = (nat_of_ascii c + 32)%nat.
Proof.
  unfold capital, JS.lower_char. intros Hc.
  destruct (Nat.leb_spec 65 (nat_of_ascii c)),
    (Nat.leb_spec (nat_of_ascii c) 90),
    (Nat.leb_spec 192 (nat_of_ascii c)),
    (Nat.leb_spec (nat_of_ascii c) 222),
    (Nat.eqb_spec (nat_of_ascii c) 215); simpl; try lia;
    apply nat_ascii_embedding; lia.
Qed.

Lemma lower_char_other (c : ascii) : ~ capital c -> JS.lower_char c = c.
Proof.
  unfold capital, JS.lower_char. intros Hc.
  destruct (Nat.leb_spec 65 (nat_of_ascii c)),
    (Nat.leb_spec (nat_of_ascii c) 90),
    (Nat.leb_spec 192 (nat_of_ascii c)),
    (Nat.leb_spec (nat_of_ascii c) 222),
    (Nat.eqb_spec (nat_of_ascii c) 215); simpl; try reflexivity;
    exfalso; apply Hc; lia.
Qed.

Lemma capital_or_not (c : ascii) : capital c \/ ~ capital c.
Proof. unfold capital. lia. Qed.

(** Two characters have the same lower case exactly when they are the same
    letter. *)
Lemma lower_char_same (a b : ascii) :
  JS.lower_char a = JS.lower_char b <-> same_letter a b.
Proof.
  unfold same_letter, small_of. split.
  - intros H. apply (f_equal nat_of_ascii) in H.
    destruct (capital_or_not a) as [Ha|Ha], (capital_or_not b) as [Hb|Hb].
    + rewrite (lower_char_capital a Ha), (lower_char_capital b Hb) in H.
      left. apply code_inj. lia.
    + rewrite (lower_char_capital a Ha), (lower_char_other b Hb) in H.
      right. left. split; [exact Ha | lia].
    + rewrite (lower_char_other a Ha), (lower_char_capital b Hb) in H.
      right. right. split; [exact Hb | lia].
    + rewrite (lower_char_other a Ha), (lower_char_other b Hb) in H.
      left. now apply code_inj.
  - intros [->|[[Ha Hab]|[Hb Hba]]]; [reflexivity| |]; apply code_inj.
    + rewrite (lower_char_capital a Ha), lower_char_other; [lia|].
      unfold capital in *. lia.
    + rewrite (lower_char_capital b Hb), lower_char_other; [lia|].
      unfold capital in *. lia.
Qed.

Lemma toLowerCase_ci_equal (s t : string) :
  JS.toLowerCase s = JS.toLowerCase t <-> ci_equal s t.
Proof.
  split.
  - revert t. induction s as [|a s IH]; intros [|b t] H; simpl in H;
      try discriminate; [constructor|].
    injection H as Hab Hst. constructor; [now apply lower_char_same | auto].
  - induction 1 as [|a b s t Hab _ IH]; [reflexivity|]. simpl.
    apply lower_char_same in Hab. now rewrite Hab, IH.
Qed.

Lemma toLowerCase_append (a b : string) :
  JS.toLowerCase (a +:+ b) = JS.toLowerCase a +:+ JS.toLowerCase b.
Proof.
  induction a as [|x a IH]; [reflexivity|].
  rewrite append_cons. cbn [JS.toLowerCase]. now rewrite append_cons, IH.
Qed.

Lemma toLowerCase_split (s x y : string) :
  JS.toLowerCase s = x +:+ y ->
  exists a b, s = a +:+ b /\ JS.toLowerCase a = x /\ JS.toLowerCase b = y.
Proof.
  revert s. induction x as [|c x IH]; intros s H.
  - exists EmptyString, s. now split.
  - destruct s as [|d s]; [discriminate|].
    rewrite append_cons in H. cbn [JS.toLowerCase] in H. injection H as Hc H.
    destruct (IH s H) as (a & b & -> & Ha & Hb).
    exists (String d a), b. rewrite append_cons. cbn [JS.toLowerCase].
    now rewrite Hc, Ha.
Qed.

(** The test the services make, both sides in lower case, holds exactly
    when a part of the text is the term, case set aside. *)
Lemma includes_ci_contains (s term : string) :
  JS.includes (JS.toLowerCase s) (JS.toLowerCase term) = true
  <-> ci_contains s term.
Proof.
  rewrite includes_spec. unfold substring_of, ci_contains. split.
  - intros (x & z & H).
    apply toLowerCase_split in H as (pre & rest & -> & _ & H).
    apply toLowerCase_split in H as (part & post & -> & Hpart & _).
    exists pre, part, post. split; [reflexivity|].
    now apply toLowerCase_ci_equal.
  - intros (pre & part & post & -> & Hpart).
    apply toLowerCase_ci_equal in Hpart.
    exists (JS.toLowerCase pre), (JS.toLowerCase post).
    now rewrite !toLowerCase_append, Hpart.
Qed.

Lemma is_space_white (c : ascii) : JSText.is_space c = true <-> white c.
Proof.
  unfold JSText.is_space, white.
  rewrite !orb_true_iff, andb_true_iff, !Nat.leb_le, !Nat.eqb_eq. simpl. lia.
Qed.

Lemma is_space_solid (c : ascii) : JSText.is_space c = false <-> ~ white c.
Proof.
  rewrite <- is_space_white. destruct (JSText.is_space c); split; congruence.
Qed.

Lemma blank_empty : blank EmptyString.
Proof. intros c []. Qed.

Lemma blank_cons (c : ascii) (s : string) :
  blank (String c s) <-> white c /\ blank s.
Proof.
  unfold blank. simpl. split.
  - intros H. split; [apply H; now left | intros d Hd; apply H; now right].
  - intros [Hc Hs] d [<-|Hd]; auto.
Qed.

Lemma blank_append (a b : string) : blank (a +:+ b) <-> blank a /\ blank b.
Proof.
  induction a as [|c a IH].
  - rewrite empty_append.
    split; [intros H; split; [apply blank_empty | exact H] | now intros [_ H]].
  - rewrite append_cons, !blank_cons, IH. tauto.
Qed.

Lemma trimStart_blank (s : string) : blank s -> JSText.trimStart s = EmptyString.
Proof.
  induction s as [|c s IH]; [reflexivity|]. intros [Hc Hs]%blank_cons.
  cbn [JSText.trimStart]. apply is_space_white in Hc. rewrite Hc. auto.
Qed.

Lemma trimStart_append (pre r : string) :
  blank pre -> JSText.trimStart (pre +:+ r) = JSText.trimStart r.
Proof.
  induction pre as [|c pre IH]; [reflexivity|]. intros [Hc Hpre]%blank_cons.
  rewrite append_cons. cbn [JSText.trimStart].
  apply is_space_white in Hc. rewrite Hc. auto.
Qed.

Lemma trimStart_split (s : string) :
  exists pre, s = pre +:+ JSText.trimStart s /\ blank pre.
Proof.
  induction s as [|c s (pre & IH & Hpre)].
  - exists EmptyString. split; [reflexivity | apply blank_empty].
  - cbn [JSText.trimStart]. destruct (JSText.is_space c) eqn:Hc.
    + exists (String c pre). rewrite append_cons, <- IH.
      split; [reflexivity|].
      apply blank_cons. split; [now apply is_space_white | exact Hpre].
    + exists EmptyString. split; [reflexivity | apply blank_empty].
Qed.

Lemma trimStart_head (s : string) (c : ascii) (r : string) :
  JSText.trimStart s = String c r -> ~ white c.
Proof.
  induction s as [|a s IH]; cbn [JSText.trimStart]; [discriminate|].
  destruct (JSText.is_space a) eqn:E; [exact IH|].
  intros [= <- _]. now apply is_space_solid.
Qed.

Lemma trimEnd_blank (s : string) : blank s -> JSText.trimEnd s = EmptyString.
Proof.
  induction s as [|c s IH]; [reflexivity|]. intros [Hc Hs]%blank_cons.
  cbn [JSText.trimEnd]. rewrite (IH Hs). apply is_space_white in Hc.
  now rewrite Hc.
Qed.

Lemma trimEnd_append (t post : string) :
  blank post -> JSText.trimEnd (t +:+ post) = JSText.trimEnd t.
Proof.
  intros Hpost. induction t as [|c t IH].
  - rewrite empty_append. now apply trimEnd_blank.
  - rewrite append_cons. cbn [JSText.trimEnd]. now rewrite IH.
Qed.

Lemma trimEnd_split (s : string) :
  exists post, s = JSText.trimEnd s +:+ post /\ blank post.
Proof.
  induction s as [|c s (post & IH & Hpost)].
  - exists EmptyString. split; [reflexivity | apply blank_empty].
  - cbn [JSText.trimEnd]. destruct (JSText.trimEnd s) as [|b r] eqn:E.
    + rewrite empty_append in IH. subst post.
      destruct (JSText.is_space c) eqn:Hc.
      * exists (String c s). split; [reflexivity|].
        apply blank_cons. split; [now apply is_space_white | exact Hpost].
      * exists s. now split.
    + exists post. rewrite append_cons. split; [|exact Hpost]. f_equal. exact IH.
Qed.

Lemma trimEnd_last (s r : string) (c : ascii) :
  JSText.trimEnd s = r +:+ String c EmptyString -> ~ white c.
Proof.
  revert r. induction s as [|a s IH]; intros r; cbn [JSText.trimEnd].
  - destruct r; discriminate.
  - destruct (JSText.trimEnd s) as [|b q] eqn:E.
    + destruct (JSText.is_space a) eqn:Ha; [destruct r; discriminate|].
      destruct r as [|x r].
      * rewrite empty_append. intros [= <-]. now apply is_space_solid.
      * rewrite append_cons. intros [= _ H]. destruct r; discriminate.
    + destruct r as [|x r]; [rewrite empty_append; discriminate|].
      rewrite append_cons. intros [= _ H]. exact (IH r H).
Qed.

Lemma trimEnd_head (c : ascii) (r : string) :
  ~ white c -> exists r', JSText.trimEnd (String c r) = String c r'.
Proof.
  intros Hc%is_space_solid. cbn [JSText.trimEnd].
  destruct (JSText.trimEnd r); [rewrite Hc|]; eauto.
Qed.

Lemma trimEnd_solid_end (t : string) :
  (forall r c, t = r +:+ String c EmptyString -> ~ white c) ->
  JSText.trimEnd t = t.
Proof.
  induction t as [|a t IH]; intros Hend; [reflexivity|].
  cbn [JSText.trimEnd]. destruct t as [|b t].
  - cbn [JSText.trimEnd]. assert (~ white a) as Ha%is_space_solid
      by exact (Hend EmptyString a eq_refl).
    now rewrite Ha.
  - rewrite IH; [reflexivity|].
    intros r c H. apply (Hend (String a r) c). rewrite append_cons.
    now rewrite H.
Qed.

(** [trim] gives the string stripped of the white space around it, and
    nothing else is. *)
Lemma trim_stripped (s : string) : stripped s (JSText.trim s).
Proof.
  unfold stripped, JSText.trim.
  destruct (trimStart_split s) as (pre & Hs & Hpre).
  destruct (trimEnd_split (JSText.trimStart s)) as (post & Ht & Hpost).
  exists pre, post. split; [now rewrite <- Ht|].
  split; [exact Hpre|]. split; [exact Hpost|]. split.
  - intros c r H. destruct (JSText.trimStart s) as [|c0 r0] eqn:E;
      [discriminate|].
    pose proof (trimStart_head s c0 r0 E) as Hc0.
    destruct (trimEnd_head c0 r0 Hc0) as (r' & Hr'). rewrite Hr' in H.
    now injection H as <- _.
  - intros r c H. exact (trimEnd_last _ r c H).
Qed.

Lemma stripped_trim (s t : string) : stripped s t -> t = JSText.trim s.
Proof.
  intros (pre & post & -> & Hpre & Hpost & Hhead & Hlast).
  unfold JSText.trim. rewrite (trimStart_append pre _ Hpre).
  destruct t as [|c r].
  - rewrite empty_append. now rewrite (trimStart_blank post Hpost).
  - assert (JSText.is_space c = false) as Hc
      by (apply is_space_solid; exact (Hhead c r eq_refl)).
    rewrite append_cons. cbn [JSText.trimStart]. rewrite Hc.
    rewrite <- append_cons, (trimEnd_append _ post Hpost). symmetry.
    now apply trimEnd_solid_end.
Qed.

Lemma trim_blank (s : string) : JSText.trim s = EmptyString <-> blank s.
Proof.
  split.
  - intros H. destruct (trim_stripped s) as (pre & post & Hs & Hpre & Hpost & _).
    rewrite H in Hs. rewrite Hs, empty_append. apply blank_append. now split.
  - intros Hs. symmetry. apply stripped_trim.
    exists s, EmptyString. rewrite append_empty.
    split; [reflexivity|]. split; [exact Hs|]. split; [apply blank_empty|].
    split; [discriminate|]. intros r c H. destruct r; discriminate.
Qed.

Lemma is_space_lower (c : ascii) :
  JSText.is_space (JS.lower_char c) = JSText.is_space c.
Proof. destruct c as [[] [] [] [] [] [] [] []]; reflexivity. Qed.

Lemma toLowerCase_trimStart (s : string) :
  JS.toLowerCase (JSText.trimStart s) = JSText.trimStart (JS.toLowerCase s).
Proof.
  induction s as [|c s IH]; [reflexivity|].
  cbn [JSText.trimStart JS.toLowerCase]. rewrite is_space_lower.
  destruct (JSText.is_space c); [exact IH | reflexivity].
Qed.

Lemma toLowerCase_trimEnd (s : string) :
  JS.toLowerCase (JSText.trimEnd s) = JSText.trimEnd (JS.toLowerCase s).
Proof.
  induction s as [|c s IH]; [reflexivity|].
  cbn [JSText.trimEnd JS.toLowerCase]. rewrite <- IH, is_space_lower.
  destruct (JSText.trimEnd s); cbn [JS.toLowerCase];
    [destruct (JSText.is_space c)|]; reflexivity.
Qed.

Lemma toLowerCase_trim (s : string) :
  JS.toLowerCase (JSText.trim s) = JSText.trim (JS.toLowerCase s).
Proof.
  unfold JSText.trim. now rewrite toLowerCase_trimEnd, toLowerCase_trimStart.
Qed.

Lemma includes_char_spec (v : string) (c : ascii) :
  JS.includes_char v c = true <-> In c (list_ascii_of_string v).
Proof.
  unfold JS.includes_char, JS.str. induction v as [|a v IH]; simpl.
  - split; [discriminate | tauto].
  - rewrite orb_true_iff, IH. destruct (Ascii.eqb_spec a c) as [->|Hne].
    + split; [now left | now left].
    + split; [intros [H|H]; [discriminate | now right]
             | intros [H|H]; [contradiction | now right]].
Qed.

Lemma replace_dquote_doubled (v : string) :
  JS.replace_all JS.dquote (JS.str JS.dquote +:+ JS.str JS.dquote) v = doubled v.
Proof.
  induction v as [|a v IH]; simpl; [reflexivity|].
  rewrite IH. destruct (Ascii.eqb_spec a JS.dquote) as [->|]; reflexivity.
Qed.

(** ** The stable sort *)

Section ArraySort.
Context {A : Type} (cmp : A -> A -> Z).

Hypothesis cmp_asym : forall a b, cmp a b < 0 -> ~ cmp b a < 0.

Lemma sort_insert_Permutation (x : A) (l : list A) :
  JS.sort_insert cmp x l ≡ₚ x :: l.
Proof.
  induction l as [|y l IH]; simpl; [reflexivity|].
  destruct (cmp y x <? 0); [|reflexivity].
  rewrite IH. apply perm_swap.
Qed.

Lemma Array_sort_Permutation (l : list A) : JS.Array_sort cmp l ≡ₚ l.
Proof.
  induction l as [|x l IH]; simpl; [reflexivity|].
  rewrite sort_insert_Permutation. now rewrite IH.
Qed.

Lemma Array_sort_length (l : list A) : length (JS.Array_sort cmp l) = length l.
Proof. apply Permutation_length, Array_sort_Permutation. Qed.

Lemma sort_insert_HdRel (a x : A) (l : list A) :
  may_precede cmp a x -> HdRel (may_precede cmp) a l ->
  HdRel (may_precede cmp) a (JS.sort_insert cmp x l).
Proof.
  intros Hax Hl. destruct l as [|y l]; simpl; [now constructor|].
  destruct (cmp y x <? 0); constructor; [|assumption].
  now apply HdRel_inv in Hl.
Qed.

Lemma sort_insert_Sorted (x : A) (l : list A) :
  Sorted (may_precede cmp) l -> Sorted (may_precede cmp) (JS.sort_insert cmp x l).
Proof.
  induction l as [|y l IH]; intros Hl; simpl.
  - repeat constructor.
  - destruct (Z.ltb_spec (cmp y x) 0) as [Hlt|Hge].
    + apply Sorted_inv in Hl as [Hl Hhd]. constructor; [now apply IH|].
      apply sort_insert_HdRel; [|assumption]. now apply cmp_asym.
    + constructor; [assumption|]. constructor. unfold may_precede. lia.
Qed.

Lemma Array_sort_Sorted (l : list A) : Sorted (may_precede cmp) (JS.Array_sort cmp l).
Proof.
  induction l as [|x l IH]; simpl; [constructor|].
  now apply sort_insert_Sorted.
Qed.

End ArraySort.

Lemma Sorted_weaken {A : Type} (R R' : relation A) (l : list A) :
  (forall a b, R a b -> R' a b) -> Sorted R l -> Sorted R' l.
Proof.
  intros HR. induction 1 as [|a l _ IH Hhd]; constructor; [assumption|].
  destruct Hhd; constructor. now apply HR.
Qed.

Lemma filter_all {A : Type} (P : A -> Prop) `{forall x, Decision (P x)}
    (l : list A) :
  (forall x, x ∈ l -> P x) -> filter P l = l.
Proof.
  induction l as [|x l IH]; intros Hl; [reflexivity|].
  rewrite filter_cons_True by (apply Hl; left).
  f_equal. apply IH. intros y Hy. apply Hl. now right.
Qed.

(** ** Retention of status changes *)

#[local] Instance newer_change_trans : Transitive newer_change.
Proof. unfold newer_change. intros a b c; lia. Qed.

Lemma newest_first_asym (a b : StatusChange.t) :
  newest_first a b < 0 -> ~ newest_first b a < 0.
Proof. unfold newest_first. lia. Qed.

Lemma sorted_changes_newest_first (l : list StatusChange.t) :
  StronglySorted newer_change (JS.Array_sort newest_first l).
Proof.
  apply Sorted_StronglySorted; [apply _|].
  eapply Sorted_weaken; [|apply Array_sort_Sorted, newest_first_asym].
  unfold may_precede, newest_first, newer_change, changeTime. intros a b. lia.
Qed.

Lemma retain_discarded (ex new : list StatusChange.t) :
  (retain ex new ++ discarded ex new)%list = JS.Array_sort newest_first (ex ++ new)%list.
Proof. unfold retain, discarded, JS.Array_slice0. apply take_drop. Qed.

Lemma retain_Permutation (ex new : list StatusChange.t) :
  (ex ++ new)%list ≡ₚ (retain ex new ++ discarded ex new)%list.
Proof. rewrite retain_discarded. symmetry. apply Array_sort_Permutation. Qed.

Lemma retain_StronglySorted (ex new : list StatusChange.t) :
  StronglySorted newer_change (retain ex new).
Proof.
  pose proof (sorted_changes_newest_first (ex ++ new)%list) as H.
  rewrite <- retain_discarded in H. now apply StronglySorted_app_1_l in H.
Qed.

Lemma retain_Sorted (ex new : list StatusChange.t) :
  Sorted newer_change (retain ex new).
Proof. apply StronglySorted_Sorted, retain_StronglySorted. Qed.

Lemma retain_length (ex new : list StatusChange.t) :
  length (retain ex new) = Nat.min 50 (length ex + length new).
Proof.
  unfold retain, JS.Array_slice0.
  now rewrite length_take, Array_sort_length, length_app.
Qed.

(** Every entry kept is at least as recent as every entry left out. *)
Lemma retain_newer_than_discarded (ex new : list StatusChange.t) k d :
  k ∈ retain ex new -> d ∈ discarded ex new -> changeTime d <= changeTime k.
Proof.
  intros Hk Hd. pose proof (sorted_changes_newest_first (ex ++ new)%list) as H.
  rewrite <- retain_discarded in H.
  exact (StronglySorted_app_1_elem_of _ _ _ _ _ H Hk Hd).
Qed.

Lemma discarded_nonempty_full (ex new : list StatusChange.t) :
  discarded ex new <> [] -> length (retain ex new) = 50%nat.
Proof.
  intros Hne. rewrite retain_length.
  assert (length (discarded ex new) <> 0%nat) as Hlen
    by (destruct (discarded ex new); [congruence | discriminate]).
  unfold discarded in Hlen.
  rewrite length_drop, Array_sort_length, length_app in Hlen. lia.
Qed.

(** Once 50 entries are held, a bound below all of them stays a bound below
    all that are kept: an entry that enters pushes out one no newer. *)
Lemma retain_lower_bound (m : Z) (ex new : list StatusChange.t) :
  (50 <= length ex)%nat ->
  (forall k, k ∈ ex -> m <= changeTime k) ->
  forall k, k ∈ retain ex new -> m <= changeTime k.
Proof.
  intros Hlen Hex k Hk.
  destruct (Z.le_gt_cases m (changeTime k)) as [|Hlt]; [assumption|exfalso].
  set (P := fun c : StatusChange.t => m <= changeTime c).
  assert (length (filter P (retain ex new ++ discarded ex new)%list) >= 50)%nat as Hmany.
  { rewrite <- retain_Permutation, filter_app, length_app.
    rewrite (filter_all P ex) by exact Hex. lia. }
  rewrite filter_app, length_app in Hmany.
  assert (filter P (discarded ex new) = []) as Hnone.
  { destruct (filter P (discarded ex new)) as [|d rest] eqn:Hf; [reflexivity|].
    exfalso. assert (d ∈ filter P (discarded ex new)) as Hd by (rewrite Hf; left).
    apply list_elem_of_filter in Hd as [HP Hd].
    pose proof (retain_newer_than_discarded _ _ _ _ Hk Hd). unfold P in HP. lia. }
  rewrite Hnone in Hmany. simpl in Hmany.
  assert (length (filter P (retain ex new)) < length (retain ex new))%nat as Hfew
    by (apply (length_filter_lt P _ k); [assumption | unfold P; lia]).
  rewrite retain_length in Hfew. lia.
Qed.

(** ** Running the service methods *)

Lemma quiet_ret {A : Type} (a : A) (post : A -> Prop) :
  post a -> quiet (ret a) post.
Proof. intros H w. exists a, w. auto. Qed.

Lemma quiet_bind {A B : Type} (m : M A) (k : A -> M B) (P : A -> Prop)
    (Q : B -> Prop) :
  quiet m P -> (forall a, P a -> quiet (k a) Q) -> quiet (do a <- m; k a) Q.
Proof.
  intros Hm Hk w. destruct (Hm w) as (a & w1 & E1 & Hp1 & Hc1 & Ha).
  destruct (Hk a Ha w1) as (b & w2 & E2 & Hp2 & Hc2 & Hb).
  exists b, w2. unfold bind. rewrite E1. repeat split; congruence.
Qed.

Lemma quiet_randomUUID : quiet randomUUID (fun _ => True).
Proof. intros w. eexists _, _. unfold randomUUID. simpl. auto. Qed.

Lemma PatientStatus_str_truthy (s : PatientStatus) :
  JS.truthy (PatientStatus_str s) = true.
Proof. destruct s; reflexivity. Qed.

Lemma TriageLevel_str_truthy (l : TriageLevel) :
  JS.truthy (TriageLevel_str l) = true.
Proof. destruct l; reflexivity. Qed.

Lemma PatientStatus_str_inj (a b : PatientStatus) :
  PatientStatus_str a = PatientStatus_str b -> a = b.
Proof. destruct a, b; simpl; congruence. Qed.

Lemma TriageLevel_str_inj (a b : TriageLevel) :
  TriageLevel_str a = TriageLevel_str b -> a = b.
Proof. destruct a, b; simpl; congruence. Qed.

Lemma truthy_spec (s : string) : JS.truthy s = true <-> s <> EmptyString.
Proof.
  unfold JS.truthy. destruct (String.eqb_spec s EmptyString); simpl.
  - split; [discriminate | contradiction].
  - split; auto.
Qed.

Lemma or_else_shown (v d : string) :
  JS.or_else v d = if String.eqb v EmptyString then d else v.
Proof. unfold JS.or_else, JS.truthy. now destruct (String.eqb v EmptyString). Qed.

(** The guard of a tracked field, as the methods compute it. *)
Ltac track_guard :=
  match goal with
  | |- context [bool_decide ?P] => destruct (bool_decide_reflect P)
  | |- context [String.eqb ?a ?b] => destruct (String.eqb_spec a b)
  end.

Ltac no_change :=
  apply quiet_ret; unfold contributes, changed; simpl;
  split; [|split; [reflexivity | constructor]];
  intros v (Hv & Hne & Hst); exfalso.

Ltac one_change :=
  eapply quiet_bind; [apply quiet_randomUUID|]; intros id _;
  apply quiet_ret; unfold contributes, changed, entry_for; simpl;
  split; [|split; [|repeat constructor]].

Lemma trackStatus_contributes (p : Patient.t) (u : Changes.t) (time : Z) :
  quiet (trackStatus p u time) (contributes tracked_status p u time).
Proof.
  unfold trackStatus. destruct (Changes.status u) as [s|] eqn:Hu.
  - rewrite PatientStatus_str_truthy. simpl. track_guard; simpl.
    + no_change. rewrite Hu in Hv. cbn in Hv. congruence.
    + one_change.
      * intros v (Hv & _). rewrite Hu in Hv. injection Hv as <-.
        eexists; split; [reflexivity|]. simpl.
        unfold shown_previous. simpl. rewrite or_else_shown.
        now destruct (Patient.status p).
      * intros Hno. exfalso. apply Hno. exists (PatientStatus_str s).
        rewrite Hu. simpl. repeat split; [now destruct s|].
        intros H. injection H as H. apply PatientStatus_str_inj in H. congruence.
  - no_change. rewrite Hu in Hv. discriminate.
Qed.

Lemma trackTriage_contributes (p : Patient.t) (u : Changes.t) (time : Z) :
  quiet (trackTriage p u time) (contributes tracked_triageLevel p u time).
Proof.
  unfold trackTriage. destruct (Changes.triageLevel u) as [l|] eqn:Hu.
  - rewrite TriageLevel_str_truthy. simpl. track_guard; simpl.
    + no_change. rewrite Hu in Hv. cbn in Hv. congruence.
    + one_change.
      * intros v (Hv & _). rewrite Hu in Hv. injection Hv as <-.
        eexists; split; [reflexivity|]. simpl.
        unfold shown_previous. simpl. now destruct (Patient.triageLevel p).
      * intros Hno. exfalso. apply Hno. exists (TriageLevel_str l).
        rewrite Hu. simpl. repeat split; [now destruct l|].
        intros H. injection H as H. apply TriageLevel_str_inj in H. congruence.
  - no_change. rewrite Hu in Hv. discriminate.
Qed.

Lemma trackNotes_contributes (p : Patient.t) (u : Changes.t) (time : Z) :
  quiet (trackNotes p u time) (contributes tracked_notes p u time).
Proof.
  unfold trackNotes. destruct (Changes.notes u) as [n|] eqn:Hu.
  - destruct (JS.truthy n) eqn:Ht; simpl.
    + track_guard; simpl.
      * no_change. rewrite Hu in Hv. cbn in Hv. congruence.
      * one_change.
        -- intros v (Hv & _). rewrite Hu in Hv. injection Hv as <-.
           eexists; split; [reflexivity|]. simpl.
           unfold shown_previous. simpl. now rewrite or_else_shown.
        -- intros Hno. exfalso. apply Hno. exists n. rewrite Hu.
           repeat split; [now apply truthy_spec | congruence].
    + no_change. rewrite Hu in Hv. injection Hv as <-.
      apply truthy_spec in Hne. congruence.
  - no_change. rewrite Hu in Hv. discriminate.
Qed.

Lemma trackTreatment_contributes (p : Patient.t) (u : Changes.t) (time : Z) :
  quiet (trackTreatment p u time) (contributes tracked_treatmentPlan p u time).
Proof.
  unfold trackTreatment. destruct (Changes.treatmentPlan u) as [t|] eqn:Hu.
  - destruct (JS.truthy t) eqn:Ht; simpl.
    + track_guard; simpl.
      * no_change. rewrite Hu in Hv. cbn in Hv. congruence.
      * one_change.
        -- intros v (Hv & _). rewrite Hu in Hv. injection Hv as <-.
           eexists; split; [reflexivity|]. simpl.
           unfold shown_previous. simpl.
           destruct (Patient.treatmentPlan p); rewrite ?or_else_shown;
             repeat split.
        -- intros Hno. exfalso. apply Hno. exists t. rewrite Hu.
           repeat split; [now apply truthy_spec | congruence].
    + no_change. rewrite Hu in Hv. injection Hv as <-.
      apply truthy_spec in Hne. congruence.
  - no_change. rewrite Hu in Hv. discriminate.
Qed.

Lemma tagged_same (f : Tracked) (cs : list StatusChange.t) :
  Forall (fun c => StatusChange.changeType c = tag f) cs -> tagged f cs = cs.
Proof. intros H. apply filter_all. now apply Forall_forall. Qed.

Lemma tagged_other (f g : Tracked) (cs : list StatusChange.t) :
  f <> g ->
  Forall (fun c => StatusChange.changeType c = tag g) cs -> tagged f cs = [].
Proof.
  intros Hne H. unfold tagged. induction H as [|c cs Hc _ IH]; [reflexivity|].
  rewrite filter_cons_False; [assumption|].
  rewrite Hc. destruct f, g; simpl; congruence.
Qed.

Lemma tagged_app (f : Tracked) (cs ds : list StatusChange.t) :
  tagged f (cs ++ ds)%list = (tagged f cs ++ tagged f ds)%list.
Proof. apply filter_app. Qed.

(** The new changes of a call, field by field. *)
Lemma newChanges_contributes (p : Patient.t) (u : Changes.t) (time : Z) :
  quiet (newChanges p u time)
    (fun cs =>
       (forall f, contributes f p u time (tagged f cs))
       /\ Forall (fun c => exists f, StatusChange.changeType c = tag f) cs).
Proof.
  unfold newChanges.
  eapply quiet_bind; [apply trackStatus_contributes|]. intros c1 (H1a & H1b & H1).
  eapply quiet_bind; [apply trackTriage_contributes|]. intros c2 (H2a & H2b & H2).
  eapply quiet_bind; [apply trackNotes_contributes|]. intros c3 (H3a & H3b & H3).
  eapply quiet_bind; [apply trackTreatment_contributes|]. intros c4 (H4a & H4b & H4).
  apply quiet_ret. split.
  - intros f. rewrite !tagged_app.
    destruct f;
      repeat match goal with
      | H : Forall (fun c => StatusChange.changeType c = tag ?g) ?cs
        |- context [tagged ?f ?cs] =>
          first [ rewrite (tagged_same f cs H)
                | rewrite (tagged_other f g cs ltac:(discriminate) H) ]
      end;
      rewrite ?app_nil_r; simpl; unfold contributes; auto.
  - repeat (apply Forall_app; split);
      (eapply Forall_impl; [eassumption|]); intros c Hc;
      eexists; exact Hc.
Qed.

(** [updatePatient] on a stored record: the call succeeds and writes the
    allowed updates, the second clock reading and the retained changes. *)
Lemma updatePatient_found (i : string) (u : PatientUpdate.t) (w : World)
    (p : Patient.t) :
  patients w !! i = Some p ->
  exists w',
    updatePatient i u w = (Ok tt, w')
    /\ patients w' =
         <[i := Table.modify
                  (updatesWithTimestamp (PatientUpdate.rest u) (clock w 1%nat)
                     (retain (default [] (Patient.statusChanges p))
                        (synthesized i u w)))
                  p]> (patients w).
Proof.
  intros Hp. unfold synthesized. rewrite Hp.
  destruct (newChanges_contributes p (PatientUpdate.rest u) (clock w 0%nat)
              (snd (Date_now w))) as (cs & w1 & E & Hpat & Hclk & _).
  rewrite E. destruct w1 as [pat1 clk1 ent1 err1]. simpl in Hpat, Hclk. subst pat1 clk1.
  eexists. split.
  - unfold updatePatient, rethrow, try_catch, bind, Table.get. rewrite Hp.
    unfold trackStatusChanges, bind. simpl in E |- *. rewrite E. simpl.
    unfold Table.update. simpl. rewrite Hp. reflexivity.
  - reflexivity.
Qed.

Lemma updatePatient_missing (i : string) (u : PatientUpdate.t) (w : World) :
  patients w !! i = None ->
  updatePatient i u w =
    (Throw ("Failed to update patient: Patient with ID " +:+ i +:+ " not found"), w).
Proof.
  intros Hp. unfold updatePatient, rethrow, try_catch, bind, Table.get, throw.
  rewrite Hp. reflexivity.
Qed.

Lemma registered_record :
  patients Sample.registered !! "uuid-0" = Some Sample.record.
Proof. vm_compute. reflexivity. Qed.

(** ** The audit entries of an update *)

(** C1, as amended.  For every call of [updatePatient] on a stored record,
    and each of the four tracked fields: when the update proposes a
    non-empty value that differs from the stored one, exactly one entry
    with the tag of the field is synthesized, with the prior value (or the
    placeholder, when the prior value is absent or empty) as
    [previousValue], the proposed value as [newValue] and [isHighlighted]
    false for notes and true otherwise; when it does not, no entry with
    that tag is synthesized; and every synthesized entry carries the tag of
    one of the four fields.  The record is written with the retained
    combination of its prior entries and the synthesized ones. *)
Theorem update_synthesizes_tracked_changes (i : string) (u : PatientUpdate.t)
    (w : World) (p : Patient.t) :
  patients w !! i = Some p ->
  exists w' p',
    updatePatient i u w = (Ok tt, w')
    /\ patients w' !! i = Some p'
    /\ Patient.statusChanges p' =
         Some (retain (default [] (Patient.statusChanges p)) (synthesized i u w))
    /\ (forall f v,
          changed f p (PatientUpdate.rest u) v ->
          exists c,
            tagged f (synthesized i u w) = [c]
            /\ entry_for f p (clock w 0%nat) v c)
    /\ (forall f,
          (~ exists v, changed f p (PatientUpdate.rest u) v) ->
          tagged f (synthesized i u w) = [])
    /\ Forall (fun c => exists f, StatusChange.changeType c = tag f)
         (synthesized i u w).
Proof.
  intros Hp. destruct (updatePatient_found i u w p Hp) as (w' & Hrun & Hpat).
  exists w', (Table.modify
                (updatesWithTimestamp (PatientUpdate.rest u) (clock w 1%nat)
                   (retain (default [] (Patient.statusChanges p))
                      (synthesized i u w))) p).
  split; [exact Hrun|]. split; [rewrite Hpat; apply lookup_insert_eq|].
  split; [reflexivity|].
  unfold synthesized. rewrite Hp.
  destruct (newChanges_contributes p (PatientUpdate.rest u) (clock w 0%nat)
              (snd (Date_now w))) as (cs & w1 & E & _ & _ & Hfields & Htags).
  rewrite E. split; [|split; [|exact Htags]].
  - intros f v Hv. now apply (Hfields f).
  - intros f Hno. now apply (Hfields f).
Qed.

(** At the sample record: a status set to In Treatment is recorded once,
    from Waiting, highlighted. *)
Lemma update_synthesizes_tracked_changes_witness :
  patients Sample.registered !! "uuid-0" = Some Sample.record
  /\ exists c,
       tagged tracked_status
         (synthesized "uuid-0" (Sample.setStatus InTreatment) Sample.registered) = [c]
       /\ StatusChange.previousValue c = "Waiting"
       /\ StatusChange.newValue c = "In Treatment"
       /\ StatusChange.isHighlighted c = true.
Proof.
  split; [exact registered_record|].
  destruct (update_synthesizes_tracked_changes "uuid-0"
              (Sample.setStatus InTreatment) Sample.registered Sample.record
              registered_record)
    as (w' & p' & _ & _ & _ & Hchanged & _).
  destruct (Hchanged tracked_status "In Treatment") as (c & Hc & He).
  - repeat split; simpl; congruence.
  - exists c. split; [exact Hc|].
    destruct He as (_ & Hprev & Hnew & Hhi & _). repeat split; assumption.
Defined.

(** C1, as stated, fails where the proposed value is the empty string: an
    update that clears the notes proposes a value that is present and
    differs from the stored one, and synthesizes nothing.  And the
    placeholder stands for an empty prior value as well as for an absent
    one: the first notes written on a new record, whose stored notes are
    the empty string, are recorded with the previous value "No notes". *)
Lemma clearing_notes_synthesizes_nothing :
  (proposed tracked_notes (PatientUpdate.rest (Sample.setNotes EmptyString))
     = Some EmptyString
   /\ (Patient.notes <$> patients Sample.noted !! "uuid-0")
        = Some "seen by the triage nurse"
   /\ fst (updatePatient "uuid-0" (Sample.setNotes EmptyString) Sample.noted)
        = Ok tt
   /\ synthesized "uuid-0" (Sample.setNotes EmptyString) Sample.noted = [])
  /\ (stored tracked_notes Sample.record = Some EmptyString
      /\ (StatusChange.previousValue <$>
            synthesized "uuid-0" (Sample.setNotes "afebrile") Sample.registered)
           = ["No notes"]).
Proof. vm_compute. repeat split. Qed.

(** ** Immutability of the identifier and the creation time *)

Lemma synthesized_only_name (i : string) (u : PatientUpdate.t) (w : World)
    (x : string) :
  PatientUpdate.rest u = only_name x -> synthesized i u w = [].
Proof.
  intros Hu. unfold synthesized. rewrite Hu.
  now destruct (patients w !! i).
Qed.

(** C2, as amended.  [updatePatient] on a stored record succeeds whatever
    the payload gives for [id] and [timestamp], and leaves both as they
    were, as it leaves every other record; with the payload
    [{id, timestamp, name}] it changes [name], [lastUpdated] and
    [statusChanges], which is rewritten to the retained prior entries (the
    empty list for a record that had none), and nothing else. *)
Theorem update_keeps_id_and_timestamp (i : string) (u : PatientUpdate.t)
    (w : World) (p : Patient.t) :
  patients w !! i = Some p ->
  exists w' p',
    updatePatient i u w = (Ok tt, w')
    /\ patients w' !! i = Some p'
    /\ Patient.id p' = Patient.id p
    /\ Patient.timestamp p' = Patient.timestamp p
    /\ (forall j, j <> i -> patients w' !! j = patients w !! j)
    /\ (forall x,
          PatientUpdate.rest u = only_name x ->
          p' = with_name x (clock w 1%nat)
                 (retain (default [] (Patient.statusChanges p)) []) p).
Proof.
  intros Hp. destruct (updatePatient_found i u w p Hp) as (w' & Hrun & Hpat).
  eexists w', _. split; [exact Hrun|].
  split; [rewrite Hpat; apply lookup_insert_eq|].
  split; [reflexivity|]. split; [reflexivity|]. split.
  - intros j Hj. rewrite Hpat. now apply lookup_insert_ne.
  - intros x Hx. rewrite (synthesized_only_name i u w x Hx), Hx. reflexivity.
Qed.

Lemma update_keeps_id_and_timestamp_witness :
  patients Sample.registered !! "uuid-0" = Some Sample.record
  /\ exists w' p',
       updatePatient "uuid-0" Sample.rename Sample.registered = (Ok tt, w')
       /\ patients w' !! "uuid-0" = Some p'
       /\ patients w' !! "other" = None
       /\ Patient.id p' = "uuid-0"
       /\ Patient.timestamp p' = 1705329045000
       /\ Patient.name p' = "X".
Proof.
  split; [exact registered_record|].
  destruct (update_keeps_id_and_timestamp "uuid-0" Sample.rename
              Sample.registered Sample.record registered_record)
    as (w' & p' & Hrun & Hp' & Hid & Hts & Hothers & Hname).
  exists w', p'. split; [exact Hrun|]. split; [exact Hp'|].
  split; [rewrite Hothers by discriminate; vm_compute; reflexivity|].
  split; [exact Hid|]. split; [exact Hts|].
  now rewrite (Hname "X" eq_refl).
Defined.

(** C2, as stated, fails on a record that has no status changes yet: the
    update [{id: "other", timestamp: 0, name: "X"}] gives it the empty
    list, besides the new name and [lastUpdated]. *)
Lemma rename_also_writes_statusChanges :
  (Patient.statusChanges <$> patients Sample.registered !! "uuid-0") = Some None
  /\ fst (updatePatient "uuid-0" Sample.rename Sample.registered) = Ok tt
  /\ (Patient.statusChanges <$>
        patients (snd (updatePatient "uuid-0" Sample.rename Sample.registered))
          !! "uuid-0") = Some (Some []).
Proof. vm_compute. repeat split. Qed.

(** ** Listing the store *)

Lemma index_cmp_asym (p q : Patient.t) :
  Table.index_cmp p q < 0 -> ~ Table.index_cmp q p < 0.
Proof.
  unfold Table.index_cmp.
  destruct (Z.ltb_spec (Patient.timestamp p) (Patient.timestamp q));
    destruct (Z.ltb_spec (Patient.timestamp q) (Patient.timestamp p));
    try lia.
  rewrite (String.compare_antisym (Patient.id p) (Patient.id q)).
  destruct (String.compare (Patient.id q) (Patient.id p)); simpl; lia.
Qed.

Lemma index_order_by_timestamp (p q : Patient.t) :
  may_precede Table.index_cmp p q -> Patient.timestamp p <= Patient.timestamp q.
Proof.
  unfold may_precede, Table.index_cmp. intros H.
  destruct (Z.ltb_spec (Patient.timestamp q) (Patient.timestamp p)); lia.
Qed.

(** [getPatients] cannot fail, leaves the state as it is, and lists every
    stored record once, newest first. *)
Lemma getPatients_spec (w : World) :
  exists all,
    getPatients w = (Ok all, w)
    /\ (forall p, p ∈ all <-> exists k, patients w !! k = Some p)
    /\ Sorted newer_patient all
    /\ length all = size (patients w).
Proof.
  eexists. split; [reflexivity|]. split; [|split].
  - intros p. rewrite elem_of_reverse, Array_sort_Permutation, list_elem_of_fmap.
    split.
    + intros [[k q] [-> Hkq]]. exists k. now apply elem_of_map_to_list.
    + intros [k Hk]. exists (k, p). split; [reflexivity|].
      now apply elem_of_map_to_list.
  - apply (Sorted_reverse (fun p q => Patient.timestamp p <= Patient.timestamp q)).
    eapply Sorted_weaken; [apply index_order_by_timestamp|].
    apply Array_sort_Sorted, index_cmp_asym.
  - rewrite length_reverse, Array_sort_length, length_fmap.
    apply length_map_to_list.
Qed.

(** ** Deletion *)

Lemma deletePatient_run (i : string) (w : World) :
  deletePatient i w =
    (Ok tt,
     mkWorld (delete i (patients w)) (clock w) (entropy w)
       (constraintError w)).
Proof.
  unfold deletePatient, rethrow, try_catch, bind, Table.delete, Table.get.
  simpl. now rewrite lookup_delete_eq.
Qed.

(** C3, as amended.  [deletePatient] succeeds; afterwards the table has no
    record under the identifier and [getPatients] lists exactly the records
    under the other keys; and a second [deletePatient] of the identifier
    succeeds as well, changing nothing. *)
Theorem delete_is_final_and_idempotent (i : string) (w : World) :
  exists w',
    deletePatient i w = (Ok tt, w')
    /\ Table.get i w' = (Ok None, w')
    /\ (exists all,
          getPatients w' = (Ok all, w')
          /\ forall p, p ∈ all <-> exists k, k <> i /\ patients w !! k = Some p)
    /\ deletePatient i w' = (Ok tt, w').
Proof.
  eexists. split; [apply deletePatient_run|]. split; [|split].
  - unfold Table.get. simpl. now rewrite lookup_delete_eq.
  - destruct (getPatients_spec
                (mkWorld (delete i (patients w)) (clock w) (entropy w)
                   (constraintError w)))
      as (all & Hall & Hin & _).
    exists all. split; [exact Hall|]. intros p. rewrite Hin. simpl.
    split; intros [k Hk]; exists k.
    + now apply lookup_delete_Some in Hk.
    + now apply lookup_delete_Some.
  - rewrite deletePatient_run. simpl. now rewrite delete_delete_eq.
Qed.

(** C3, as stated, fails at the second deletion: it is no error. *)
Lemma second_delete_succeeds :
  patients Sample.registered !! "uuid-0" = Some Sample.record
  /\ fst (deletePatient "uuid-0" Sample.registered) = Ok tt
  /\ patients (snd (deletePatient "uuid-0" Sample.registered)) !! "uuid-0" = None
  /\ fst (deletePatient "uuid-0" (snd (deletePatient "uuid-0" Sample.registered)))
     = Ok tt.
Proof. vm_compute. repeat split. Qed.

(** ** Creation *)

(** C7.  When the identifier drawn is not in use, [addPatient] returns it
    and stores under it a record that has the fields of the input, the
    identifier, the clock reading as [timestamp] and [lastUpdated], the
    status Waiting and empty notes; reading the identifier back gives that
    record, and no other record is touched. *)
Theorem addPatient_then_get (patient : NewPatient.t) (w : World) :
  patients w !! entropy w 0%nat = None ->
  exists w' r,
    addPatient patient w = (Ok (entropy w 0%nat), w')
    /\ Table.get (entropy w 0%nat) w' = (Ok (Some r), w')
    /\ patients w' = <[entropy w 0%nat := r]> (patients w)
    /\ Patient.id r = entropy w 0%nat
    /\ Patient.timestamp r = clock w 0%nat
    /\ Patient.lastUpdated r = clock w 0%nat
    /\ Patient.status r = Waiting
    /\ Patient.notes r = EmptyString
    /\ Patient.name r = NewPatient.name patient
    /\ Patient.age r = NewPatient.age patient
    /\ Patient.symptoms r = NewPatient.symptoms patient
    /\ Patient.condition r = NewPatient.condition patient
    /\ Patient.triageLevel r = NewPatient.triageLevel patient
    /\ Patient.patientId r = NewPatient.patientId patient
    /\ Patient.mainComplaint r = NewPatient.mainComplaint patient
    /\ Patient.medicalHistory r = NewPatient.medicalHistory patient
    /\ Patient.examinationFindings r = NewPatient.examinationFindings patient
    /\ Patient.provisionalDiagnosis r = NewPatient.provisionalDiagnosis patient
    /\ Patient.treatmentPlan r = NewPatient.treatmentPlan patient
    /\ Patient.handoverNotes r = NewPatient.handoverNotes patient
    /\ Patient.statusChanges r = NewPatient.statusChanges patient.
Proof.
  intros Hfresh. eexists _, _. split.
  - unfold addPatient, rethrow, try_catch, bind, randomUUID, Date_now, Table.add.
    simpl. rewrite Hfresh. reflexivity.
  - split; [unfold Table.get; simpl; now rewrite lookup_insert_eq|].
    repeat split.
Qed.

Lemma addPatient_then_get_witness :
  patients Sample.start !! entropy Sample.start 0%nat = None
  /\ exists w',
       addPatient Sample.intake Sample.start = (Ok "uuid-0", w')
       /\ Table.get "uuid-0" w' = (Ok (Some Sample.record), w').
Proof.
  split; [reflexivity|].
  destruct (addPatient_then_get Sample.intake Sample.start eq_refl)
    as (w' & r & Hadd & Hget & _).
  exists w'. split; [exact Hadd|].
  assert (w' = Sample.registered) as -> by (unfold Sample.registered; now rewrite Hadd).
  unfold Table.get. now rewrite registered_record.
Defined.

(** The identifier must be free: a draw that is in use makes the call
    fail, with the store as it was. *)
Lemma addPatient_duplicate (patient : NewPatient.t) (w : World) (p : Patient.t) :
  patients w !! entropy w 0%nat = Some p ->
  exists w',
    addPatient patient w =
      (Throw ("Failed to add patient: " +:+ constraintError w), w')
    /\ patients w' = patients w.
Proof.
  intros Hused. eexists. split.
  - unfold addPatient, rethrow, try_catch, bind, randomUUID, Date_now, Table.add.
    simpl. rewrite Hused. reflexivity.
  - reflexivity.
Qed.

(** ** Retention across updates *)

#[local] Arguments Nat.min : simpl never.

Lemma retain_holds_back (kept dropped new : list StatusChange.t) :
  holds_back kept dropped ->
  holds_back (retain kept new) (discarded kept new ++ dropped)%list.
Proof.
  intros [Hle Hfull]. split.
  - intros k d Hk Hd. apply elem_of_app in Hd as [Hd|Hd].
    + now apply (retain_newer_than_discarded kept new).
    + apply (retain_lower_bound (changeTime d) kept new); [|auto|assumption].
      apply Hfull. intros ->. inversion Hd.
  - intros Hne. rewrite retain_length.
    destruct (discarded kept new) as [|d ds] eqn:Hd.
    + simpl in Hne. specialize (Hfull Hne). lia.
    + assert (discarded kept new <> []) as Hd' by (rewrite Hd; discriminate).
      apply discarded_nonempty_full in Hd'. rewrite retain_length in Hd'. lia.
Qed.

Lemma updated_tidy (u : Changes.t) (now : Z) (p : Patient.t)
    (new : list StatusChange.t) :
  let p' := Table.modify (updatesWithTimestamp u now (retain (held p) new)) p in
  held p' = retain (held p) new /\ tidy p'.
Proof.
  simpl. split; [reflexivity|]. unfold tidy, held. simpl.
  split; [reflexivity|]. split; [apply retain_Sorted|].
  rewrite retain_length. lia.
Qed.

Lemma updateEach_retention (i : string) (us : list PatientUpdate.t) :
  forall (w : World) (p : Patient.t) (dropped : list StatusChange.t),
    patients w !! i = Some p ->
    holds_back (held p) dropped ->
    exists w' p' dropped',
      updateEach i us w = (Ok tt, w')
      /\ patients w' !! i = Some p'
      /\ holds_back (held p') dropped'
      /\ ((held p ++ concat (synthesizedEach i us w)) ++ dropped)%list
           ≡ₚ (held p' ++ dropped')%list
      /\ (us <> [] \/ tidy p ->
          tidy p'
          /\ length (held p') =
               Nat.min 50 (length (held p) + length (concat (synthesizedEach i us w)))).
Proof.
  induction us as [|u us IH]; intros w p dropped Hp Hinv.
  - exists w, p, dropped. simpl. rewrite app_nil_r.
    split; [reflexivity|]. split; [exact Hp|]. split; [exact Hinv|].
    split; [reflexivity|]. intros [H|H]; [congruence|].
    split; [exact H|]. destruct H as (_ & _ & H). lia.
  - destruct (updatePatient_found i u w p Hp) as (w1 & Hrun & Hpat).
    set (new := synthesized i u w) in *.
    pose proof (updated_tidy (PatientUpdate.rest u) (clock w 1%nat) p new)
      as [Hheld Htidy]. simpl in Hheld, Htidy. fold (held p) in Hpat.
    set (p1 := Table.modify _ p) in *.
    assert (patients w1 !! i = Some p1) as Hp1
      by (rewrite Hpat; apply lookup_insert_eq).
    destruct (IH w1 p1 (discarded (held p) new ++ dropped)%list Hp1)
      as (w' & p' & dropped' & Hrest & Hp' & Hinv' & Hperm & Hlen).
    { rewrite Hheld. now apply retain_holds_back. }
    exists w', p', dropped'. simpl. unfold bind. rewrite Hrun. simpl.
    split; [exact Hrest|]. split; [exact Hp'|]. split; [exact Hinv'|].
    fold new. split.
    + rewrite <- Hperm, Hheld.
      set (rest := concat (synthesizedEach i us w1)).
      transitivity ((held p ++ new) ++ (rest ++ dropped))%list;
        [now rewrite <- !app_assoc|].
      rewrite (retain_Permutation (held p) new).
      rewrite <- !app_assoc. apply Permutation_app_head.
      rewrite !app_assoc. apply Permutation_app_tail, Permutation_app_comm.
    + intros _. destruct (Hlen (or_intror Htidy)) as [Htidy' Hlen'].
      split; [exact Htidy'|].
      rewrite Hlen', Hheld, retain_length, length_app. lia.
Qed.

Lemma synthesizedEach_length (i : string) (us : list PatientUpdate.t) (w : World) :
  length (synthesizedEach i us w) = length us.
Proof. revert w. induction us as [|u us IH]; intros w; simpl; auto. Qed.

Lemma length_concat_singletons {A : Type} (l : list (list A)) :
  Forall (fun cs => length cs = 1%nat) l -> length (concat l) = length l.
Proof.
  induction 1 as [|cs l Hcs _ IH]; [reflexivity|].
  simpl. rewrite length_app, Hcs, IH. reflexivity.
Qed.

(** C5.  After one or more calls of [updatePatient] on a stored record, its
    [statusChanges] is sorted newest first and holds at most 50 entries:
    the prior entries and the synthesized ones split into the entries kept
    and the entries dropped, none of the dropped newer than any kept, and
    the number kept is the total up to 50.  After 60 updates that
    synthesize one entry each, exactly 50 are kept. *)
Theorem updates_retain_fifty_most_recent (i : string)
    (us : list PatientUpdate.t) (w : World) (p : Patient.t) :
  patients w !! i = Some p ->
  us <> [] ->
  exists w' p' kept dropped,
    updateEach i us w = (Ok tt, w')
    /\ patients w' !! i = Some p'
    /\ Patient.statusChanges p' = Some kept
    /\ Sorted newer_change kept
    /\ (length kept <= 50)%nat
    /\ length kept =
         Nat.min 50 (length (default [] (Patient.statusChanges p))
                     + length (concat (synthesizedEach i us w)))
    /\ (default [] (Patient.statusChanges p) ++ concat (synthesizedEach i us w))%list
         ≡ₚ (kept ++ dropped)%list
    /\ (forall k d, k ∈ kept -> d ∈ dropped -> changeTime d <= changeTime k)
    /\ (length us = 60%nat ->
        Forall (fun cs => length cs = 1%nat) (synthesizedEach i us w) ->
        length kept = 50%nat).
Proof.
  intros Hp Hus.
  destruct (updateEach_retention i us w p [] Hp)
    as (w' & p' & dropped & Hrun & Hp' & [Hnewer _] & Hperm & Hlen).
  { split; [intros k d _ Hd; inversion Hd | congruence]. }
  destruct (Hlen (or_introl Hus)) as [(Hstored & Hsorted & Hbound) Hlength].
  exists w', p', (held p'), dropped. rewrite app_nil_r in Hperm.
  repeat split; try assumption.
  intros Hsixty Hones. rewrite Hlength.
  rewrite (length_concat_singletons _ Hones), synthesizedEach_length, Hsixty. lia.
Qed.

Lemma sixty_updates_one_change_each :
  Forall (fun cs => length cs = 1%nat)
    (synthesizedEach "uuid-0" Sample.sixty Sample.registered).
Proof. vm_compute. repeat constructor. Qed.

Lemma updates_retain_fifty_most_recent_witness :
  (patients Sample.registered !! "uuid-0" = Some Sample.record
   /\ length Sample.sixty = 60%nat)
  /\ exists w' p' kept,
       updateEach "uuid-0" Sample.sixty Sample.registered = (Ok tt, w')
       /\ patients w' !! "uuid-0" = Some p'
       /\ Patient.statusChanges p' = Some kept
       /\ length kept = 50%nat.
Proof.
  split; [split; [exact registered_record | reflexivity]|].
  destruct (updates_retain_fifty_most_recent "uuid-0" Sample.sixty
              Sample.registered Sample.record registered_record)
    as (w' & p' & kept & dropped & Hrun & Hp' & Hkept & _ & _ & _ & _ & _ & Hfifty).
  - discriminate.
  - exists w', p', kept. repeat split; try assumption.
    apply Hfifty; [reflexivity | exact sixty_updates_one_change_each].
Defined.

(** ** Handover notes *)

Lemma addHandoverNote_found (i : string) (n : HandoverNoteInput.t) (w : World)
    (p : Patient.t) :
  patients w !! i = Some p ->
  exists w',
    addHandoverNote i n w = (Ok tt, w')
    /\ patients w' =
         <[i := with_handoverNotes (take 20 (createdNote i n w :: notes_held p))
                  (clock w 1%nat) p]> (patients w).
Proof.
  intros Hp. eexists. split.
  - unfold addHandoverNote, rethrow, try_catch, bind, Table.get. rewrite Hp.
    unfold randomUUID, Date_now, Table.update. simpl. rewrite Hp. reflexivity.
  - reflexivity.
Qed.

Lemma addHandoverNote_missing (i : string) (n : HandoverNoteInput.t) (w : World) :
  patients w !! i = None ->
  addHandoverNote i n w =
    (Throw ("Failed to add handover note: Patient with ID " +:+ i +:+ " not found"),
     w).
Proof.
  intros Hp. unfold addHandoverNote, rethrow, try_catch, bind, Table.get, throw.
  rewrite Hp. reflexivity.
Qed.

Lemma take_app_take {A : Type} (n : nat) (l k : list A) :
  take n (l ++ take n k)%list = take n (l ++ k)%list.
Proof.
  rewrite !take_app, take_take. f_equal. f_equal. lia.
Qed.

Lemma addEach_notes (i : string) (ns : list HandoverNoteInput.t) :
  forall (w : World) (p : Patient.t),
    patients w !! i = Some p ->
    exists w' p',
      addEach i ns w = (Ok tt, w')
      /\ patients w' !! i = Some p'
      /\ Patient.statusChanges p' = Patient.statusChanges p
      /\ take 20 (notes_held p') =
           take 20 (reverse (createdEach i ns w) ++ notes_held p)%list
      /\ (ns <> [] \/ (Patient.handoverNotes p = Some (notes_held p)
                       /\ (length (notes_held p) <= 20)%nat) ->
          Patient.handoverNotes p' =
            Some (take 20 (reverse (createdEach i ns w) ++ notes_held p)%list)).
Proof.
  induction ns as [|n ns IH]; intros w p Hp.
  - exists w, p. simpl. repeat split; try assumption.
    intros [H|[H Hlen]]; [congruence|]. rewrite H. f_equal.
    symmetry. now apply take_ge.
  - destruct (addHandoverNote_found i n w p Hp) as (w1 & Hrun & Hpat).
    set (p1 := with_handoverNotes _ _ p) in *.
    assert (patients w1 !! i = Some p1) as Hp1
      by (rewrite Hpat; apply lookup_insert_eq).
    destruct (IH w1 p1 Hp1) as (w' & p' & Hrest & Hp' & Hsc & Htake & Hnotes).
    assert (notes_held p1 = take 20 (createdNote i n w :: notes_held p)) as Hheld
      by reflexivity.
    assert (take 20 (reverse (createdEach i ns w1) ++ notes_held p1)%list
            = take 20 (reverse (createdNote i n w :: createdEach i ns w1)
                       ++ notes_held p)%list) as Hshift.
    { rewrite Hheld, take_app_take, reverse_cons, <- app_assoc. reflexivity. }
    exists w', p'. simpl. unfold bind. rewrite Hrun. simpl.
    split; [exact Hrest|]. split; [exact Hp'|]. split; [exact Hsc|].
    split; [now rewrite Htake|].
    intros _. rewrite <- Hshift. apply Hnotes. right.
    split; [reflexivity|]. rewrite Hheld, length_take. lia.
Qed.

Lemma createdEach_length (i : string) (ns : list HandoverNoteInput.t) (w : World) :
  length (createdEach i ns w) = length ns.
Proof. revert w. induction ns as [|n ns IH]; intros w; simpl; auto. Qed.

(** C6.  [addHandoverNote] fails with a not-found error when no record has
    the identifier.  Otherwise it succeeds: the note gets the identifier
    drawn and the clock reading, is put before the record's notes, the
    first 20 of which are stored with the next clock reading as
    [lastUpdated]; nothing else of the record changes, its status changes
    included.  After 25 notes are added, the record holds the last 20
    added, the last one first. *)
Theorem addHandoverNote_prepends_and_bounds (i : string) (w : World) :
  (patients w !! i = None ->
   forall n,
     addHandoverNote i n w =
       (Throw ("Failed to add handover note: Patient with ID " +:+ i
               +:+ " not found"), w))
  /\ (forall p,
        patients w !! i = Some p ->
        (forall n,
           exists w',
             addHandoverNote i n w = (Ok tt, w')
             /\ patients w' =
                  <[i := with_handoverNotes
                           (take 20 (createdNote i n w
                                     :: default [] (Patient.handoverNotes p)))
                           (clock w 1%nat) p]> (patients w))
        /\ (forall ns,
              length ns = 25%nat ->
              exists w' p',
                addEach i ns w = (Ok tt, w')
                /\ patients w' !! i = Some p'
                /\ Patient.handoverNotes p' =
                     Some (reverse (drop 5 (createdEach i ns w)))
                /\ Patient.statusChanges p' = Patient.statusChanges p)).
Proof.
  split; [intros Hp n; now apply addHandoverNote_missing|].
  intros p Hp. split; [intros n; now apply addHandoverNote_found|].
  intros ns Hlen.
  destruct (addEach_notes i ns w p Hp) as (w' & p' & Hrun & Hp' & Hsc & _ & Hnotes).
  exists w', p'. split; [exact Hrun|]. split; [exact Hp'|]. split; [|exact Hsc].
  rewrite Hnotes by (left; intros ->; discriminate).
  f_equal. rewrite take_app_le by (rewrite length_reverse, createdEach_length; lia).
  rewrite reverse_drop, createdEach_length, Hlen. reflexivity.
Qed.

Lemma addHandoverNote_prepends_and_bounds_witness :
  (patients Sample.registered !! "uuid-0" = Some Sample.record
   /\ length Sample.twentyfive = 25%nat)
  /\ exists w' p' notes,
       addEach "uuid-0" Sample.twentyfive Sample.registered = (Ok tt, w')
       /\ patients w' !! "uuid-0" = Some p'
       /\ Patient.handoverNotes p' = Some notes
       /\ length notes = 20%nat
       /\ HandoverNote.staffName <$> notes =
            (fun k => "Nurse " +:+ JS.Number_toString (Z.of_nat k))
              <$> reverse (seq 5 20)
       /\ Patient.statusChanges p' = None.
Proof.
  split; [split; [exact registered_record | reflexivity]|].
  destruct (proj2 (addHandoverNote_prepends_and_bounds "uuid-0" Sample.registered)
              Sample.record registered_record) as [_ Hmany].
  destruct (Hmany Sample.twentyfive eq_refl) as (w' & p' & Hrun & Hp' & Hnotes & Hsc).
  exists w', p', (reverse (drop 5 (createdEach "uuid-0" Sample.twentyfive
                                     Sample.registered))).
  split; [exact Hrun|]. split; [exact Hp'|]. split; [exact Hnotes|].
  split; [vm_compute; reflexivity|]. split; [vm_compute; reflexivity|].
  exact Hsc.
Defined.

(** ** Search *)

#[local] Instance newer_patient_trans : Transitive newer_patient.
Proof. unfold newer_patient. intros a b c; lia. Qed.

Lemma StronglySorted_filter {A : Type} (R : relation A) (f : A -> bool)
    (l : list A) :
  StronglySorted R l -> StronglySorted R (List.filter f l).
Proof.
  induction 1 as [|x l _ IH Hx]; simpl; [constructor|].
  destruct (f x); [|assumption]. constructor; [assumption|].
  apply Forall_forall. intros y Hy. apply list_elem_of_In, filter_In in Hy as [Hy _].
  rewrite Forall_forall in Hx. now apply Hx, list_elem_of_In.
Qed.

Lemma filter_always {A : Type} (f : A -> bool) (l : list A) :
  (forall x, f x = true) -> List.filter f l = l.
Proof.
  intros Hf. induction l as [|x l IH]; simpl; [reflexivity|].
  now rewrite Hf, IH.
Qed.

Lemma matchesSearch_spec (term : string) (p : Patient.t) :
  matchesSearch (JS.toLowerCase term) p = true <-> Matches term p.
Proof.
  unfold matchesSearch, Matches.
  rewrite !orb_true_iff, !includes_ci_contains. tauto.
Qed.

Lemma searchPatients_run (term : string) (w : World) (all : list Patient.t) :
  getPatients w = (Ok all, w) ->
  searchPatients term w =
    (Ok (List.filter (matchesSearch (JS.toLowerCase term)) all), w).
Proof.
  intros Hall. unfold searchPatients, rethrow, try_catch, bind.
  rewrite Hall. reflexivity.
Qed.


(** C10.  With the empty term, [searchPatients] returns the whole listing
    of [getPatients]: every stored record, newest first. *)
Theorem search_empty_term_returns_all (w : World) :
  exists all,
    getPatients w = (Ok all, w)
    /\ searchPatients EmptyString w = (Ok all, w)
    /\ (forall p, p ∈ all <-> exists k, patients w !! k = Some p)
    /\ Sorted newer_patient all.
Proof.
  destruct (getPatients_spec w) as (all & Hall & Hin & Hsorted & _).
  exists all. split; [exact Hall|]. split; [|split; assumption].
  rewrite (searchPatients_run EmptyString w all Hall). f_equal. f_equal.
  apply filter_always. intros p. unfold matchesSearch. simpl.
  now rewrite includes_empty.
Qed.

Example search_fever_ignores_case :
  (Patient.id <$>
     default [] (match fst (searchPatients "fever" Sample.registered) with
                 | Ok found => Some found
                 | Throw _ => None
                 end)) = ["uuid-0"]
  /\ fst (searchPatients "cough" Sample.registered) = Ok [].
Proof. vm_compute. split; reflexivity. Qed.

(** ** Export *)

Lemma escapeCSVValue_guard (v : string) :
  (JS.includes v ","
   || JS.includes_char v JS.dquote
   || JS.includes_char v JS.LF
   || JS.includes_char v JS.CR) = true
  <-> needs_quoting v.
Proof.
  change (JS.includes v ",") with (JS.includes_char v ","%char).
  rewrite !orb_true_iff, !includes_char_spec. unfold needs_quoting. split.
  - intros [[[H|H]|H]|H]; eexists; (split; [|exact H]); auto.
  - intros [c [[->|[->|[->| ->]]] H]]; auto.
Qed.

Lemma escapeCSVValue_Cell (v : string) : Cell v (escapeCSVValue v).
Proof.
  unfold Cell, escapeCSVValue.
  destruct (JS.includes v "," || JS.includes_char v JS.dquote
            || JS.includes_char v JS.LF || JS.includes_char v JS.CR) eqn:Hg.
  - left. split; [now apply escapeCSVValue_guard|].
    rewrite replace_dquote_doubled. reflexivity.
  - right. split; [|reflexivity]. rewrite <- escapeCSVValue_guard, Hg. discriminate.
Qed.

Lemma patientToCSVRow_valid (p : Patient.t) (w : World) :
  JS.validTime (Patient.timestamp p) = true ->
  patientToCSVRow p w = (Ok (csv_row p), w).
Proof.
  intros Hv. unfold patientToCSVRow, formatTimestamp, bind. rewrite Hv. reflexivity.
Qed.

Lemma rows_valid (all : list Patient.t) (w : World) :
  (forall p, p ∈ all -> JS.validTime (Patient.timestamp p) = true) ->
  mapM patientToCSVRow all w = (Ok (csv_row <$> all), w).
Proof.
  induction all as [|p all IH]; intros Hv; [reflexivity|].
  simpl. unfold bind. rewrite patientToCSVRow_valid by (apply Hv; left).
  rewrite IH by (intros q Hq; apply Hv; now right). reflexivity.
Qed.

(** C9.  On a store whose timestamps are valid time values: [exportToCSV]
    returns the no-data message when the store is empty, and otherwise the
    header line followed by one line per record of the listing of
    [getPatients], in its order; a line joins with commas the cells of the
    identifier, the name, the age, the symptoms joined with semicolons, the
    condition, the triage level and the ISO string of the timestamp; a
    value that holds a comma, a double quote or a line break is written
    between double quotes with its double quotes doubled, and any other
    value is written as it is. *)
Theorem exportToCSV_table_or_sentinel (w : World) :
  valid_timestamps w ->
  exists all,
    getPatients w = (Ok all, w)
    /\ (patients w = ∅ ->
        exportToCSV w = (Ok "No patient data available for export", w))
    /\ (patients w <> ∅ ->
        exportToCSV w =
          (Ok (JS.join (JS.str JS.LF)
                 ("Patient ID,Name,Age,Symptoms,Condition,Triage Level,Timestamp"
                  :: (csv_row <$> all))), w))
    /\ (forall v, Cell v (escapeCSVValue v))
    /\ escapeCSVValue ("O" +:+ JS.str JS.dquote +:+ "Brien, J.")
       = JS.str JS.dquote +:+ "O" +:+ JS.str JS.dquote +:+ JS.str JS.dquote
         +:+ "Brien, J." +:+ JS.str JS.dquote.
Proof.
  intros Hvalid.
  destruct (getPatients_spec w) as (all & Hall & Hin & _ & Hlen).
  exists all. split; [exact Hall|].
  assert (forall p, p ∈ all -> JS.validTime (Patient.timestamp p) = true) as Hv.
  { intros p Hp. apply Hin in Hp as [k Hk]. exact (Hvalid k p Hk). }
  split; [|split; [|split; [apply escapeCSVValue_Cell | reflexivity]]].
  - intros Hempty. unfold exportToCSV, rethrow, try_catch, bind. rewrite Hall.
    rewrite Hlen, Hempty, map_size_empty. reflexivity.
  - intros Hne. unfold exportToCSV, rethrow, try_catch, bind. rewrite Hall.
    destruct (Nat.eqb_spec (length all) 0) as [Hzero|_].
    + exfalso. apply Hne. apply map_size_empty_iff. congruence.
    + rewrite rows_valid by exact Hv. reflexivity.
Qed.

Lemma registered_valid_timestamps : valid_timestamps Sample.registered.
Proof.
  assert (patients Sample.registered = <["uuid-0" := Sample.record]> ∅) as H
    by (vm_compute; reflexivity).
  intros k p. rewrite H. intros Hk.
  apply lookup_insert_Some in Hk as [[_ <-]|[_ Hk]]; [reflexivity|].
  now rewrite lookup_empty in Hk.
Qed.

Lemma exportToCSV_table_or_sentinel_witness :
  valid_timestamps Sample.registered
  /\ fst (exportToCSV Sample.registered) =
       Ok ("Patient ID,Name,Age,Symptoms,Condition,Triage Level,Timestamp"
           +:+ JS.str JS.LF +:+ "uuid-0," +:+ JS.str JS.dquote +:+ "O"
           +:+ JS.str JS.dquote +:+ JS.str JS.dquote +:+ "Brien, J."
           +:+ JS.str JS.dquote
           +:+ ",34,fever;rash,High Fever since Monday,Urgent,2024-01-15T14:30:45.000Z").
Proof.
  split; [exact registered_valid_timestamps|].
  destruct (exportToCSV_table_or_sentinel Sample.registered registered_valid_timestamps)
    as (all & Hall & _ & Htable & _).
  rewrite Htable.
  - assert (all = [Sample.record]) as ->; [|vm_compute; reflexivity].
    assert (Ok all = Ok [Sample.record]) as H; [|now injection H].
    change (Ok all) with (fst (Ok all, Sample.registered)).
    rewrite <- Hall. vm_compute. reflexivity.
  - intros H. pose proof registered_record as Hr. rewrite H in Hr. discriminate.
Defined.

Example exportToCSV_empty_store :
  fst (exportToCSV Sample.start) = Ok "No patient data available for export".
Proof. vm_compute. reflexivity. Qed.

(** A time value that is no valid date makes the export fail. *)
Example formatTimestamp_invalid :
  fst (formatTimestamp 8640000000000001 Sample.start) = Throw "Invalid time value".
Proof. reflexivity. Qed.

(** ** The name of an export file *)

(** C4, on the code.  The name depends on the clock reading alone, and has
    the prefix, an underscore, the first 19 characters of the ISO string
    with its colons replaced, a period and the extension.  The "T" between
    the date and the time stays: at 2024-01-15T14:30:45Z the name is
    [triage-export_2024-01-15T14-30-45.csv]. *)
Theorem generateTimestampedFilename_keeps_T :
  (forall prefix extension w1 w2,
     clock w1 0%nat = clock w2 0%nat ->
     fst (generateTimestampedFilename prefix extension w1)
     = fst (generateTimestampedFilename prefix extension w2))
  /\ (forall w,
        fst (generateTimestampedFilename "triage-export" "csv"
               (mkWorld (patients w) (fun _ => 1705329045000) (entropy w)
                  (constraintError w)))
        = Ok "triage-export_2024-01-15T14-30-45.csv")
  /\ "triage-export_2024-01-15T14-30-45.csv"
     <> "triage-export_2024-01-15_14-30-45.csv".
Proof.
  split; [|split].
  - intros prefix extension w1 w2 Hclock.
    unfold generateTimestampedFilename, bind, Date_now. simpl. now rewrite Hclock.
  - intros w. vm_compute. reflexivity.
  - discriminate.
Qed.

(** * The rest of the services: invariants, failures and compositions *)

(** ** What every call keeps *)

Section Preserves.
Context (I : World -> Prop).

Lemma preserves_ret {A : Type} (a : A) : preserves I (ret a).
Proof. intros w r w' HI E. unfold ret in E. now injection E as _ <-. Qed.

Lemma preserves_throw {A : Type} (e : string) : preserves I (@throw A e).
Proof. intros w r w' HI E. unfold throw in E. now injection E as _ <-. Qed.

Lemma preserves_bind {A B : Type} (m : M A) (k : A -> M B) :
  preserves I m -> (forall a, preserves I (k a)) -> preserves I (bind m k).
Proof.
  intros Hm Hk w r w' HI E. unfold bind in E.
  destruct (m w) as [[a|e] w1] eqn:Em.
  - exact (Hk a w1 r w' (Hm w _ w1 HI Em) E).
  - injection E as _ <-. exact (Hm w _ w1 HI Em).
Qed.

Lemma preserves_try_catch {A : Type} (m : M A) (h : string -> M A) :
  preserves I m -> (forall e, preserves I (h e)) -> preserves I (try_catch m h).
Proof.
  intros Hm Hh w r w' HI E. unfold try_catch in E.
  destruct (m w) as [[a|e] w1] eqn:Em.
  - injection E as _ <-. exact (Hm w _ w1 HI Em).
  - exact (Hh e w1 r w' (Hm w _ w1 HI Em) E).
Qed.

Lemma preserves_rethrow {A : Type} (context : string) (m : M A) :
  preserves I m -> preserves I (rethrow context m).
Proof.
  intros Hm. apply preserves_try_catch; [exact Hm|].
  intros e. apply preserves_throw.
Qed.

End Preserves.

Lemma sound_same_table (w w' : World) :
  patients w' = patients w -> valid_clock w' -> sound w -> sound w'.
Proof.
  intros Hp Hc (Hk & Ht & _). unfold sound, keyed, valid_timestamps.
  rewrite Hp. auto.
Qed.

Lemma sound_Date_now : preserves sound Date_now.
Proof.
  intros w r w' Hs E. unfold Date_now in E. injection E as _ <-.
  apply (sound_same_table w); [reflexivity| |exact Hs].
  intros n. apply Hs.
Qed.

Lemma sound_randomUUID : preserves sound randomUUID.
Proof.
  intros w r w' Hs E. unfold randomUUID in E. injection E as _ <-.
  apply (sound_same_table w); [reflexivity| |exact Hs]. apply Hs.
Qed.

Lemma sound_get (key : string) : preserves sound (Table.get key).
Proof. intros w r w' Hs E. unfold Table.get in E. now injection E as _ <-. Qed.

Lemma sound_update (key : string) (c : Changes.t) :
  preserves sound (Table.update key c).
Proof.
  intros w r w' (Hk & Ht & Hc) E. unfold Table.update in E.
  destruct (patients w !! key) as [p|] eqn:Hp; injection E as _ <-;
    [|now repeat split].
  split; [|split; [|exact Hc]]; intros k q; simpl; intros Hq;
    apply lookup_insert_Some in Hq as [[<- <-]|[_ Hq]]; simpl; eauto.
Qed.

Lemma sound_delete (key : string) : preserves sound (Table.delete key).
Proof.
  intros w r w' (Hk & Ht & Hc) E. unfold Table.delete in E. injection E as _ <-.
  split; [|split; [|exact Hc]]; intros k q; simpl; intros Hq;
    apply lookup_delete_Some in Hq as [_ Hq]; eauto.
Qed.

Lemma sound_clear : preserves sound Index.clear.
Proof.
  intros w r w' (Hk & Ht & Hc) E. unfold Index.clear in E. injection E as _ <-.
  split; [|split; [|exact Hc]]; intros k q; simpl; intros Hq;
    now rewrite lookup_empty in Hq.
Qed.

(** Walks a service method down to the table and the oracles. *)
Ltac preserve :=
  repeat first
    [ apply preserves_rethrow
    | apply preserves_try_catch; [|intros ?]
    | apply preserves_bind; [|intros ?]
    | apply preserves_ret
    | apply preserves_throw
    | apply sound_Date_now
    | apply sound_randomUUID
    | apply sound_get
    | apply sound_update
    | apply sound_delete
    | apply sound_clear
    | match goal with
      | |- preserves _ (match ?x with _ => _ end) => destruct x
      end ].

Lemma sound_updatePatient (i : string) (u : PatientUpdate.t) :
  preserves sound (updatePatient i u).
Proof.
  unfold updatePatient, trackStatusChanges, newChanges,
    trackStatus, trackTriage, trackNotes, trackTreatment.
  preserve.
Qed.

Lemma sound_addHandoverNote (i : string) (n : HandoverNoteInput.t) :
  preserves sound (addHandoverNote i n).
Proof. unfold addHandoverNote. preserve. Qed.

Lemma sound_deletePatient (i : string) : preserves sound (deletePatient i).
Proof. unfold deletePatient. preserve. Qed.

Lemma sound_clearAllPatients : preserves sound clearAllPatients.
Proof. unfold clearAllPatients. preserve. Qed.

Lemma sound_addPatient (patient : NewPatient.t) :
  preserves sound (addPatient patient).
Proof.
  intros w r w' (Hk & Ht & Hc) E.
  unfold addPatient, rethrow, try_catch, bind, randomUUID, Date_now, Table.add in E.
  simpl in E.
  assert (valid_clock (mkWorld (patients w) (fun n => clock w (S n)) (entropy w)
       (constraintError w)))
    as Hc' by (intros n; apply Hc).
  destruct (patients w !! entropy w 0%nat) eqn:Hfree; simpl in E;
    injection E as _ <-.
  - now repeat split.
  - split; [|split; [|exact Hc']]; intros k q; simpl; intros Hq;
      apply lookup_insert_Some in Hq as [[<- <-]|[_ Hq]]; simpl; eauto.
Qed.

Lemma sound_perform (c : Call) (w : World) : sound w -> sound (perform c w).
Proof.
  intros Hs. destruct c as [patient|i u|i n|i|]; simpl.
  - exact (sound_addPatient patient w _ _ Hs (surjective_pairing _)).
  - exact (sound_updatePatient i u w _ _ Hs (surjective_pairing _)).
  - exact (sound_addHandoverNote i n w _ _ Hs (surjective_pairing _)).
  - exact (sound_deletePatient i w _ _ Hs (surjective_pairing _)).
  - exact (sound_clearAllPatients w _ _ Hs (surjective_pairing _)).
Qed.

Lemma sound_replay (history : list Call) (w : World) :
  sound w -> sound (replay history w).
Proof.
  revert w. induction history as [|c history IH]; intros w Hs; [exact Hs|].
  simpl. apply IH. now apply sound_perform.
Qed.

Lemma opening_sound : sound Ward.opening.
Proof.
  split; [|split].
  - intros k p Hp. change ((∅ : gmap string Patient.t) !! k = Some p) in Hp.
    now rewrite lookup_empty in Hp.
  - intros k p Hp. change ((∅ : gmap string Patient.t) !! k = Some p) in Hp.
    now rewrite lookup_empty in Hp.
  - intros n. unfold JS.validTime. simpl. apply andb_true_iff.
    split; apply Z.leb_le; lia.
Qed.

(** X1.  Every history of writing calls keeps the store sound: from a store
    keyed by [id] whose timestamps and clock are valid, every record stays
    under its own [id] and every stored timestamp stays a valid time
    value, whether the calls succeed or fail. *)
Theorem history_keeps_store_sound (history : list Call) (w : World) :
  keyed w -> valid_timestamps w -> valid_clock w ->
  keyed (replay history w)
  /\ valid_timestamps (replay history w)
  /\ valid_clock (replay history w).
Proof. intros Hk Ht Hc. now apply sound_replay. Qed.

Lemma history_keeps_store_sound_witness :
  (keyed Ward.opening /\ valid_timestamps Ward.opening /\ valid_clock Ward.opening)
  /\ keyed Ward.noon /\ valid_timestamps Ward.noon /\ valid_clock Ward.noon.
Proof.
  split; [exact opening_sound|].
  destruct opening_sound as (Hk & Ht & Hc).
  exact (history_keeps_store_sound Ward.morning Ward.opening Hk Ht Hc).
Defined.

Lemma rows_invalid (all : list Patient.t) (w : World) (p : Patient.t) :
  p ∈ all -> JS.validTime (Patient.timestamp p) = false ->
  mapM patientToCSVRow all w = (Throw "Invalid time value", w).
Proof.
  induction all as [|q all IH]; intros Hp Hinv; [inversion Hp|].
  simpl. unfold bind at 1.
  destruct (JS.validTime (Patient.timestamp q)) eqn:Hq.
  - rewrite (patientToCSVRow_valid q w Hq). unfold bind.
    rewrite IH; [reflexivity| |exact Hinv].
    apply elem_of_cons in Hp as [->|Hp]; [congruence | exact Hp].
  - unfold patientToCSVRow, formatTimestamp, bind, throw. now rewrite Hq.
Qed.




(** X3.  [exportToCSV] fails as soon as one stored record has a timestamp
    that is no valid time value: the call rejects with the message of the
    range error, and produces no part of a table. *)
Theorem export_fails_on_invalid_time (w : World) (k : string) (p : Patient.t) :
  patients w !! k = Some p ->
  JS.validTime (Patient.timestamp p) = false ->
  exportToCSV w = (Throw "Failed to export CSV: Invalid time value", w).
Proof.
  intros Hp Hinv. destruct (getPatients_spec w) as (all & Hall & Hin & _ & Hlen).
  assert (p ∈ all) as Hpall by (apply Hin; eauto).
  unfold exportToCSV, rethrow, try_catch, bind. rewrite Hall.
  destruct (Nat.eqb_spec (length all) 0) as [Hzero|_].
  - destruct all; [inversion Hpall | discriminate].
  - now rewrite (rows_invalid all w p Hpall Hinv).
Qed.

Lemma export_fails_on_invalid_time_witness :
  (exists p,
     patients Ward.corrupt !! "uuid-0" = Some p
     /\ JS.validTime (Patient.timestamp p) = false)
  /\ fst (exportToCSV Ward.corrupt)
     = Throw "Failed to export CSV: Invalid time value".
Proof.
  split; [eexists; split; [apply lookup_singleton_eq | reflexivity]|].
  rewrite (export_fails_on_invalid_time Ward.corrupt "uuid-0" _
             (lookup_singleton_eq _ _) eq_refl).
  reflexivity.
Defined.

(** ** Writes that touch one record *)

Lemma dom_insert_stored (m : gmap string Patient.t) (i : string) (p q : Patient.t) :
  m !! i = Some p -> dom (<[i := q]> m) = dom m.
Proof. intros Hp. apply dom_insert_lookup_L. eauto. Qed.

(** X4.  [updatePatient] and [addHandoverNote] never add or remove a
    record: whatever the identifier and the payload, the set of keys of
    the table is the same afterwards; and for an identifier that is not
    stored both fail with a not-found message and change nothing at all,
    the clock and the identifier source included. *)
Theorem update_and_note_touch_one_record (i : string) (w : World) :
  (forall u, dom (patients (snd (updatePatient i u w))) = dom (patients w))
  /\ (forall n, dom (patients (snd (addHandoverNote i n w))) = dom (patients w))
  /\ (patients w !! i = None ->
      (forall u,
         updatePatient i u w =
           (Throw ("Failed to update patient: Patient with ID " +:+ i
                   +:+ " not found"), w))
      /\ (forall n,
            addHandoverNote i n w =
              (Throw ("Failed to add handover note: Patient with ID " +:+ i
                      +:+ " not found"), w))).
Proof.
  split; [|split].
  - intros u. destruct (patients w !! i) as [p|] eqn:Hp.
    + destruct (updatePatient_found i u w p Hp) as (w' & Hrun & Hpat).
      rewrite Hrun. simpl. rewrite Hpat. now apply (dom_insert_stored _ _ p).
    + now rewrite updatePatient_missing.
  - intros n. destruct (patients w !! i) as [p|] eqn:Hp.
    + destruct (addHandoverNote_found i n w p Hp) as (w' & Hrun & Hpat).
      rewrite Hrun. simpl. rewrite Hpat. now apply (dom_insert_stored _ _ p).
    + now rewrite addHandoverNote_missing.
  - intros Hp. split; intros x;
      [now apply updatePatient_missing | now apply addHandoverNote_missing].
Qed.

(** X5.  [addPatient] never overwrites: when the identifier drawn is
    already a key, the call fails, its message the prefix of the method
    followed by the message of the engine's constraint error, whatever
    that text is, and every stored record is as it was. *)
Theorem addPatient_never_overwrites (patient : NewPatient.t) (w : World)
    (p : Patient.t) :
  patients w !! entropy w 0%nat = Some p ->
  fst (addPatient patient w)
    = Throw ("Failed to add patient: " +:+ constraintError w)
  /\ patients (snd (addPatient patient w)) = patients w.
Proof.
  intros Hused.
  destruct (addPatient_duplicate patient w p Hused) as (w' & -> & Hsame).
  now split.
Qed.

Lemma addPatient_never_overwrites_witness :
  (exists p, patients Ward.colliding !! entropy Ward.colliding 0%nat = Some p)
  /\ fst (addPatient (Ward.intake "Ehab" Urgent) Ward.colliding)
     = Throw ("Failed to add patient: " +:+ constraintError Ward.colliding)
  /\ (Patient.name <$>
        patients (snd (addPatient (Ward.intake "Ehab" Urgent) Ward.colliding))
          !! "id-1") = Some "Basil".
Proof.
  assert (exists p, patients Ward.colliding !! entropy Ward.colliding 0%nat = Some p)
    as [p Hp] by (vm_compute; eexists; reflexivity).
  split; [now exists p|].
  destruct (addPatient_never_overwrites (Ward.intake "Ehab" Urgent)
              Ward.colliding p Hp) as [Hfail Hsame].
  split; [exact Hfail|]. rewrite Hsame. vm_compute. reflexivity.
Defined.

(** ** Counting and clearing *)

Lemma getPatientCount_run (w : World) :
  getPatientCount w = (Ok (Z.of_nat (size (patients w))), w).
Proof. reflexivity. Qed.

(** X6.  [getPatientCount] agrees with [getPatients]: it returns the length
    of the listing.  [deletePatient] lowers it by one when the identifier
    was stored and leaves it when it was not. *)
Theorem count_agrees_with_listing (w : World) :
  exists all,
    getPatients w = (Ok all, w)
    /\ getPatientCount w = (Ok (Z.of_nat (length all)), w)
    /\ forall i,
         fst (getPatientCount (snd (deletePatient i w)))
         = Ok (Z.of_nat (length all)
               - match patients w !! i with Some _ => 1 | None => 0 end).
Proof.
  destruct (getPatients_spec w) as (all & Hall & _ & _ & Hlen).
  exists all. split; [exact Hall|]. rewrite Hlen.
  split; [apply getPatientCount_run|].
  intros i. rewrite deletePatient_run, getPatientCount_run. simpl. f_equal.
  destruct (patients w !! i) as [p|] eqn:Hp.
  - pose proof (map_size_delete_Some i (patients w) (ex_intro _ p Hp)) as Hsize.
    assert (size (patients w) <> 0%nat) as Hne.
    { intros Hzero. apply map_size_empty_iff in Hzero. rewrite Hzero in Hp.
      now rewrite lookup_empty in Hp. }
    lia.
  - rewrite delete_id by exact Hp. lia.
Qed.

(** X7.  A successful [addPatient] raises the count by one. *)
Theorem addPatient_raises_count (patient : NewPatient.t) (w : World) :
  patients w !! entropy w 0%nat = None ->
  exists n,
    getPatientCount w = (Ok n, w)
    /\ fst (getPatientCount (snd (addPatient patient w))) = Ok (n + 1).
Proof.
  intros Hfree. eexists. split; [apply getPatientCount_run|].
  rewrite getPatientCount_run. simpl. f_equal.
  unfold addPatient, rethrow, try_catch, bind, randomUUID, Date_now, Table.add.
  simpl. rewrite Hfree. simpl.
  rewrite map_size_insert_None by exact Hfree. lia.
Qed.

Lemma addPatient_raises_count_witness :
  patients Ward.noon !! entropy Ward.noon 0%nat = None
  /\ fst (getPatientCount Ward.noon) = Ok 3
  /\ fst (getPatientCount (snd (addPatient (Ward.intake "Ehab" Urgent) Ward.noon)))
     = Ok 4.
Proof.
  assert (patients Ward.noon !! entropy Ward.noon 0%nat = None) as Hfree
    by (vm_compute; reflexivity).
  split; [exact Hfree|]. split; [vm_compute; reflexivity|].
  destruct (addPatient_raises_count (Ward.intake "Ehab" Urgent) Ward.noon Hfree)
    as (n & Hn & Hafter).
  rewrite Hafter. f_equal.
  assert (fst (getPatientCount Ward.noon) = Ok n) as Hcount by now rewrite Hn.
  vm_compute in Hcount. injection Hcount as <-. reflexivity.
Defined.

(** X8.  After [clearAllPatients] the store is empty for every reader: no
    identifier is found, the listing is empty, the count is 0, the export
    is the no-data message, and an update of any identifier fails. *)
Theorem clear_empties_the_store (w : World) :
  exists w',
    clearAllPatients w = (Ok tt, w')
    /\ (forall i, Table.get i w' = (Ok None, w'))
    /\ getPatients w' = (Ok [], w')
    /\ getPatientCount w' = (Ok 0, w')
    /\ exportToCSV w' = (Ok "No patient data available for export", w')
    /\ (forall i u,
          fst (updatePatient i u w')
          = Throw ("Failed to update patient: Patient with ID " +:+ i
                   +:+ " not found")).
Proof.
  eexists. split; [reflexivity|].
  set (w' := mkWorld ∅ (clock w) (entropy w) (constraintError w)).
  assert (forall i, patients w' !! i = None) as Hnone
    by (intros i; apply lookup_empty).
  destruct (getPatients_spec w') as (all & Hall & _ & _ & Hlen).
  assert (all = []) as -> by (destruct all; [reflexivity | discriminate]).
  split; [intros i; unfold Table.get; now rewrite Hnone|].
  split; [exact Hall|]. split; [reflexivity|]. split.
  - unfold exportToCSV, rethrow, try_catch, bind. now rewrite Hall.
  - intros i u. now rewrite (updatePatient_missing i u w' (Hnone i)).
Qed.

(** ** Queries by triage level and by status *)

Lemma by_timestamp_asym (p q : Patient.t) :
  Index.by_timestamp p q < 0 -> ~ Index.by_timestamp q p < 0.
Proof.
  unfold Index.by_timestamp.
  destruct (Z.ltb_spec (Patient.timestamp p) (Patient.timestamp q));
    destruct (Z.ltb_spec (Patient.timestamp q) (Patient.timestamp p)); lia.
Qed.

Lemma by_timestamp_order (p q : Patient.t) :
  may_precede Index.by_timestamp p q ->
  Patient.timestamp p <= Patient.timestamp q.
Proof.
  unfold may_precede, Index.by_timestamp.
  destruct (Z.ltb_spec (Patient.timestamp q) (Patient.timestamp p)); lia.
Qed.

Lemma in_key_order_elem (w : World) (p : Patient.t) :
  p ∈ in_key_order w <-> exists k, patients w !! k = Some p.
Proof.
  unfold in_key_order. rewrite Array_sort_Permutation, list_elem_of_fmap. split.
  - intros [[k q] [-> Hkq]]. exists k. now apply elem_of_map_to_list.
  - intros [k Hk]. exists (k, p). split; [reflexivity|].
    now apply elem_of_map_to_list.
Qed.

Lemma in_key_order_length (w : World) :
  length (in_key_order w) = size (patients w).
Proof.
  unfold in_key_order. rewrite length_fmap, Array_sort_length.
  apply length_map_to_list.
Qed.

Lemma getPatientsByTriageLevel_run (level : TriageLevel) (w : World) :
  getPatientsByTriageLevel level w =
    (Ok (reverse
           (JS.Array_sort Index.by_timestamp
              (List.filter
                 (fun p => bool_decide (Patient.triageLevel p = level))
                 (in_key_order w)))), w).
Proof. reflexivity. Qed.

Lemma levels_partition (l : list Patient.t) :
  (length (List.filter (fun p => bool_decide (Patient.triageLevel p = Critical)) l)
   + length (List.filter (fun p => bool_decide (Patient.triageLevel p = Urgent)) l)
   + length (List.filter (fun p => bool_decide (Patient.triageLevel p = Stable)) l))%nat
  = length l.
Proof.
  induction l as [|p l IH]; [reflexivity|].
  simpl. destruct (Patient.triageLevel p); simpl; lia.
Qed.

(** X9.  [getPatientsByTriageLevel] succeeds and returns the stored records
    of the level asked for, all of them and no others, newest first; the
    three levels split the store: the lengths of the three answers add up
    to the count. *)
Theorem byTriageLevel_splits_the_store (w : World) :
  (forall level,
     exists found,
       getPatientsByTriageLevel level w = (Ok found, w)
       /\ (forall p,
             p ∈ found <->
             (exists k, patients w !! k = Some p)
             /\ Patient.triageLevel p = level)
       /\ Sorted newer_patient found)
  /\ exists critical urgent stable,
       getPatientsByTriageLevel Critical w = (Ok critical, w)
       /\ getPatientsByTriageLevel Urgent w = (Ok urgent, w)
       /\ getPatientsByTriageLevel Stable w = (Ok stable, w)
       /\ getPatientCount w
          = (Ok (Z.of_nat (length critical + length urgent + length stable)), w).
Proof.
  split.
  - intros level. eexists. split; [apply getPatientsByTriageLevel_run|]. split.
    + intros p.
      rewrite elem_of_reverse, Array_sort_Permutation, list_elem_of_In, filter_In,
        <- list_elem_of_In, in_key_order_elem, bool_decide_eq_true.
      reflexivity.
    + apply (Sorted_reverse
               (fun p q => Patient.timestamp p <= Patient.timestamp q)).
      eapply Sorted_weaken; [apply by_timestamp_order|].
      apply Array_sort_Sorted, by_timestamp_asym.
  - eexists _, _, _. repeat (split; [apply getPatientsByTriageLevel_run|]).
    rewrite getPatientCount_run, !length_reverse, !Array_sort_length,
      levels_partition, in_key_order_length.
    reflexivity.
Qed.

(** X10.  [getPatientsByStatus] fails for every status and every store: the
    schema declares no index on [status], and the table rejects a query on
    a key path that is not indexed.  The store is left as it is. *)
Theorem byStatus_always_fails (status : PatientStatus) (w : World) :
  getPatientsByStatus status w =
    (Throw "Failed to retrieve patients by status: KeyPath status on object store patients is not indexed",
     w).
Proof. reflexivity. Qed.

(** ** What an update reads of its payload *)

(** X11.  [updatePatient] ignores what its payload gives for [id],
    [timestamp], [lastUpdated] and [statusChanges]: two payloads that
    agree on every other key have the same result and leave the same
    store.  A caller cannot set the audit trail or the modification time
    through an update. *)
Theorem update_ignores_reserved_keys (i : string) (u u' : PatientUpdate.t)
    (w : World) :
  same_allowed (PatientUpdate.rest u) (PatientUpdate.rest u') ->
  updatePatient i u w = updatePatient i u' w.
Proof.
  destruct u as [uid uts ur], u' as [uid' uts' ur'].
  destruct ur, ur'. unfold same_allowed. simpl.
  intros (? & ? & ? & ? & ? & ? & ? & ? & ? & ? & ? & ? & ? & ?). subst.
  reflexivity.
Qed.

Lemma update_ignores_reserved_keys_witness :
  same_allowed (PatientUpdate.rest Ward.plain) (PatientUpdate.rest Ward.forged)
  /\ updatePatient "id-2" Ward.plain Ward.noon
     = updatePatient "id-2" Ward.forged Ward.noon
  /\ fst (updatePatient "id-2" Ward.forged Ward.noon) = Ok tt.
Proof.
  assert (same_allowed (PatientUpdate.rest Ward.plain)
            (PatientUpdate.rest Ward.forged)) as Hsame
    by (repeat split).
  split; [exact Hsame|]. split.
  - exact (update_ignores_reserved_keys "id-2" Ward.plain Ward.forged Ward.noon
             Hsame).
  - vm_compute. reflexivity.
Defined.

(** ** Repeating an update *)

Lemma Array_sort_sorted {A : Type} (cmp : A -> A -> Z) (l : list A) :
  Sorted (may_precede cmp) l -> JS.Array_sort cmp l = l.
Proof.
  induction 1 as [|x l Hl IH Hhd]; [reflexivity|].
  simpl. fold (JS.Array_sort cmp l). rewrite IH.
  destruct Hhd as [|y l' Hxy]; [reflexivity|]. simpl.
  destruct (Z.ltb_spec (cmp y x) 0); [contradiction | reflexivity].
Qed.

Lemma retain_tidy (l : list StatusChange.t) :
  Sorted newer_change l -> (length l <= 50)%nat -> retain l [] = l.
Proof.
  intros Hs Hlen. unfold retain, JS.Array_slice0. rewrite app_nil_r.
  rewrite Array_sort_sorted; [now apply take_ge|].
  eapply Sorted_weaken; [|exact Hs].
  unfold may_precede, newest_first, newer_change, changeTime. intros a b. lia.
Qed.

Lemma trackStatus_settled (p : Patient.t) (u : Changes.t) (time : Z) (w : World) :
  (forall s, Changes.status u = Some s -> Patient.status p = s) ->
  trackStatus p u time w = (Ok [], w).
Proof.
  intros H. unfold trackStatus. destruct (Changes.status u) as [s|]; [|reflexivity].
  rewrite (bool_decide_eq_true_2 _ (eq_sym (H s eq_refl))).
  now rewrite andb_false_r.
Qed.

Lemma trackTriage_settled (p : Patient.t) (u : Changes.t) (time : Z) (w : World) :
  (forall l, Changes.triageLevel u = Some l -> Patient.triageLevel p = l) ->
  trackTriage p u time w = (Ok [], w).
Proof.
  intros H. unfold trackTriage.
  destruct (Changes.triageLevel u) as [l|]; [|reflexivity].
  rewrite (bool_decide_eq_true_2 _ (eq_sym (H l eq_refl))).
  now rewrite andb_false_r.
Qed.

Lemma trackNotes_settled (p : Patient.t) (u : Changes.t) (time : Z) (w : World) :
  (forall n, Changes.notes u = Some n -> Patient.notes p = n) ->
  trackNotes p u time w = (Ok [], w).
Proof.
  intros H. unfold trackNotes. destruct (Changes.notes u) as [n|]; [|reflexivity].
  rewrite (H n eq_refl), String.eqb_refl. now rewrite andb_false_r.
Qed.

Lemma trackTreatment_settled (p : Patient.t) (u : Changes.t) (time : Z)
    (w : World) :
  (forall t, Changes.treatmentPlan u = Some t -> Patient.treatmentPlan p = Some t) ->
  trackTreatment p u time w = (Ok [], w).
Proof.
  intros H. unfold trackTreatment.
  destruct (Changes.treatmentPlan u) as [t|]; [|reflexivity].
  rewrite (bool_decide_eq_true_2 _ (eq_sym (H t eq_refl))).
  now rewrite andb_false_r.
Qed.

Lemma default_default {A : Type} (a : A) (o : option A) :
  default (default a o) o = default a o.
Proof. now destruct o. Qed.

Lemma over_over {A : Type} (o a : option A) :
  Table.over o (Table.over o a) = Table.over o a.
Proof. now destruct o. Qed.

(** X12.  Repeating an update changes nothing but [lastUpdated]: the second
    call of [updatePatient] with the same payload synthesizes no status
    change, and leaves the record as the first call left it but for the
    new modification time. *)
Theorem repeated_update_only_touches_lastUpdated (i : string)
    (u : PatientUpdate.t) (w : World) (p : Patient.t) :
  patients w !! i = Some p ->
  exists w1 w2 p1,
    updatePatient i u w = (Ok tt, w1)
    /\ patients w1 !! i = Some p1
    /\ updatePatient i u w1 = (Ok tt, w2)
    /\ synthesized i u w1 = []
    /\ patients w2 !! i =
         Some (Table.modify
                 (Changes.mk None None None None None None None
                    (Some (clock w1 1%nat))
                    None None None None None None None None)
                 p1).
Proof.
  intros Hp. destruct (updatePatient_found i u w p Hp) as (w1 & Hrun1 & Hpat1).
  set (new := synthesized i u w) in *. fold (held p) in Hpat1.
  pose proof (updated_tidy (PatientUpdate.rest u) (clock w 1%nat) p new)
    as [Hheld (_ & Hsorted & Hlen)]. simpl in Hheld, Hsorted, Hlen.
  set (p1 := Table.modify _ p) in *.
  assert (patients w1 !! i = Some p1) as Hp1
    by (rewrite Hpat1; apply lookup_insert_eq).
  destruct (updatePatient_found i u w1 p1 Hp1) as (w2 & Hrun2 & Hpat2).
  assert (synthesized i u w1 = []) as Hnone.
  { unfold synthesized. rewrite Hp1. unfold newChanges, bind.
    rewrite trackStatus_settled, trackTriage_settled, trackNotes_settled,
      trackTreatment_settled; [reflexivity| | | |];
      intros x Hx; subst p1; simpl; rewrite Hx; reflexivity. }
  exists w1, w2, p1. split; [exact Hrun1|]. split; [exact Hp1|].
  split; [exact Hrun2|]. split; [exact Hnone|].
  rewrite Hpat2, lookup_insert_eq, Hnone. f_equal.
  fold (held p1). rewrite Hheld, retain_tidy by assumption.
  subst p1. unfold Table.modify, updatesWithTimestamp. simpl.
  f_equal; try apply default_default; try apply over_over; reflexivity.
Qed.

Lemma repeated_update_only_touches_lastUpdated_witness :
  (exists p, patients Ward.noon !! "id-2" = Some p)
  /\ synthesized "id-2" Ward.plain Ward.noon <> []
  /\ synthesized "id-2" Ward.plain (snd (updatePatient "id-2" Ward.plain Ward.noon))
     = [].
Proof.
  assert (exists p, patients Ward.noon !! "id-2" = Some p) as [p Hp]
    by (vm_compute; eexists; reflexivity).
  split; [now exists p|]. split; [vm_compute; discriminate|].
  destruct (repeated_update_only_touches_lastUpdated "id-2" Ward.plain
              Ward.noon p Hp) as (w1 & w2 & p1 & Hrun1 & _ & _ & Hnone & _).
  now rewrite Hrun1.
Defined.

(** ** The export statistics *)

(** X13.  [getExportStats] succeeds, and its numbers add up: the three
    counts by triage level sum to the total, and the total is the count of
    the store. *)
Theorem export_stats_add_up (w : World) :
  exists stats,
    getExportStats w = (Ok stats, w)
    /\ ExportStats.criticalCount stats + ExportStats.urgentCount stats
       + ExportStats.stableCount stats = ExportStats.totalPatients stats
    /\ getPatientCount w = (Ok (ExportStats.totalPatients stats), w).
Proof.
  destruct (getPatients_spec w) as (all & Hall & _ & _ & Hlen).
  eexists. split.
  - unfold getExportStats, rethrow, try_catch, bind. rewrite Hall. reflexivity.
  - simpl. split.
    + unfold countLevel. pose proof (levels_partition all). lia.
    + rewrite Hlen. apply getPatientCount_run.
Qed.

(** ** Escaping is faithful *)

Lemma doubled_inj (a b : string) : doubled a = doubled b -> a = b.
Proof.
  revert b. induction a as [|c a IH]; intros [|d b]; simpl.
  - reflexivity.
  - destruct (Ascii.eqb d JS.dquote); discriminate.
  - destruct (Ascii.eqb c JS.dquote); discriminate.
  - destruct (Ascii.eqb_spec c JS.dquote) as [->|Hc];
      destruct (Ascii.eqb_spec d JS.dquote) as [->|Hd]; intros H.
    + injection H as H. f_equal. now apply IH.
    + injection H as H1 H2. congruence.
    + injection H as H1 H2. congruence.
    + injection H as -> H. f_equal. now apply IH.
Qed.

Lemma snoc_inj (a b : string) (c : ascii) :
  a +:+ JS.str c = b +:+ JS.str c -> a = b.
Proof.
  revert b. induction a as [|x a IH]; intros [|y b]; simpl; intros H.
  - reflexivity.
  - injection H as _ H. destruct b; discriminate.
  - injection H as _ H. destruct a; discriminate.
  - injection H as -> H. f_equal. now apply IH.
Qed.

Lemma quoted_needs_quoting (v rest : string) :
  v = String JS.dquote rest -> needs_quoting v.
Proof. intros ->. exists JS.dquote. split; [auto | now left]. Qed.

(** X14.  [escapeCSVValue] loses nothing: two values with the same cell are
    the same value, so a cell determines the value it was written from. *)
Theorem escapeCSVValue_injective (a b : string) :
  escapeCSVValue a = escapeCSVValue b -> a = b.
Proof.
  destruct (escapeCSVValue_Cell a) as [[Ha ->]|[Ha ->]];
    destruct (escapeCSVValue_Cell b) as [[Hb ->]|[Hb ->]]; intros H.
  - unfold quoted in H. injection H as H. now apply doubled_inj, (snoc_inj _ _ JS.dquote).
  - exfalso. apply Hb. now apply (quoted_needs_quoting b _ (eq_sym H)).
  - exfalso. apply Ha. now apply (quoted_needs_quoting a _ H).
  - exact H.
Qed.

Lemma escapeCSVValue_injective_witness :
  escapeCSVValue "a,b" = escapeCSVValue "a,b"
  /\ escapeCSVValue "a,b" = JS.str JS.dquote +:+ "a,b" +:+ JS.str JS.dquote.
Proof.
  split; [|reflexivity].
  exact (f_equal escapeCSVValue
           (escapeCSVValue_injective "a,b" "a,b" eq_refl)).
Defined.

(** ** The shape of an export file name *)

Lemma append_length (a b : string) :
  String.length (a +:+ b) = (String.length a + String.length b)%nat.
Proof. induction a as [|c a IH]; simpl; [reflexivity | now rewrite IH]. Qed.

Lemma pad_fuel_length (w : nat) (n : Z) (acc : string) :
  String.length (JS.pad_fuel w n acc) = (w + String.length acc)%nat.
Proof.
  revert n acc. induction w as [|w IH]; intros n acc; simpl; [reflexivity|].
  rewrite IH. simpl. lia.
Qed.

Lemma pad_length (w : nat) (n : Z) : String.length (JS.pad w n) = w.
Proof. unfold JS.pad. rewrite pad_fuel_length. simpl. lia. Qed.

Lemma toISOString_length (t : Z) : (24 <= String.length (JS.toISOString t))%nat.
Proof.
  unfold JS.toISOString. destruct (JS.civil_from_days _) as [[y m] d].
  assert (4 <= String.length (JS.iso_year y))%nat as Hyear.
  { unfold JS.iso_year.
    destruct (_ && _); [|destruct (_ <? _)];
      rewrite ?append_length, pad_length; simpl; lia. }
  rewrite !append_length, !pad_length.
  revert Hyear. generalize (String.length (JS.iso_year y)). intros k Hk.
  simpl. lia.
Qed.

Lemma replace_char_length (c r : ascii) (s : string) :
  String.length (JS.replace_all c (JS.str r) s) = String.length s.
Proof.
  unfold JS.str. induction s as [|a s IH]; simpl; [reflexivity|].
  destruct (Ascii.eqb a c); simpl; rewrite ?empty_append; now rewrite IH.
Qed.

Lemma slice0_length (n : nat) (s : string) :
  (n <= String.length s)%nat -> String.length (JS.slice0 n s) = n.
Proof.
  revert s. induction n as [|n IH]; intros [|a s] Hn; simpl in *;
    try reflexivity; try lia.
  rewrite IH; [reflexivity | lia].
Qed.

Lemma replace_char_In (c r x : ascii) (s : string) :
  In x (list_ascii_of_string (JS.replace_all c (JS.str r) s)) ->
  x = r \/ (x <> c /\ In x (list_ascii_of_string s)).
Proof.
  unfold JS.str. induction s as [|a s IH]; simpl; [tauto|].
  destruct (Ascii.eqb_spec a c) as [->|Hne]; simpl; rewrite ?empty_append.
  - intros [H|H]; [now left|]. destruct (IH H) as [?|[? ?]]; auto.
  - intros [H|H]; [right; split; [congruence | now left]|].
    destruct (IH H) as [?|[? ?]]; auto.
Qed.

Lemma slice0_In (n : nat) (x : ascii) (s : string) :
  In x (list_ascii_of_string (JS.slice0 n s)) -> In x (list_ascii_of_string s).
Proof.
  revert s. induction n as [|n IH]; intros [|a s]; simpl; try tauto.
  intros [H|H]; [now left | right; now apply IH].
Qed.

(** X15.  For every clock reading, [generateTimestampedFilename] returns
    the prefix, an underscore, a stamp, a period and the extension, where
    the stamp has exactly 19 characters and holds neither a colon nor a
    period: what is added to the prefix and the extension is safe in a
    file name and has one period, before the extension. *)
Theorem filename_stamp_is_safe (prefix extension : string) (w : World) :
  exists stamp,
    fst (generateTimestampedFilename prefix extension w)
    = Ok (prefix +:+ "_" +:+ stamp +:+ "." +:+ extension)
    /\ String.length stamp = 19%nat
    /\ ~ In ":"%char (list_ascii_of_string stamp)
    /\ ~ In "."%char (list_ascii_of_string stamp).
Proof.
  eexists. split; [reflexivity|]. split.
  - apply slice0_length.
    change "-" with (JS.str "-"). rewrite !replace_char_length.
    pose proof (toISOString_length (clock w 0%nat)). lia.
  - change "-" with (JS.str "-").
    split; intros H; apply slice0_In in H;
      apply replace_char_In in H as [H|[H1 H]]; try discriminate;
      try congruence;
      apply replace_char_In in H as [H|[H2 H]]; try discriminate; congruence.
Qed.

(** ** The classifier *)

Lemma includes_trimStart (s k : string) :
  starts_solid k = true ->
  JS.includes (JSText.trimStart s) k = JS.includes s k.
Proof.
  intros Hk. destruct k as [|k0 k]; [discriminate|]. simpl in Hk.
  induction s as [|c s IH]; [reflexivity|].
  cbn [JSText.trimStart]. destruct (JSText.is_space c) eqn:Hc; [|reflexivity].
  rewrite IH. cbn [JS.includes JS.startsWith].
  destruct (Ascii.eqb_spec c k0) as [->|_]; [|reflexivity].
  rewrite Hc in Hk. discriminate.
Qed.

Lemma startsWith_cons (a b : ascii) (s t : string) :
  JS.startsWith (String a s) (String b t)
  = if Ascii.eqb a b then JS.startsWith s t else false.
Proof. reflexivity. Qed.

Lemma startsWith_empty (s : string) : JS.startsWith s EmptyString = true.
Proof. now destruct s. Qed.

Lemma startsWith_trimEnd (k s : string) :
  ends_solid k = true ->
  JS.startsWith (JSText.trimEnd s) k = JS.startsWith s k.
Proof.
  revert s. induction k as [|k0 k IH]; intros s Hk; [discriminate|].
  destruct s as [|c s]; [reflexivity|].
  rewrite (startsWith_cons c k0 s k). cbn [JSText.trimEnd]. destruct k as [|k1 k].
  - simpl in Hk. rewrite startsWith_empty.
    destruct (JSText.trimEnd s) as [|r0 r].
    + destruct (JSText.is_space c) eqn:Hc.
      * destruct (Ascii.eqb_spec c k0) as [->|_]; [|reflexivity].
        rewrite Hc in Hk. discriminate.
      * rewrite startsWith_cons. now destruct (Ascii.eqb c k0).
    + rewrite startsWith_cons, startsWith_empty. reflexivity.
  - assert (ends_solid (String k1 k) = true) as Hk' by exact Hk.
    rewrite <- (IH s Hk').
    destruct (JSText.trimEnd s) as [|r0 r] eqn:Hr.
    + destruct (JSText.is_space c); rewrite ?startsWith_cons;
        destruct (Ascii.eqb c k0); reflexivity.
    + now rewrite startsWith_cons.
Qed.

Lemma includes_trimEnd (s k : string) :
  ends_solid k = true ->
  JS.includes (JSText.trimEnd s) k = JS.includes s k.
Proof.
  intros Hk. induction s as [|c s IH]; [reflexivity|].
  cbn [JS.includes]. rewrite <- IH, <- (startsWith_trimEnd k (String c s) Hk).
  cbn [JSText.trimEnd].
  destruct (JSText.trimEnd s) as [|r0 r]; [|reflexivity].
  destruct (JSText.is_space c); [|reflexivity].
  destruct k; [discriminate | reflexivity].
Qed.

Lemma includes_trim (s k : string) :
  plain_keyword k = true ->
  JS.includes (JSText.trim s) (JS.toLowerCase k) = JS.includes s k.
Proof.
  unfold plain_keyword. rewrite !andb_true_iff. intros [[Hs He] Hl].
  apply String.eqb_eq in Hl. rewrite Hl. unfold JSText.trim.
  rewrite includes_trimEnd by exact He. now apply includes_trimStart.
Qed.

Lemma keywords_plain :
  forallb plain_keyword
    (Triage.criticalConditionKeywords ++ Triage.urgentConditionKeywords) = true
  /\ forallb (fun k => String.eqb (JS.toLowerCase k) k)
       (Triage.criticalSymptoms ++ Triage.urgentSymptoms) = true.
Proof. vm_compute. split; reflexivity. Qed.

Lemma assignTriageLevel_indicators (symptoms : list string) (condition : string) :
  Triage.assignTriageLevel symptoms condition =
    if indicator Triage.criticalSymptoms Triage.criticalConditionKeywords
         symptoms condition
    then Critical
    else if indicator Triage.urgentSymptoms Triage.urgentConditionKeywords
              symptoms condition
         then Urgent
         else Stable.
Proof. reflexivity. Qed.

Lemma or_iff_both (A B C D : Prop) :
  (A <-> B) -> (C <-> D) -> (A \/ C <-> B \/ D).
Proof. tauto. Qed.

Lemma related_spec (s known : string) :
  JS.includes (normalized s) (JS.toLowerCase known)
  || JS.includes (JS.toLowerCase known) (normalized s) = true
  <-> related s known.
Proof.
  unfold normalized, related.
  rewrite <- toLowerCase_trim, orb_true_iff, !includes_ci_contains. split.
  - intros H. exists (JSText.trim s). split; [apply trim_stripped | exact H].
  - intros (entry & Hentry & H). apply stripped_trim in Hentry. now subst.
Qed.

Lemma keyword_spec (condition k : string) :
  plain_keyword k = true ->
  JS.includes (normalized condition) (JS.toLowerCase k) = true
  <-> ci_contains condition k.
Proof.
  intros Hk. unfold normalized. rewrite (includes_trim _ k Hk).
  unfold plain_keyword in Hk. apply andb_true_iff in Hk as [_ Hl].
  apply String.eqb_eq in Hl. rewrite <- Hl at 1.
  apply includes_ci_contains.
Qed.

Lemma indicator_spec (knownSymptoms keywords symptoms : list string)
    (condition : string) :
  forallb plain_keyword keywords = true ->
  indicator knownSymptoms keywords symptoms condition = true
  <-> indicated knownSymptoms keywords symptoms condition.
Proof.
  intros Hkeys. rewrite forallb_forall in Hkeys.
  unfold indicator, indicated. rewrite orb_true_iff, !existsb_exists.
  apply or_iff_both.
  - split.
    + intros (k & Hk & Hsome). apply existsb_exists in Hsome as (n & Hn & Hrel).
      apply in_map_iff in Hn as (s & <- & Hs). exists s, k.
      split; [exact Hs|]. split; [exact Hk|]. now apply related_spec.
    + intros (s & k & Hs & Hk & Hrel). exists k. split; [exact Hk|].
      apply existsb_exists. exists (normalized s).
      split; [now apply in_map|]. now apply related_spec.
  - split; intros (k & Hk & Hin); exists k; (split; [exact Hk|]);
      now apply (keyword_spec condition k (Hkeys k Hk)).
Qed.

Lemma critical_spec (symptoms : list string) (condition : string) :
  indicator Triage.criticalSymptoms Triage.criticalConditionKeywords
    symptoms condition = true
  <-> indicated Triage.criticalSymptoms Triage.criticalConditionKeywords
        symptoms condition.
Proof.
  destruct keywords_plain as [Hkeys _]. rewrite forallb_app in Hkeys.
  apply andb_true_iff in Hkeys as [Hkeys _]. now apply indicator_spec.
Qed.

Lemma urgent_spec (symptoms : list string) (condition : string) :
  indicator Triage.urgentSymptoms Triage.urgentConditionKeywords
    symptoms condition = true
  <-> indicated Triage.urgentSymptoms Triage.urgentConditionKeywords
        symptoms condition.
Proof.
  destruct keywords_plain as [Hkeys _]. rewrite forallb_app in Hkeys.
  apply andb_true_iff in Hkeys as [_ Hkeys]. now apply indicator_spec.
Qed.

(** X16.  [assignTriageLevel] returns Critical exactly when an entered
    symptom is related to a critical symptom name (the entry without the
    white space around it contains the name or is contained in it, case
    set aside) or the condition notes contain a critical keyword, case set
    aside; Urgent exactly when that is not so and the same holds of the
    urgent names and keywords; and Stable exactly when neither holds.
    White space around the condition notes plays no part.  What white
    space is, and what the same letter in the other case is, is said by
    the codes of the characters ([white], [same_letter]), not by the
    built-ins the classifier calls. *)
Theorem assignTriageLevel_characterised (symptoms : list string)
    (condition : string) :
  let critical :=
    indicated Triage.criticalSymptoms Triage.criticalConditionKeywords
      symptoms condition in
  let urgent :=
    indicated Triage.urgentSymptoms Triage.urgentConditionKeywords
      symptoms condition in
  (Triage.assignTriageLevel symptoms condition = Critical <-> critical)
  /\ (Triage.assignTriageLevel symptoms condition = Urgent <->
      ~ critical /\ urgent)
  /\ (Triage.assignTriageLevel symptoms condition = Stable <->
      ~ critical /\ ~ urgent).
Proof.
  simpl. rewrite assignTriageLevel_indicators.
  rewrite <- critical_spec, <- urgent_spec.
  destruct (indicator Triage.criticalSymptoms _ _ _);
    destruct (indicator Triage.urgentSymptoms _ _ _);
    repeat split; try discriminate; try tauto; intros; intuition discriminate.
Qed.

Lemma existsb_pairs {A B : Type} (h : A -> B -> bool) (K : list A)
    (l1 l2 : list B) :
  existsb (fun k => existsb (h k) (l1 ++ l2)%list) K
  = existsb (fun k => existsb (h k) l1) K
    || existsb (fun k => existsb (h k) l2) K.
Proof.
  induction K as [|k K IH]; [reflexivity|]. simpl. rewrite IH, existsb_app.
  destruct (existsb (h k) l1), (existsb (h k) l2),
    (existsb (fun k => existsb (h k) l1) K),
    (existsb (fun k => existsb (h k) l2) K); reflexivity.
Qed.

Lemma indicator_app (knownSymptoms keywords s1 s2 : list string)
    (condition : string) :
  indicator knownSymptoms keywords (s1 ++ s2)%list condition
  = indicator knownSymptoms keywords s1 condition
    || indicator knownSymptoms keywords s2 condition.
Proof.
  unfold indicator. rewrite List.map_app.
  rewrite (existsb_pairs
             (fun known symptom =>
                JS.includes symptom (JS.toLowerCase known)
                || JS.includes (JS.toLowerCase known) symptom)).
  destruct (existsb _ knownSymptoms), (existsb _ knownSymptoms),
    (existsb _ keywords); reflexivity.
Qed.

Lemma assignTriageLevel_app (s1 s2 : list string) (condition : string) :
  Triage.assignTriageLevel (s1 ++ s2)%list condition
  = most_urgent (Triage.assignTriageLevel s1 condition)
      (Triage.assignTriageLevel s2 condition).
Proof.
  rewrite !assignTriageLevel_indicators, !indicator_app.
  destruct (indicator Triage.criticalSymptoms _ s1 _),
    (indicator Triage.criticalSymptoms _ s2 _),
    (indicator Triage.urgentSymptoms _ s1 _),
    (indicator Triage.urgentSymptoms _ s2 _); reflexivity.
Qed.

(** X17.  The level of two lists of symptoms together is the more urgent of
    their levels, the condition notes being the same; so entering more
    symptoms never lowers the level. *)
Theorem more_symptoms_never_lower_the_level (s1 s2 : list string)
    (condition : string) :
  Triage.assignTriageLevel (s1 ++ s2)%list condition
  = most_urgent (Triage.assignTriageLevel s1 condition)
      (Triage.assignTriageLevel s2 condition)
  /\ triagePriority (Triage.assignTriageLevel (s1 ++ s2)%list condition)
     <= triagePriority (Triage.assignTriageLevel s1 condition)
  /\ triagePriority (Triage.assignTriageLevel (s1 ++ s2)%list condition)
     <= triagePriority (Triage.assignTriageLevel s2 condition).
Proof.
  rewrite assignTriageLevel_app. split; [reflexivity|].
  destruct (Triage.assignTriageLevel s1 condition),
    (Triage.assignTriageLevel s2 condition); simpl; lia.
Qed.

(** X18.  A blank symptom makes the level Critical: when an entry of the
    symptom list is empty, or holds nothing but white space (tab, line
    feed, vertical tab, form feed, carriage return, space, no-break
    space), the empty string that is left of it occurs in every critical
    symptom name, and the patient is classified Critical whatever else
    was entered. *)
Theorem blank_symptom_is_critical (symptoms : list string) (condition s : string) :
  In s symptoms ->
  blank s ->
  Triage.assignTriageLevel symptoms condition = Critical.
Proof.
  intros Hs Hblank. rewrite assignTriageLevel_indicators.
  rewrite (proj2 (critical_spec symptoms condition)); [reflexivity|].
  left. exists s, "bleeding heavily". split; [exact Hs|].
  split; [now left|]. exists EmptyString. split.
  - rewrite <- (proj2 (trim_blank s) Hblank). apply trim_stripped.
  - right. exists EmptyString, EmptyString, "bleeding heavily".
    split; [reflexivity | constructor].
Qed.

Lemma blank_symptom_is_critical_witness :
  (In Ward.nbsp_entry ["mild cough"; Ward.nbsp_entry] /\ blank Ward.nbsp_entry)
  /\ Triage.assignTriageLevel ["mild cough"] "resting" = Stable
  /\ Triage.assignTriageLevel ["mild cough"; Ward.nbsp_entry] "resting"
     = Critical.
Proof.
  assert (blank Ward.nbsp_entry) as Hblank.
  { intros c [<-|[<-|[]]]; vm_compute;
      repeat (first [left; reflexivity | right]). }
  split; [split; [right; now left | exact Hblank]|].
  split; [vm_compute; reflexivity|].
  exact (blank_symptom_is_critical ["mild cough"; Ward.nbsp_entry] "resting"
           Ward.nbsp_entry (or_intror (or_introl eq_refl)) Hblank).
Defined.

(** The predefined options, one at a time, with empty condition notes. *)
Lemma options_alone :
  Forall (fun x => Triage.assignTriageLevel [x] EmptyString = Critical)
    SYMPTOM_OPTIONS_critical
  /\ Forall (fun x => Triage.assignTriageLevel [x] EmptyString = Urgent)
       SYMPTOM_OPTIONS_urgent
  /\ Forall (fun x => Triage.assignTriageLevel [x] EmptyString = Stable)
       SYMPTOM_OPTIONS_stable.
Proof.
  repeat split;
    repeat (apply List.Forall_cons; [vm_compute; repeat split|]);
    apply List.Forall_nil.
Qed.

Lemma listed_spec (l : list string) (x : string) :
  listed l x = true <-> In x l.
Proof.
  unfold listed. rewrite existsb_exists. split.
  - intros (y & Hy & Heq). apply String.eqb_eq in Heq. now subst.
  - intros Hx. exists x. split; [exact Hx | apply String.eqb_refl].
Qed.

Lemma options_groups :
  Forall (fun x => listed SYMPTOM_OPTIONS_critical x = true)
    SYMPTOM_OPTIONS_critical
  /\ Forall (fun x => listed SYMPTOM_OPTIONS_critical x = false
                      /\ listed SYMPTOM_OPTIONS_urgent x = true)
       SYMPTOM_OPTIONS_urgent
  /\ Forall (fun x => listed SYMPTOM_OPTIONS_critical x = false
                      /\ listed SYMPTOM_OPTIONS_urgent x = false)
       SYMPTOM_OPTIONS_stable.
Proof.
  repeat split;
    repeat (apply List.Forall_cons; [vm_compute; repeat split|]);
    apply List.Forall_nil.
Qed.

Lemma selection_level (selection : list string) :
  Forall (fun x => In x SYMPTOM_OPTIONS) selection ->
  Triage.assignTriageLevel selection EmptyString =
    if existsb (listed SYMPTOM_OPTIONS_critical) selection then Critical
    else if existsb (listed SYMPTOM_OPTIONS_urgent) selection then Urgent
         else Stable.
Proof.
  destruct options_alone as (Hc & Hu & Hs).
  destruct options_groups as (Gc & Gu & Gs).
  rewrite List.Forall_forall in Hc, Hu, Hs, Gc, Gu, Gs.
  induction selection as [|x selection IH]; intros Hsel; [reflexivity|].
  apply List.Forall_cons_iff in Hsel as [Hx Hsel].
  change (x :: selection) with ([x] ++ selection)%list.
  rewrite assignTriageLevel_app, (IH Hsel). cbn [existsb app].
  unfold SYMPTOM_OPTIONS in Hx. rewrite !in_app_iff in Hx.
  destruct Hx as [Hx|[Hx|Hx]].
  - rewrite (Hc x Hx), (Gc x Hx). simpl.
    now destruct (existsb (listed SYMPTOM_OPTIONS_critical) selection),
      (existsb (listed SYMPTOM_OPTIONS_urgent) selection).
  - rewrite (Hu x Hx), (proj1 (Gu x Hx)), (proj2 (Gu x Hx)). simpl.
    now destruct (existsb (listed SYMPTOM_OPTIONS_critical) selection),
      (existsb (listed SYMPTOM_OPTIONS_urgent) selection).
  - rewrite (Hs x Hx), (proj1 (Gs x Hx)), (proj2 (Gs x Hx)). simpl.
    now destruct (existsb (listed SYMPTOM_OPTIONS_critical) selection),
      (existsb (listed SYMPTOM_OPTIONS_urgent) selection).
Qed.

Lemma existsb_none {A : Type} (f : A -> bool) (l : list A) :
  (forall x, In x l -> f x = false) -> existsb f l = false.
Proof.
  intros H. destruct (existsb f l) eqn:E; [|reflexivity].
  apply existsb_exists in E as (x & Hx & Hfx). rewrite (H x Hx) in Hfx.
  discriminate.
Qed.

(** X19.  For a selection among the predefined symptom options, with empty
    condition notes, the level is the group of the most urgent option
    selected: Critical when an option of the critical group is selected,
    else Urgent when one of the urgent group is, else (the selection may
    be empty) Stable.  The classifier agrees with the groups the form
    declares. *)
Theorem selection_level_is_most_urgent_group (selection : list string) :
  Forall (fun x => In x SYMPTOM_OPTIONS) selection ->
  ((exists x, In x selection /\ In x SYMPTOM_OPTIONS_critical) ->
   Triage.assignTriageLevel selection EmptyString = Critical)
  /\ ((forall x, In x selection -> ~ In x SYMPTOM_OPTIONS_critical) ->
      (exists x, In x selection /\ In x SYMPTOM_OPTIONS_urgent) ->
      Triage.assignTriageLevel selection EmptyString = Urgent)
  /\ ((forall x, In x selection -> In x SYMPTOM_OPTIONS_stable) ->
      Triage.assignTriageLevel selection EmptyString = Stable).
Proof.
  intros Hsel. rewrite (selection_level selection Hsel).
  destruct options_groups as (_ & _ & Gs). rewrite List.Forall_forall in Gs.
  split; [|split].
  - intros (x & Hx & Hxc).
    assert (existsb (listed SYMPTOM_OPTIONS_critical) selection = true) as ->
      by (apply existsb_exists; exists x; split; [exact Hx | now apply listed_spec]).
    reflexivity.
  - intros Hnone (x & Hx & Hxu).
    rewrite existsb_none.
    + assert (existsb (listed SYMPTOM_OPTIONS_urgent) selection = true) as ->
        by (apply existsb_exists; exists x; split;
            [exact Hx | now apply listed_spec]).
      reflexivity.
    + intros y Hy. destruct (listed SYMPTOM_OPTIONS_critical y) eqn:E;
        [|reflexivity].
      apply listed_spec in E. now apply Hnone in E.
  - intros Hstable.
    rewrite !existsb_none; [reflexivity| |];
      intros y Hy; apply (Gs y (Hstable y Hy)).
Qed.

Lemma selection_level_is_most_urgent_group_witness :
  Forall (fun x => In x SYMPTOM_OPTIONS) ["mild cough"; "fever"; "fatigue"]
  /\ Triage.assignTriageLevel ["mild cough"; "fever"; "fatigue"] EmptyString
     = Urgent.
Proof.
  assert (Forall (fun x => In x SYMPTOM_OPTIONS) ["mild cough"; "fever"; "fatigue"])
    as Hsel by (repeat constructor; simpl; tauto).
  split; [exact Hsel|].
  apply (proj1 (proj2 (selection_level_is_most_urgent_group _ Hsel))).
  - intros x Hx Hc. simpl in Hx, Hc. intuition (subst; discriminate).
  - exists "fever". simpl. tauto.
Defined.

(** ** The dashboard queue *)

Lemma byPriority_asym (a b : Patient.t) :
  byPriority a b < 0 -> ~ byPriority b a < 0.
Proof.
  unfold byPriority.
  destruct (Z.eqb_spec (triagePriority (Patient.triageLevel a)
                        - triagePriority (Patient.triageLevel b)) 0);
    destruct (Z.eqb_spec (triagePriority (Patient.triageLevel b)
                          - triagePriority (Patient.triageLevel a)) 0);
    simpl; lia.
Qed.

Lemma byPriority_order (a b : Patient.t) :
  may_precede byPriority a b -> queue_order a b.
Proof.
  unfold may_precede, byPriority, queue_order.
  destruct (Z.eqb_spec (triagePriority (Patient.triageLevel b)
                        - triagePriority (Patient.triageLevel a)) 0) as [Heq|Hne];
    simpl; intros H.
  - right. split; [|lia].
    destruct (Patient.triageLevel a), (Patient.triageLevel b);
      simpl in Heq; try reflexivity; lia.
  - left. lia.
Qed.

#[local] Instance queue_order_trans : Transitive queue_order.
Proof.
  unfold queue_order. intros a b c [Hab|[Hab Hab']] [Hbc|[Hbc Hbc']].
  - left. lia.
  - left. rewrite <- Hbc. exact Hab.
  - left. rewrite Hab. exact Hbc.
  - right. split; [congruence | lia].
Qed.

(** X20.  [sortPatientsByPriority] rearranges the list it is given, losing
    and adding nothing, into the order of the queue: every patient stands
    before all patients of a less urgent level, and before all patients of
    the same level that were created earlier. *)
Theorem dashboard_queue_is_ordered (patients : list Patient.t) :
  sortPatientsByPriority patients ≡ₚ patients
  /\ StronglySorted queue_order (sortPatientsByPriority patients).
Proof.
  unfold sortPatientsByPriority. split; [apply Array_sort_Permutation|].
  apply Sorted_StronglySorted; [apply _|].
  eapply Sorted_weaken; [apply byPriority_order|].
  apply Array_sort_Sorted, byPriority_asym.
Qed.

(** ** The recent status changes of a record *)

Lemma recent_filter (t : Z) (changes : list StatusChange.t) :
  List.filter (fun c => t <? StatusChange.timestamp c) changes
  = filter (fun c => t < changeTime c) changes.
Proof.
  unfold changeTime. induction changes as [|c changes IH]; [reflexivity|].
  simpl. rewrite filter_cons, IH.
  destruct (Z.ltb_spec t (StatusChange.timestamp c));
    destruct (decide (t < StatusChange.timestamp c)); try lia; reflexivity.
Qed.

(** X21.  [getRecentStatusChanges] shows at most five entries, newest
    first, each one an entry of the record made less than 24 hours before
    the clock reading; the entries of the last 24 hours that it leaves out
    are no newer than any it shows.  For a record without status changes
    it shows nothing and does not read the clock. *)
Theorem recent_changes_are_the_newest (p : Patient.t) (w : World) :
  (Patient.statusChanges p = None ->
   getRecentStatusChanges p w = (Ok [], w))
  /\ forall changes,
       Patient.statusChanges p = Some changes ->
       exists shown hidden w',
         getRecentStatusChanges p w = (Ok shown, w')
         /\ patients w' = patients w
         /\ (length shown <= 5)%nat
         /\ Sorted newer_change shown
         /\ (shown ++ hidden)%list
              ≡ₚ filter (fun c => clock w 0%nat - 86400000 < changeTime c) changes
         /\ (forall k h, k ∈ shown -> h ∈ hidden -> changeTime h <= changeTime k).
Proof.
  split; [intros Hnone; unfold getRecentStatusChanges; now rewrite Hnone|].
  intros changes Hsome.
  set (recent := List.filter
                   (fun c => clock w 0%nat - 24 * 60 * 60 * 1000
                             <? StatusChange.timestamp c) changes).
  pose proof (sorted_changes_newest_first recent) as Hsorted.
  rewrite <- (take_drop 5 (JS.Array_sort newest_first recent)) in Hsorted.
  exists (take 5 (JS.Array_sort newest_first recent)),
    (drop 5 (JS.Array_sort newest_first recent)).
  eexists. split.
  { unfold getRecentStatusChanges. rewrite Hsome. reflexivity. }
  split; [reflexivity|]. split; [rewrite length_take; lia|].
  split; [apply StronglySorted_Sorted; now apply StronglySorted_app_1_l in Hsorted|].
  split.
  - rewrite take_drop, Array_sort_Permutation. subst recent.
    now rewrite recent_filter.
  - intros k h Hk Hh.
    exact (StronglySorted_app_1_elem_of _ _ _ _ _ Hsorted Hk Hh).
Qed.

(** ** Refreshing the edit modal after a note *)

Lemma find_by_id (all : list Patient.t) (i : string) (p : Patient.t) :
  p ∈ all -> Patient.id p = i ->
  (forall q, q ∈ all -> Patient.id q = i -> q = p) ->
  List.find (fun q => String.eqb (Patient.id q) i) all = Some p.
Proof.
  intros Hp Hid Huniq.
  destruct (List.find _ all) as [q|] eqn:Hfind.
  - apply find_some in Hfind as [Hq Heq]. apply String.eqb_eq in Heq.
    f_equal. apply Huniq; [now apply list_elem_of_In | exact Heq].
  - exfalso. apply list_elem_of_In in Hp.
    pose proof (find_none _ _ Hfind p Hp) as Hne. simpl in Hne.
    rewrite Hid, String.eqb_refl in Hne. discriminate.
Qed.

(** X22.  In a store keyed by [id], [handleAddHandoverNote] for a patient
    that is stored adds the note and shows the record as it is stored
    afterwards, the new note first among at most 20, the error shown left
    as it was.  For a patient that is not stored it shows the not-found
    message, and keeps the patient shown and the store. *)
Theorem modal_shows_the_stored_record (w : World) (state : Modal.t)
    (note : HandoverNoteInput.t) :
  keyed w ->
  let i := Patient.id (Modal.currentPatient state) in
  (forall p,
     patients w !! i = Some p ->
     exists w' p',
       handleAddHandoverNote state note w
       = (Ok (Modal.mk p' (Modal.error state)), w')
       /\ patients w' !! i = Some p'
       /\ Patient.handoverNotes p' =
            Some (take 20 (createdNote i note w
                           :: default [] (Patient.handoverNotes p))))
  /\ (patients w !! i = None ->
      handleAddHandoverNote state note w
      = (Ok (Modal.mk (Modal.currentPatient state)
               (Some ("Failed to add handover note: Patient with ID " +:+ i
                      +:+ " not found"))), w)).
Proof.
  intros Hkeyed i. split.
  - intros p Hp.
    destruct (addHandoverNote_found i note w p Hp) as (w' & Hrun & Hpat).
    set (p' := with_handoverNotes _ _ p) in *.
    assert (patients w' !! i = Some p') as Hp'
      by (rewrite Hpat; apply lookup_insert_eq).
    assert (keyed w') as Hkeyed'.
    { intros k q. rewrite Hpat. intros Hq.
      apply lookup_insert_Some in Hq as [[<- <-]|[_ Hq]]; [|now apply Hkeyed].
      exact (Hkeyed i p Hp). }
    destruct (getPatients_spec w') as (all & Hall & Hin & _).
    exists w', p'. split; [|split; [exact Hp' | reflexivity]].
    unfold handleAddHandoverNote, try_catch, bind. fold i.
    rewrite Hrun, Hall.
    rewrite (find_by_id all i p'); [reflexivity| | |].
    + apply Hin. eauto.
    + exact (Hkeyed' i p' Hp').
    + intros q Hq Hid. apply Hin in Hq as [k Hk].
      pose proof (Hkeyed' k q Hk) as Hkq. rewrite Hid in Hkq. subst k.
      congruence.
  - intros Hp. unfold handleAddHandoverNote, try_catch, bind. fold i.
    now rewrite (addHandoverNote_missing i note w Hp).
Qed.

Lemma modal_shows_the_stored_record_witness :
  keyed Ward.noon
  /\ exists w' p',
       handleAddHandoverNote Ward.shown (Sample.note 2) Ward.noon
       = (Ok (Modal.mk p' None), w')
       /\ patients w' !! "id-0" = Some p'
       /\ length (default [] (Patient.handoverNotes p')) = 2%nat.
Proof.
  assert (keyed Ward.noon) as Hkeyed
    by exact (proj1 (sound_replay Ward.morning Ward.opening opening_sound)).
  split; [exact Hkeyed|].
  destruct (modal_shows_the_stored_record Ward.noon Ward.shown (Sample.note 2)
              Hkeyed) as [Hfound _].
  destruct (Hfound (default Sample.record (patients Ward.noon !! "id-0")))
    as (w' & p' & Hrun & Hp' & Hnotes).
  { vm_compute. reflexivity. }
  exists w', p'. split; [exact Hrun|]. split; [exact Hp'|].
  rewrite Hnotes. vm_compute. reflexivity.
Defined.

(** ** The two listings agree *)

Lemma key_le_trans (a b c : string) : key_le a b -> key_le b c -> key_le a c.
Proof.
  unfold key_le. intros Hab Hbc.
  destruct (String.compare a b) eqn:E1; [| |congruence].
  - apply OrderedTypeEx.String_as_OT.cmp_eq in E1. now subst b.
  - destruct (String.compare b c) eqn:E2; [| |congruence].
    + apply OrderedTypeEx.String_as_OT.cmp_eq in E2. subst c.
      rewrite E1. discriminate.
    + assert (String.compare a c = Lt) as ->; [|discriminate].
      apply OrderedTypeEx.String_as_OT.cmp_lt.
      eapply OrderedTypeEx.String_as_OT.lt_trans;
        apply OrderedTypeEx.String_as_OT.cmp_lt; eassumption.
Qed.

Lemma key_le_antisym (a b : string) : key_le a b -> key_le b a -> a = b.
Proof.
  unfold key_le. rewrite (String.compare_antisym a b). intros Hab Hba.
  destruct (String.compare b a) eqn:E; simpl in *; [|congruence|congruence].
  symmetry. now apply OrderedTypeEx.String_as_OT.cmp_eq.
Qed.

Lemma index_order_trans (p q r : Patient.t) :
  index_order p q -> index_order q r -> index_order p r.
Proof.
  unfold index_order. intros [H|[H1 H2]] [H'|[H1' H2']]; try (left; lia).
  right. split; [lia | now apply (key_le_trans _ (Patient.id q))].
Qed.

Lemma index_cmp_order (p q : Patient.t) :
  may_precede Table.index_cmp p q -> index_order p q.
Proof.
  unfold may_precede, Table.index_cmp, index_order, key_le. intros H.
  destruct (Z.ltb_spec (Patient.timestamp q) (Patient.timestamp p));
    [exfalso; apply H; lia|].
  destruct (Z.ltb_spec (Patient.timestamp p) (Patient.timestamp q));
    [left; lia|].
  right. split; [lia|].
  rewrite (String.compare_antisym (Patient.id p) (Patient.id q)).
  destruct (String.compare (Patient.id q) (Patient.id p)); simpl;
    [discriminate | exfalso; apply H; lia | discriminate].
Qed.

Lemma key_cmp_asym (a b : string * Patient.t) :
  Index.key_cmp a b < 0 -> ~ Index.key_cmp b a < 0.
Proof.
  unfold Index.key_cmp. rewrite (String.compare_antisym (fst a) (fst b)).
  destruct (String.compare (fst b) (fst a)); simpl; lia.
Qed.

Lemma key_cmp_order (a b : string * Patient.t) :
  may_precede Index.key_cmp a b -> key_le (fst a) (fst b).
Proof.
  unfold may_precede, Index.key_cmp, key_le.
  rewrite (String.compare_antisym (fst a) (fst b)).
  destruct (String.compare (fst b) (fst a)); simpl; intros H;
    [discriminate | exfalso; apply H; lia | discriminate].
Qed.

Lemma StronglySorted_fmap_on {A B : Type} (f : A -> B) (P : A -> Prop)
    (R1 : relation A) (R2 : relation B) (l : list A) :
  (forall x y, P x -> P y -> R1 x y -> R2 (f x) (f y)) ->
  Forall P l -> StronglySorted R1 l -> StronglySorted R2 (f <$> l).
Proof.
  intros HR HP Hs. induction Hs as [|x l Hs IH Hx]; csimpl; constructor.
  - apply IH. now inversion HP.
  - apply Forall_fmap. inversion HP as [|? ? Px Pl]; subst.
    rewrite Forall_forall in Hx, Pl. apply Forall_forall. intros y Hy.
    simpl. apply HR; auto.
Qed.

(** The table read in the order of the primary key is in the order of the
    identifiers, when the store is keyed by [id]. *)
Lemma in_key_order_sorted (w : World) :
  keyed w ->
  StronglySorted (fun p q => key_le (Patient.id p) (Patient.id q))
    (in_key_order w).
Proof.
  intros Hkeyed. unfold in_key_order.
  apply (StronglySorted_fmap_on snd
           (fun a => Patient.id (snd a) = fst a)
           (fun a b => key_le (fst a) (fst b))).
  - intros a b Ha Hb Hab. now rewrite Ha, Hb.
  - apply Forall_forall. intros [k p] Hin.
    rewrite Array_sort_Permutation in Hin.
    apply elem_of_map_to_list in Hin. simpl. now apply Hkeyed.
  - apply Sorted.Sorted_StronglySorted.
    + intros a b c. apply key_le_trans.
    + eapply Sorted_weaken; [apply key_cmp_order|].
      apply Array_sort_Sorted, key_cmp_asym.
Qed.

Lemma by_timestamp_lt (p q : Patient.t) :
  Index.by_timestamp p q < 0 <-> Patient.timestamp p < Patient.timestamp q.
Proof.
  unfold Index.by_timestamp.
  destruct (Z.ltb_spec (Patient.timestamp p) (Patient.timestamp q));
    destruct (Z.ltb_spec (Patient.timestamp q) (Patient.timestamp p)); lia.
Qed.

(** The sort is stable: records of one time keep the order they had. *)
Lemma sort_insert_stable (x : Patient.t) (l : list Patient.t) :
  StronglySorted index_order l ->
  Forall (fun z => key_le (Patient.id x) (Patient.id z)) l ->
  StronglySorted index_order (JS.sort_insert Index.by_timestamp x l).
Proof.
  induction l as [|y l IH]; intros Hs Hx; simpl.
  - repeat constructor.
  - apply StronglySorted_inv in Hs as [Hl Hy].
    rewrite Forall_forall in Hy.
    destruct (Z.ltb_spec (Index.by_timestamp y x) 0) as [Hlt|Hge].
    + apply by_timestamp_lt in Hlt. constructor.
      * apply IH; [exact Hl | now inversion Hx].
      * apply Forall_forall. intros z Hz.
        rewrite sort_insert_Permutation in Hz.
        apply elem_of_cons in Hz as [->|Hz]; [left; lia | now apply Hy].
    + assert (Patient.timestamp x <= Patient.timestamp y) as Hxy.
      { destruct (Z.lt_ge_cases (Patient.timestamp y) (Patient.timestamp x))
          as [Hc|Hc]; [apply by_timestamp_lt in Hc; lia | exact Hc]. }
      constructor; [constructor; [exact Hl | now apply Forall_forall]|].
      rewrite Forall_forall in Hx. apply Forall_forall. intros z Hz.
      assert (Patient.timestamp y <= Patient.timestamp z) as Hyz.
      { apply elem_of_cons in Hz as [->|Hz]; [lia|].
        destruct (Hy z Hz) as [?|[? _]]; lia. }
      destruct (decide (Patient.timestamp x < Patient.timestamp z));
        [now left|].
      right. split; [lia | now apply Hx].
Qed.

Lemma Array_sort_stable (l : list Patient.t) :
  StronglySorted (fun p q => key_le (Patient.id p) (Patient.id q)) l ->
  StronglySorted index_order (JS.Array_sort Index.by_timestamp l).
Proof.
  induction 1 as [|x l Hl IH Hx]; [constructor|].
  change (JS.Array_sort Index.by_timestamp (x :: l))
    with (JS.sort_insert Index.by_timestamp x
            (JS.Array_sort Index.by_timestamp l)).
  apply sort_insert_stable; [exact IH|].
  rewrite Forall_forall in Hx. apply Forall_forall. intros z Hz.
  rewrite Array_sort_Permutation in Hz. now apply Hx.
Qed.

Lemma List_filter_Permutation {A : Type} (f : A -> bool) (l l' : list A) :
  l ≡ₚ l' -> List.filter f l ≡ₚ List.filter f l'.
Proof.
  induction 1 as [|x l l' _ IH|x y l|l l' l'' _ IH _ IH']; simpl.
  - reflexivity.
  - destruct (f x); [now constructor | exact IH].
  - destruct (f x), (f y); try reflexivity. apply perm_swap.
  - now transitivity (List.filter f l').
Qed.

Lemma getPatients_run (w : World) :
  getPatients w =
    (Ok (reverse (JS.Array_sort Table.index_cmp
                    (snd <$> map_to_list (patients w)))), w).
Proof. reflexivity. Qed.

Lemma flip_index_order_trans : Transitive (flip index_order).
Proof. intros p q r Hpq Hqr. exact (index_order_trans r q p Hqr Hpq). Qed.

(** X23.  In a store keyed by [id], [getPatientsByTriageLevel] returns what
    [getPatients] lists, restricted to the level asked for, in the same
    order: the query on the index, its stable sort and its reversal give
    records of one time in the order the listing gives them. *)
Theorem byTriageLevel_is_the_listing_filtered (level : TriageLevel)
    (w : World) :
  keyed w ->
  exists all,
    getPatients w = (Ok all, w)
    /\ getPatientsByTriageLevel level w =
         (Ok (List.filter
                (fun p => bool_decide (Patient.triageLevel p = level)) all),
          w).
Proof.
  intros Hkeyed. eexists. split; [apply getPatients_run|].
  rewrite getPatientsByTriageLevel_run. f_equal. f_equal.
  apply (StronglySorted_unique_strong (flip index_order)).
  - intros p q Hp Hq Hpq Hqp. unfold flip in Hpq, Hqp.
    rewrite elem_of_reverse, Array_sort_Permutation, list_elem_of_In, filter_In,
      <- list_elem_of_In, in_key_order_elem in Hp.
    destruct Hp as [[k Hk] _].
    apply list_elem_of_In, filter_In in Hq as [Hq _].
    apply list_elem_of_In in Hq.
    rewrite elem_of_reverse, Array_sort_Permutation, list_elem_of_fmap in Hq.
    destruct Hq as [[k' q'] [-> Hk']]. apply elem_of_map_to_list in Hk'.
    simpl in *.
    pose proof (Hkeyed k p Hk) as Hidp. pose proof (Hkeyed k' q' Hk') as Hidq.
    assert (Patient.id p = Patient.id q') as Hid.
    { destruct Hpq as [?|[? Hle]], Hqp as [?|[? Hle']]; try lia.
      now apply key_le_antisym. }
    congruence.
  - apply (@Sorted_StronglySorted _ _ flip_index_order_trans).
    apply Sorted_reverse, StronglySorted_Sorted, Array_sort_stable,
      StronglySorted_filter, in_key_order_sorted, Hkeyed.
  - apply StronglySorted_filter.
    apply (@Sorted_StronglySorted _ _ flip_index_order_trans).
    apply Sorted_reverse. eapply Sorted_weaken; [apply index_cmp_order|].
    apply Array_sort_Sorted, index_cmp_asym.
  - etransitivity; [apply reverse_Permutation|].
    etransitivity; [apply Array_sort_Permutation|].
    apply List_filter_Permutation. unfold in_key_order.
    etransitivity; [apply fmap_Permutation, Array_sort_Permutation|].
    symmetry. etransitivity; [apply reverse_Permutation|].
    apply Array_sort_Permutation.
Qed.

Lemma byTriageLevel_is_the_listing_filtered_witness :
  keyed Ward.noon
  /\ exists all,
       getPatients Ward.noon = (Ok all, Ward.noon)
       /\ getPatientsByTriageLevel Critical Ward.noon =
            (Ok (List.filter
                   (fun p => bool_decide (Patient.triageLevel p = Critical))
                   all),
             Ward.noon).
Proof.
  assert (keyed Ward.noon) as Hkeyed
    by exact (proj1 (sound_replay Ward.morning Ward.opening opening_sound)).
  split; [exact Hkeyed|].
  exact (byTriageLevel_is_the_listing_filtered Critical Ward.noon Hkeyed).
Defined.

(** ** The admission form *)

Example parseInt_examples :
  JSText.parseInt "42" = Some 42
  /\ JSText.parseInt "  12abc" = Some 12
  /\ JSText.parseInt "-7" = Some (-7)
  /\ JSText.parseInt "+150" = Some 150
  /\ JSText.parseInt "0x1A" = Some 26
  /\ JSText.parseInt "1e3" = Some 1
  /\ JSText.parseInt "12.7" = Some 12
  /\ JSText.parseInt "abc" = None
  /\ JSText.parseInt EmptyString = None
  /\ JSText.parseInt "0x" = None.
Proof. vm_compute. repeat split. Qed.

(** What [parseInt] reads as a number is not blank. *)
Lemma parseInt_not_blank (s : string) (n : Z) :
  JSText.parseInt s = Some n -> ~ blank s.
Proof.
  intros Hn Hblank. unfold JSText.parseInt in Hn.
  rewrite (trimStart_blank s Hblank) in Hn. discriminate.
Qed.

Lemma truthy_trim (s : string) :
  JS.truthy (JSText.trim s) = true <-> ~ blank s.
Proof.
  rewrite <- trim_blank. unfold JS.truthy.
  destruct (String.eqb_spec (JSText.trim s) EmptyString); simpl;
    split; intros H; congruence.
Qed.

Lemma keys_nil (errors : FormErrors.t) :
  FormErrors.keys errors = []
  <-> FormErrors.name errors = None
      /\ FormErrors.age errors = None
      /\ FormErrors.patientId errors = None
      /\ FormErrors.mainComplaint errors = None
      /\ FormErrors.symptoms errors = None.
Proof.
  destruct errors as [[?|] [?|] [?|] [?|] [?|]]; simpl; split;
    solve [discriminate | intros (? & ? & ? & ? & ?); discriminate
          | repeat split].
Qed.

Lemma required_field (s message : string) :
  (if negb (JS.truthy (JSText.trim s)) then Some message else None) = None
  <-> ~ blank s.
Proof.
  pose proof (truthy_trim s) as Ht.
  destruct (JS.truthy (JSText.trim s)); simpl; split; intros H;
    try reflexivity; try discriminate.
  - now apply Ht.
  - assert (false = true) by now apply Ht. discriminate.
Qed.

Lemma age_field (form : PatientForm.t) :
  FormErrors.age (validateForm form) = None
  <-> exists n, JSText.parseInt (PatientForm.age form) = Some n /\ 0 <= n <= 150.
Proof.
  cbn [validateForm FormErrors.age]. split.
  - destruct (JS.truthy (JSText.trim (PatientForm.age form))); simpl;
      [|discriminate].
    destruct (JSText.parseInt (PatientForm.age form)) as [n|]; [|discriminate].
    destruct (Z.ltb_spec n 0); simpl; [discriminate|].
    destruct (Z.ltb_spec 150 n); [discriminate|].
    intros _. exists n. split; [reflexivity | lia].
  - intros (n & Hn & Hrange).
    pose proof (proj2 (truthy_trim _) (parseInt_not_blank _ _ Hn)) as Htruthy.
    rewrite Htruthy, Hn. simpl.
    destruct (Z.ltb_spec n 0); [lia|]. destruct (Z.ltb_spec 150 n); [lia|].
    reflexivity.
Qed.

Lemma patientId_field (form : PatientForm.t) :
  FormErrors.patientId (validateForm form) = None
  <-> blank (PatientForm.patientId form)
      \/ exists number,
           stripped (PatientForm.patientId form) number
           /\ (3 <= String.length number)%nat.
Proof.
  cbn [validateForm FormErrors.patientId].
  pose proof (truthy_trim (PatientForm.patientId form)) as Ht.
  destruct (JS.truthy (JSText.trim (PatientForm.patientId form))); simpl.
  - destruct (Nat.ltb_spec
                (String.length (JSText.trim (PatientForm.patientId form))) 3).
    + split; [discriminate|]. intros [Hb|(number & Hn & Hl)].
      * exfalso. now apply Ht.
      * apply stripped_trim in Hn. subst number. lia.
    + split; [|reflexivity]. intros _. right.
      exists (JSText.trim (PatientForm.patientId form)).
      split; [apply trim_stripped | assumption].
  - split; [|reflexivity]. intros _. left. apply trim_blank.
    destruct (String.eqb_spec
                (JSText.trim (PatientForm.patientId form)) EmptyString)
      as [He|Hne]; [exact He|].
    assert (false = true) as Habsurd; [|discriminate].
    apply Ht. intros Hb. apply Hne. now apply trim_blank.
Qed.

Lemma symptoms_field (form : PatientForm.t) :
  FormErrors.symptoms (validateForm form) = None
  <-> PatientForm.selectedSymptoms form <> [].
Proof.
  cbn [validateForm FormErrors.symptoms].
  destruct (PatientForm.selectedSymptoms form); simpl; split; congruence.
Qed.

(** [validateForm] finds no error exactly in the forms that are
    acceptable. *)
Lemma validateForm_spec (form : PatientForm.t) :
  FormErrors.keys (validateForm form) = [] <-> acceptable form.
Proof.
  rewrite keys_nil, age_field, patientId_field, symptoms_field.
  unfold acceptable. cbn [validateForm FormErrors.name FormErrors.mainComplaint].
  rewrite !required_field. reflexivity.
Qed.

(** A name that is a no-break space is refused; a patient number that is a
    no-break space counts as none and is let through. *)
Example validateForm_no_break_space :
  let nbsp := String (ascii_of_nat 160) EmptyString in
  FormErrors.keys
    (validateForm
       (PatientForm.mk nbsp "42" EmptyString "pain" ["fever"] EmptyString
          EmptyString EmptyString EmptyString EmptyString false EmptyString
          FormErrors.empty)) = ["name"]
  /\ FormErrors.keys
       (validateForm
          (PatientForm.mk "Amal" "42" nbsp "pain" ["fever"] EmptyString
             EmptyString EmptyString EmptyString EmptyString false EmptyString
             FormErrors.empty)) = [].
Proof. vm_compute. split; reflexivity. Qed.




(** X24.  A form that is not acceptable is refused without a trace in the
    store: [handleSubmit] shows the validation errors, at least one, and
    leaves the records, the clock and the identifiers as they are.  A form
    is acceptable when its name and main complaint hold more than white
    space, [parseInt] reads its age as an integer from 0 to 150, its
    patient number holds nothing but white space or three characters or
    more between the white space around it, and a symptom is selected;
    white space is said by the codes of the characters ([white]). *)
Theorem refused_form_writes_nothing (form : PatientForm.t) (w : World) :
  ~ acceptable form ->
  handleSubmit form w
  = (Ok (PatientForm.setErrors (validateForm form) form), w)
  /\ FormErrors.keys (validateForm form) <> [].
Proof.
  intros Hrefused.
  assert (FormErrors.keys (validateForm form) <> []) as Hkeys
    by (intros Hnil; now apply Hrefused, validateForm_spec).
  split; [|exact Hkeys]. unfold handleSubmit.
  destruct (FormErrors.keys (validateForm form)); [contradiction|].
  reflexivity.
Qed.

Lemma refused_form_writes_nothing_witness :
  (acceptable Ward.overage -> False)
  /\ fst (handleSubmit Ward.overage Ward.noon)
     = Ok (PatientForm.setErrors
             (FormErrors.mk None (Some "Please enter a valid age (0-150)")
                None None None)
             Ward.overage)
  /\ snd (handleSubmit Ward.overage Ward.noon) = Ward.noon.
Proof.
  assert (~ acceptable Ward.overage) as Hrefused.
  { intros (_ & (n & Hn & Hrange) & _). vm_compute in Hn.
    injection Hn as <-. lia. }
  split; [exact Hrefused|].
  destruct (refused_form_writes_nothing Ward.overage Ward.noon Hrefused)
    as [Hrun _].
  rewrite Hrun. split; reflexivity.
Defined.

Lemma arrival_acceptable : acceptable Ward.arrival.
Proof. apply validateForm_spec. vm_compute. reflexivity. Qed.



(** X26.  A save that fails is swallowed: when the identifier drawn is in
    use, [handleSubmit] of an acceptable form does not throw and sets no
    error; the form is kept as it was filled in and the records are as
    they were. *)
Theorem failed_save_is_swallowed (form : PatientForm.t) (w : World)
    (q : Patient.t) :
  acceptable form ->
  patients w !! entropy w 0%nat = Some q ->
  exists w',
    handleSubmit form w = (Ok (PatientForm.setIsSubmitting false form), w')
    /\ patients w' = patients w.
Proof.
  intros Hacceptable Hused.
  pose proof (proj2 (validateForm_spec form) Hacceptable) as Hkeys.
  unfold handleSubmit. rewrite Hkeys.
  unfold try_catch, bind, Date_now, addPatient, rethrow, try_catch, bind,
    randomUUID, Date_now, Table.add, throw.
  cbn [length Nat.ltb Nat.leb patients clock entropy Patient.id fst snd].
  rewrite Hused. eexists. split; reflexivity.
Qed.

Lemma failed_save_is_swallowed_witness :
  acceptable Ward.arrival
  /\ (exists q, patients Ward.colliding !! entropy Ward.colliding 0%nat = Some q)
  /\ fst (handleSubmit Ward.arrival Ward.colliding)
     = Ok (PatientForm.setIsSubmitting false Ward.arrival)
  /\ patients (snd (handleSubmit Ward.arrival Ward.colliding))
     = patients Ward.colliding.
Proof.
  pose proof arrival_acceptable as Hacceptable.
  assert (exists q,
            patients Ward.colliding !! entropy Ward.colliding 0%nat = Some q)
    as [q Hq] by (vm_compute; eexists; reflexivity).
  split; [exact Hacceptable|]. split; [now exists q|].
  destruct (failed_save_is_swallowed Ward.arrival Ward.colliding q
              Hacceptable Hq) as (w' & Hrun & Hsame).
  rewrite Hrun. split; [reflexivity | exact Hsame].
Defined.

(** ** The filters of the dashboard *)

Lemma includes_nothing (t : string) :
  t <> EmptyString -> JS.includes EmptyString t = false.
Proof. destruct t; [congruence | reflexivity]. Qed.

Lemma search_term_solid (term : string) :
  ~ blank term -> JS.toLowerCase term <> EmptyString.
Proof.
  intros Hb. destruct term; [exfalso; now apply Hb | discriminate].
Qed.

Lemma matchesDashboard_spec (term : string) (p : Patient.t) :
  ~ blank term ->
  matchesDashboard (JS.toLowerCase term) p = true <-> MatchesDashboard term p.
Proof.
  intros Hterm. apply search_term_solid in Hterm.
  unfold matchesDashboard, MatchesDashboard, Matches.
  assert (JS.truthy (Patient.notes p)
          && JS.includes (JS.toLowerCase (Patient.notes p)) (JS.toLowerCase term)
          = JS.includes (JS.toLowerCase (Patient.notes p)) (JS.toLowerCase term))
    as ->.
  { destruct (Patient.notes p); [|reflexivity].
    simpl JS.toLowerCase. now rewrite includes_nothing. }
  rewrite !orb_true_iff, existsb_exists, !includes_ci_contains.
  split.
  - intros [[[H|H]|H]|(s & Hs & H)]; [tauto | tauto | tauto |].
    right. exists s. split; [exact Hs | now apply includes_ci_contains].
  - intros [[H|[H|H]]|(s & Hs & H)]; [tauto | tauto | tauto |].
    right. exists s. split; [exact Hs | now apply includes_ci_contains].
Qed.

Lemma status_filter_spec (status wanted : PatientStatus) :
  String.eqb (JS.or_else (PatientStatus_str status) "Waiting")
    (PatientStatus_str wanted) = true
  <-> status = wanted.
Proof. destruct status, wanted; vm_compute; split; congruence. Qed.

Lemma List_filter_sublist {A : Type} (f : A -> bool) (l : list A) :
  sublist (List.filter f l) l.
Proof.
  induction l as [|x l IH]; simpl; [constructor|].
  destruct (f x); now constructor.
Qed.

Lemma elem_of_List_filter {A : Type} (f : A -> bool) (l : list A) (x : A) :
  x ∈ List.filter f l <-> x ∈ l /\ f x = true.
Proof. now rewrite !list_elem_of_In, filter_In. Qed.

Lemma filteredPatients_spec (patients : list Patient.t) (term : string)
    (statusFilter : Filter PatientStatus) (triageFilter : Filter TriageLevel)
    (p : Patient.t) :
  p ∈ filteredPatients patients term statusFilter triageFilter
  <-> p ∈ patients
      /\ (blank term \/ MatchesDashboard term p)
      /\ passes statusFilter (Patient.status p)
      /\ passes triageFilter (Patient.triageLevel p).
Proof.
  unfold filteredPatients.
  assert (JS.truthy (JSText.trim term) = true /\ ~ blank term
          \/ JS.truthy (JSText.trim term) = false /\ blank term) as Hterm.
  { pose proof (truthy_trim term) as Ht.
    destruct (JS.truthy (JSText.trim term)).
    - left. split; [reflexivity | now apply Ht].
    - right. split; [reflexivity|]. apply trim_blank.
      destruct (String.eqb_spec (JSText.trim term) EmptyString) as [Hb|Hb];
        [exact Hb|].
      assert (false = true) as Habsurd; [|discriminate].
      apply Ht. intros Hblank. apply Hb. now apply trim_blank. }
  destruct Hterm as [[-> Hsolid]|[-> Hblank]].
  - destruct triageFilter as [|level], statusFilter as [|status];
      rewrite ?elem_of_List_filter, ?bool_decide_eq_true, ?status_filter_spec,
        ?(matchesDashboard_spec term p Hsolid);
      simpl passes; tauto.
  - destruct triageFilter as [|level], statusFilter as [|status];
      rewrite ?elem_of_List_filter, ?bool_decide_eq_true, ?status_filter_spec;
      simpl passes; tauto.
Qed.

(** X27.  [filteredPatients] shows a selection of the queue in the order of
    the queue: exactly the patients that pass the status filter and the
    level filter and, unless the search term holds nothing but white
    space, have the term in their name, condition, notes or a symptom,
    case set aside.  White space and the same letter in the other case are
    said by the codes of the characters ([white], [same_letter]), not by
    the built-ins the filter calls. *)
Theorem dashboard_filters_select_in_order (patients : list Patient.t)
    (term : string) (statusFilter : Filter PatientStatus)
    (triageFilter : Filter TriageLevel) :
  sublist (filteredPatients patients term statusFilter triageFilter) patients
  /\ forall p,
       p ∈ filteredPatients patients term statusFilter triageFilter
       <-> p ∈ patients
           /\ (blank term \/ MatchesDashboard term p)
           /\ passes statusFilter (Patient.status p)
           /\ passes triageFilter (Patient.triageLevel p).
Proof.
  split; [|apply filteredPatients_spec]. unfold filteredPatients.
  destruct triageFilter, statusFilter, (JS.truthy (JSText.trim term));
    repeat (etransitivity; [apply List_filter_sublist|]); reflexivity.
Qed.

(** X28.  [loadPatients] cannot fail: it leaves the records as they are and
    shows every stored record once, in the order of the queue, with no
    error; the three counts of [getTriageCount] add up to the number of
    records.  What [searchPatients] finds for a term, the dashboard shows
    for the same term when its two filters are set to All. *)
Theorem dashboard_shows_what_search_finds (term : string)
    (state : Dashboard.t) (w : World) :
  exists found loaded w',
    searchPatients term w = (Ok found, w)
    /\ loadPatients state w = (Ok loaded, w')
    /\ patients w' = patients w
    /\ Dashboard.error loaded = None
    /\ (forall p,
          p ∈ Dashboard.patients loaded <-> exists k, patients w !! k = Some p)
    /\ StronglySorted queue_order (Dashboard.patients loaded)
    /\ getTriageCount (Dashboard.patients loaded) Critical
       + getTriageCount (Dashboard.patients loaded) Urgent
       + getTriageCount (Dashboard.patients loaded) Stable
       = Z.of_nat (size (patients w))
    /\ (forall p,
          p ∈ found ->
          p ∈ filteredPatients (Dashboard.patients loaded) term All All).
Proof.
  destruct (getPatients_spec w) as (all & Hall & Hin & _ & Hlen).
  exists (List.filter (matchesSearch (JS.toLowerCase term)) all),
    (Dashboard.mk (sortPatientsByPriority all) None (clock w 0%nat)),
    (snd (Date_now w)).
  split; [now apply searchPatients_run|].
  split. { unfold loadPatients, try_catch, bind. now rewrite Hall. }
  split; [reflexivity|]. split; [reflexivity|].
  cbn [Dashboard.patients]. unfold sortPatientsByPriority.
  split. { intros p. rewrite Array_sort_Permutation. apply Hin. }
  split.
  { apply Sorted_StronglySorted; [apply _|].
    eapply Sorted_weaken; [apply byPriority_order|].
    apply Array_sort_Sorted, byPriority_asym. }
  split.
  { unfold getTriageCount.
    pose proof (levels_partition (JS.Array_sort byPriority all)) as Hsum.
    rewrite Array_sort_length, Hlen in Hsum. lia. }
  intros p Hp. apply elem_of_List_filter in Hp as [Hp Hm].
  apply matchesSearch_spec in Hm. apply filteredPatients_spec.
  split; [now rewrite Array_sort_Permutation|].
  split; [right; left; exact Hm|]. split; exact I.
Qed.
